(** * discord.ext.commands.bot: extension lifecycle, prefix resolution,
      invocation and command-schema derivation

    A shallow embedding of [src/discord/ext/commands/bot.py].  Every
    definition carries the name of the Python function it embeds.  Python
    dictionaries are finite maps ([gmap]), except where the source depends on
    list order (listener lists, prefix lists, option lists); exceptions are an
    explicit result type.

    The file has one module per part of the source, each with the slice of
    [BotBase] and [Context] that its functions read:
    - [Submodule]: [_is_submodule];
    - [Schema]: [_convert_param], [_convert_options], [_check_options],
      [_check_choices], [register_application_commands];
    - [Prefix]: [when_mentioned], [when_mentioned_or], [get_prefix],
      [get_context];
    - [Invoke]: [can_run], [invoke];
    - [Checks]: [add_check], [remove_check], [check], [check_once];
    - [Owner]: [is_owner];
    - [Interaction]: [get_interaction_context];
    - [Process]: [process_commands], [on_message], [on_interaction];
    - [Extensions]: the listener, cog and extension methods of [BotBase],
      [dispatch] and [close].
    The results follow the definitions, in modules named after them: first
    those that settle the numbered claims (C1 to C10), then further
    properties of the same code (X1 to X30).
    What the source takes from modules that are not part of it ([core],
    [cog], [view], [discord.utils]) is marked as such where it is defined. *)

From Stdlib Require Import ZArith String Ascii List Bool.
From stdpp Require Import gmap strings list fin_maps pretty.
Import ListNotations.
Open Scope string_scope.
Set Warnings "-register-all".

(** ** Exceptions and fallible results *)

(** The exception classes the source raises or catches.  [CommandError]
    stands for the whole [errors.CommandError] hierarchy ([CheckFailure],
    [CommandInvokeError], ...); [OtherError] is any exception class that is
    neither a [CommandError] nor a [TypeError]. *)
Inductive Exn : Type :=
  | TypeError
  | ValueError
  | IndexError
  | StopIteration
  | ClientException (msg : string)
  | CommandError (msg : string)
  | CommandRegistrationError (name : string)
  | ExtensionNotFound (name : string)
  | ExtensionAlreadyLoaded (name : string)
  | ExtensionNotLoaded (name : string)
  | NoEntryPointError (name : string)
  | ExtensionFailed (name : string) (original : Exn)
  | OtherError (tag : string).

Inductive res (A : Type) : Type :=
  | Ok (a : A)
  | Raise (e : Exn).
Arguments Ok {A} a.
Arguments Raise {A} e.

Definition bind {A B : Type} (m : res A) (k : A -> res B) : res B :=
  match m with
  | Ok a => k a
  | Raise e => Raise e
  end.

Notation "'let*' x ':=' m 'in' k" := (bind m (fun x => k))
  (at level 10, x name, m at level 100, k at level 200).

(** [[f(x) for x in l]] where [f] may raise: the first exception leaves the
    comprehension. *)
Section MapM.
Context {A B : Type} (f : A -> res B).
Fixpoint mapM (l : list A) : res (list B) :=
  match l with
  | [] => Ok []
  | x :: l' => let* y := f x in let* ys := mapM l' in Ok (y :: ys)
  end.
End MapM.

(** [core.CommandType]: how a command can be invoked. *)
Inductive CommandType : Type :=
  | ct_default | ct_chat_input | ct_user | ct_message.

Definition CommandType_eqb (a b : CommandType) : bool :=
  match a, b with
  | ct_default, ct_default | ct_chat_input, ct_chat_input
  | ct_user, ct_user | ct_message, ct_message => true
  | _, _ => false
  end.

(** ** Sub-module test *)

Module Submodule.

(** [_is_submodule(parent, child)]:
    [parent == child or child.startswith(parent + ".")]. *)
Definition _is_submodule (parent child : string) : bool :=
  String.eqb parent child || String.prefix (parent ++ ".") child.

End Submodule.

(** ** Command schemas: conversion and comparison *)

Module Schema.

(** *** Annotations *)

(** The classes an annotation can name.  The converter tells apart the
    builtin scalars and the discord model classes; every other class is
    [TOther]. *)
Inductive PyType : Type :=
  | TStr | TInt | TBool | TFloat | TNone
  | TUser | TMember
  | TTextChannel | TVoiceChannel | TCategoryChannel | TThread | TStageChannel
  | TRole
  | TOther (qualname : string).

(** Python floats are not embedded: the builtins that produce or consume
    one are carried as an interface. [int_of_str] is [int(s)] on a [str]
    ([None] when it raises [ValueError]). *)
Class PyBuiltins : Type := {
  float : Type;
  float_eqb : float -> float -> bool;
  float_eqb_int : float -> Z -> bool;
  str_of_int : Z -> string;
  str_of_float : float -> string;
  int_of_str : string -> option Z;
  int_of_float : float -> res Z;
  float_of_int : Z -> res float;
  float_of_str : string -> option float;
}.

Section WithBuiltins.
Context {py : PyBuiltins}.

(** The values a [Literal[...]] annotation can enumerate. *)
Inductive Lit : Type :=
  | LStr (s : string)
  | LInt (z : Z)
  | LBool (b : bool)
  | LFloat (f : float)
  | LNone.

(** The value stored under ["value"] in a choice. *)
Inductive Value : Type :=
  | VStr (s : string)
  | VInt (z : Z)
  | VFloat (f : float).

Inductive Annotation : Type :=
  | AEmpty                                (* [inspect.Parameter.empty] *)
  | AClass (t : PyType)
  | AUnion (args : list Annotation)       (* [__origin__ is Union] *)
  | ALiteral (args : list Lit)            (* [__origin__ is Literal] *)
  | AGeneric (qualname : string).         (* any other annotation object *)

(** *** Wire dictionaries *)

(** [{"name": ..., "value": ...}]; a key that is absent is [None], which is
    also what [dict.get] answers for it. *)
Record Choice : Type := mkChoice {
  choice_name : option string;
  choice_value : option Value;
}.

(** An application command option; [_check_options] reads the same
    dictionaries with [dict.get], so every key is optional. *)
Inductive Opt : Type := mkOpt {
  o_type : option Z;
  o_name : option string;
  o_description : option string;
  o_required : option bool;
  o_choices : option (list Choice);
  o_options : option (list Opt);
  o_default_permissions : option bool;
}.

(** *** [_convert_application_command_option_type] *)

Definition _convert_application_command_option_type (type_ : PyType) : Z :=
  match type_ with
  | TStr => 3
  | TInt => 4
  | TBool => 5
  | TUser | TMember => 6
  | TTextChannel | TVoiceChannel | TCategoryChannel | TThread | TStageChannel => 7
  | TRole => 8
  | TFloat => 10
  | _ => 3
  end.

(** The same function applied to an annotation object that need not be a
    class: no identity or membership test of the source succeeds for it, so
    the final [return 3] is reached. *)
Definition convert_object (a : Annotation) : Z :=
  match a with
  | AClass t => _convert_application_command_option_type t
  | _ => 3
  end.

(** *** Builtin conversions on literal values *)

Definition py_str (i : Lit) : string :=
  match i with
  | LStr s => s
  | LInt z => str_of_int z
  | LBool true => "True"
  | LBool false => "False"
  | LFloat f => str_of_float f
  | LNone => "None"
  end.

Definition py_int (i : Lit) : res Z :=
  match i with
  | LStr s => match int_of_str s with Some z => Ok z | None => Raise ValueError end
  | LInt z => Ok z
  | LBool b => Ok (Z.b2z b)
  | LFloat f => int_of_float f
  | LNone => Raise TypeError
  end.

Definition py_float (i : Lit) : res float :=
  match i with
  | LStr s => match float_of_str s with Some f => Ok f | None => Raise ValueError end
  | LInt z => float_of_int z
  | LBool b => float_of_int (Z.b2z b)
  | LFloat f => Ok f
  | LNone => Raise TypeError
  end.

(** [isinstance(i, str)], [isinstance(i, int)] ([bool] is a subclass of
    [int]) and [isinstance(i, float)]. *)
Definition is_str (i : Lit) : bool := match i with LStr _ => true | _ => false end.
Definition is_int (i : Lit) : bool :=
  match i with LInt _ | LBool _ => true | _ => false end.
Definition is_float (i : Lit) : bool := match i with LFloat _ => true | _ => false end.

(** *** [_convert_param] *)

(** [Union[int, Tuple[int, List[Dict[...]]]]]: the result of
    [_convert_param]. *)
Inductive ParamType : Type :=
  | Plain (type_ : Z)
  | WithChoices (type_ : Z) (choices : list Choice).

(** The three [isinstance(annotation.__args__[0], ...)] tests on a
    [Literal]; [Ok None] when none of them succeeds and control falls
    through. *)
Definition literal_choices (args : list Lit) : res (option ParamType) :=
  match args with
  | [] => Raise IndexError
  | a0 :: _ =>
      if is_str a0 then
        Ok (Some (WithChoices 3
              (map (fun i => mkChoice (Some (py_str i)) (Some (VStr (py_str i)))) args)))
      else if is_int a0 then
        let* cs := mapM (fun i => let* v := py_int i in
                                  Ok (mkChoice (Some (py_str i)) (Some (VInt v)))) args in
        Ok (Some (WithChoices 4 cs))
      else if is_float a0 then
        let* cs := mapM (fun i => let* v := py_float i in
                                  Ok (mkChoice (Some (py_str i)) (Some (VFloat v)))) args in
        Ok (Some (WithChoices 10 cs))
      else Ok None
  end.

Definition is_literal (a : Annotation) : bool :=
  match a with ALiteral _ => true | _ => false end.

Definition is_none_type (a : Annotation) : bool :=
  match a with AClass TNone => true | _ => false end.

Definition mem_Z (x : Z) (s : list Z) : bool := existsb (Z.eqb x) s.

(** The tail of the [Union] branch, from [types = [...]] on. [types[0]] is
    only evaluated for a non-empty list unless the first [all] is vacuous,
    in which case the [return types[0]] raises [IndexError]. *)
Definition merge_types (types : list Z) : res Z :=
  match types with
  | [] => Raise IndexError
  | t0 :: _ =>
      if forallb (fun i => Z.eqb i t0) types then Ok t0
      else if forallb (fun i => mem_Z i [6; 7; 8]%Z) types then Ok 9%Z
      else if forallb (fun i => mem_Z i [4; 10]%Z) types then Ok 10%Z
      else Ok 3%Z
  end.

Definition _convert_param (annotation : Annotation) : res ParamType :=
  match annotation with
  | AEmpty => Ok (Plain 3)
  | AUnion args =>
      let merge (members : list Z) := let* t := merge_types members in Ok (Plain t) in
      let plain := merge (map convert_object
                            (List.filter (fun i => negb (is_none_type i)) args)) in
      if (length args =? 2)%nat && existsb is_literal args then
        (* [annotation] is rebound to the first [Literal] member *)
        match List.find is_literal args with
        | Some (ALiteral largs) =>
            let* r := literal_choices largs in
            match r with
            | Some t => Ok t
            | None =>
                (* [types] is now built from the literal values, none of
                   which is a class *)
                merge (map (fun _ => 3%Z) largs)
            end
        | _ => plain
        end
      else plain
  | ALiteral args =>
      let* r := literal_choices args in
      match r with
      | Some t => Ok t
      | None => Ok (Plain (convert_object annotation))
      end
  | _ => Ok (Plain (convert_object annotation))
  end.

(** The merging rule in the words of the specification, for the wire types
    [ts] of the members of a union other than [None]: the common type when
    all members map to the same one; else 9 when all are among user (6),
    channel (7) and role (8); else 10 when all are among integer (4) and
    numeric (10); else 3. *)
Definition all_same (ts : list Z) (t : Z) : Prop := Forall (fun x => x = t) ts.
Definition all_among (ts s : list Z) : Prop := Forall (fun x => In x s) ts.

Inductive spec_union_type (ts : list Z) : Z -> Prop :=
  | union_same t :
      all_same ts t -> spec_union_type ts t
  | union_mentionable :
      (forall t, ~ all_same ts t) -> all_among ts [6; 7; 8]%Z ->
      spec_union_type ts 9
  | union_numeric :
      (forall t, ~ all_same ts t) -> ~ all_among ts [6; 7; 8]%Z ->
      all_among ts [4; 10]%Z -> spec_union_type ts 10
  | union_string :
      (forall t, ~ all_same ts t) -> ~ all_among ts [6; 7; 8]%Z ->
      ~ all_among ts [4; 10]%Z -> spec_union_type ts 3.

Definition is_none_class (t : PyType) : bool :=
  match t with TNone => true | _ => false end.

(** The wire types of the members of a union of classes, [None] ignored. *)
Definition member_wire_types (members : list PyType) : list Z :=
  map _convert_application_command_option_type
      (List.filter (fun t => negb (is_none_class t)) members).

(** *** [_convert_options] *)

(** [inspect.Parameter]: the annotation, and whether
    [param.default == param.empty]. *)
Record Param : Type := mkParam {
  annotation : Annotation;
  default_is_empty : bool;
}.

(** The attributes of a [Command] or [Group] that [_convert_options] reads.
    [cmd_type] lists the set [command.type] in iteration order;
    [cmd_is_group] is [isinstance(command, GroupMixin)] and [cmd_commands]
    is [command.commands] in iteration order; [cmd_has_cog] is
    [command.cog is not None]. *)
Inductive Command : Type := mkCommand {
  cmd_name : string;
  cmd_brief : option string;
  cmd_type : list CommandType;
  cmd_is_group : bool;
  cmd_commands : list Command;
  cmd_params : list (string * Param);
  cmd_has_cog : bool;
  cmd_descriptions : gmap string string;
}.

Definition no_description : string := "No description provided".

(** [com.brief or "No description provided"]. *)
Definition brief_or_default (brief : option string) : string :=
  match brief with
  | Some s => if String.eqb s EmptyString then no_description else s
  | None => no_description
  end.

(** [len(com.type) > 1 or next(iter(com.type)) is not CommandType.default]. *)
Definition is_application_command (type_ : list CommandType) : res bool :=
  if (1 <? length type_)%nat then Ok true
  else match type_ with
       | [] => Raise StopIteration
       | ct_default :: _ => Ok false
       | _ :: _ => Ok true
       end.

(** The body of the final [for name, param in iterator] loop. *)
Definition param_option (descriptions : gmap string string)
    (entry : string * Param) : res Opt :=
  let (name, param) := entry in
  let* type_ := _convert_param (annotation param) in
  let description := Some (default no_description (descriptions !! name)) in
  Ok (if default_is_empty param then
        match type_ with
        | WithChoices t choices =>
            mkOpt (Some t) (Some name) description (Some true) (Some choices) None None
        | Plain t =>
            mkOpt (Some t) (Some name) description (Some true) None None None
        end
      else
        match type_ with
        | WithChoices t choices =>
            mkOpt (Some t) (Some name) description None (Some choices) None None
        | Plain t =>
            mkOpt (Some t) (Some name) description None None None None
        end).

(** The part of [_convert_options] after the group branch. *)
Definition leaf_options (name : string) (has_cog : bool)
    (params : list (string * Param)) (descriptions : gmap string string)
    : res (list Opt) :=
  let quote := String (ascii_of_nat 34) EmptyString in
  let missing (p : string) :=
    ClientException ("Callback for " ++ name ++ " command is missing "
                     ++ quote ++ p ++ quote ++ " parameter.") in
  let* iterator :=
    (if has_cog then
       match params with
       | [] => Raise (missing "self")
       | _ :: rest => Ok rest
       end
     else Ok params) in
  match iterator with
  | [] => Raise (missing "ctx")
  | _ :: rest => mapM (param_option descriptions) rest
  end.

Fixpoint _convert_options (command : Command) (group : Z) {struct command}
    : res (list Opt) :=
  if cmd_is_group command && negb (group =? 1)%Z then
    (fix loop (commands : list Command) : res (list Opt) :=
       match commands with
       | [] => Ok []
       | com :: commands' =>
           let* app := is_application_command (cmd_type com) in
           if app then
             let updated_group :=
               (if (group =? 0)%Z && cmd_is_group com then 2 else 1)%Z in
             let* opt := _convert_options com updated_group in
             let* options := loop commands' in
             Ok (mkOpt (Some updated_group) (Some (cmd_name com))
                       (Some (brief_or_default (cmd_brief com))) None None
                       (match opt with [] => None | _ => Some opt end) None
                   :: options)
           else loop commands'
       end) (cmd_commands command)
  else
    leaf_options (cmd_name command) (cmd_has_cog command)
                 (cmd_params command) (cmd_descriptions command).

(** *** [_check_choices] and [_check_options] *)

(** Python [==] on the values of a choice. *)
Definition value_eqb (a b : Value) : bool :=
  match a, b with
  | VStr x, VStr y => String.eqb x y
  | VInt x, VInt y => (x =? y)%Z
  | VFloat x, VFloat y => float_eqb x y
  | VFloat x, VInt y | VInt y, VFloat x => float_eqb_int x y
  | _, _ => false
  end.

(** [==] on what [dict.get] returns: [None == None] holds. *)
Definition get_eqb {A : Type} (eqb : A -> A -> bool) (a b : option A) : bool :=
  match a, b with
  | Some x, Some y => eqb x y
  | None, None => true
  | _, _ => false
  end.

Definition is_empty {A : Type} (l : list A) : bool :=
  match l with [] => true | _ => false end.

Definition same_choice (i j : Choice) : bool :=
  get_eqb String.eqb (choice_name i) (choice_name j)
  && get_eqb value_eqb (choice_value i) (choice_value j).

Definition _check_choices (current new : list Choice) : bool :=
  if (negb (is_empty current) && is_empty new)
     || (negb (is_empty new) && is_empty current) then false
  else if is_empty new && is_empty current then true
  else
    forallb (fun j => existsb (fun i => same_choice i j) new) current
    && forallb (fun i => existsb (fun j => same_choice i j) current) new.

(** [i.get("options", [])], [i.get("choices", [])] and
    [i.get("default_permissions", True)]. *)
Definition get_options (i : Opt) : list Opt := default [] (o_options i).
Definition get_choices (i : Opt) : list Choice := default [] (o_choices i).
Definition get_default_permissions (i : Opt) : bool :=
  default true (o_default_permissions i).

(** [d.get(name, [])] for [d = {i.get("name"): i.get("options", []) for i in
    current}]: a later entry of [current] replaces an earlier one of the
    same name. *)
Definition options_by_name (current : list Opt) (name : option string)
    : list Opt :=
  match List.find (fun c => get_eqb String.eqb (o_name c) name) (rev current) with
  | Some c => get_options c
  | None => []
  end.

(** The body of [_check_options]; [rec i cur] stands for the recursive call
    [_check_options(cur, i.get("options", []))], whose second argument is
    always the nested list of an element [i] of [new]. *)
Definition check_options_body (rec : Opt -> list Opt -> bool)
    (current new : list Opt) : bool :=
  let matches (i j : Opt) : bool :=
    get_eqb String.eqb (o_name i) (o_name j)
    && get_eqb String.eqb (o_description i) (o_description j)
    && rec i (get_options j)
    && Bool.eqb (get_default_permissions i) (get_default_permissions j)
    && _check_choices (get_choices j) (get_choices i) in
  if (negb (is_empty current) && is_empty new)
     || (negb (is_empty new) && is_empty current) then false
  else if is_empty new && is_empty current then true
  else if existsb (fun i => negb (is_empty (get_options i))) new then
    forallb (fun i => rec i (options_by_name current (o_name i))) new
  else
    forallb (fun j => existsb (fun i => matches i j) new) current
    && forallb (fun i => existsb (fun j => matches i j) current) new.

(** [check_nested i current] is [_check_options(current, i.get("options",
    []))], by recursion on the option [i]; without an ["options"] key the
    second argument is [[]] and the first two tests of the body decide. *)
Fixpoint check_nested (i : Opt) (current : list Opt) {struct i} : bool :=
  match i with
  | mkOpt _ _ _ _ _ (Some options) _ =>
      check_options_body check_nested current options
  | mkOpt _ _ _ _ _ None _ => is_empty current
  end.

Definition _check_options (current new : list Opt) : bool :=
  check_options_body check_nested current new.

End WithBuiltins.

(** *** The shape of a converted option list *)

Section Shapes.
Context {py : PyBuiltins}.

(** The loop of the group branch of [_convert_options], as a function of
    the recursive call [rec]. *)
Fixpoint group_options (rec : Command -> Z -> res (list Opt)) (group : Z)
    (commands : list Command) : res (list Opt) :=
  match commands with
  | [] => Ok []
  | com :: commands' =>
      let* app := is_application_command (cmd_type com) in
      if app then
        let updated_group :=
          (if (group =? 0)%Z && cmd_is_group com then 2 else 1)%Z in
        let* opt := rec com updated_group in
        let* options := group_options rec group commands' in
        Ok (mkOpt (Some updated_group) (Some (cmd_name com))
                  (Some (brief_or_default (cmd_brief com))) None None
                  (match opt with [] => None | _ => Some opt end) None
              :: options)
      else group_options rec group commands'
  end.

(** The wire types [_convert_param] can return. *)
Definition value_types : list Z := [3; 4; 5; 6; 7; 8; 9; 10]%Z.

(** A choice of an option of wire type [t]: both keys are present and the
    value is a [str] for 3, an [int] for 4, a [float] for 10. *)
Definition choice_of_type (t : Z) (c : Choice) : Prop :=
  is_Some (choice_name c)
  /\ match choice_value c with
     | Some (VStr _) => t = 3%Z
     | Some (VInt _) => t = 4%Z
     | Some (VFloat _) => t = 10%Z
     | None => False
     end.

(** What [_convert_param] returns: a value type, or one of 3, 4 and 10
    with choices of that type, at least one. *)
Definition converted_well (r : ParamType) : Prop :=
  match r with
  | Plain t => In t value_types
  | WithChoices t choices =>
      In t [3; 4; 10]%Z /\ choices <> [] /\ Forall (choice_of_type t) choices
  end.

(** An option for a parameter: a value type, a name, no nested options. *)
Definition is_value_option (o : Opt) : Prop :=
  (exists t, o_type o = Some t /\ In t value_types)
  /\ is_Some (o_name o) /\ o_options o = None.

(** A sub-command (type 1) holding only value options, and a sub-command
    group (type 2) holding only sub-commands. *)
Definition is_sub_command (o : Opt) : Prop :=
  o_type o = Some 1%Z /\ Forall is_value_option (get_options o).

Definition is_sub_command_group (o : Opt) : Prop :=
  o_type o = Some 2%Z /\ Forall is_sub_command (get_options o).

(** What a parameter contributes besides its type: its name, and
    ["required": True] when it has no default. *)
Definition param_signature (entry : string * Param) : option string * option bool :=
  (Some (fst entry), if default_is_empty (snd entry) then Some true else None).

(** The parameters left once [self] (for a command of a cog) and [ctx]
    are consumed. *)
Definition user_params (command : Command) : list (string * Param) :=
  skipn (if cmd_has_cog command then 2 else 1) (cmd_params command).

(** [o] without the keys that the branch for nested options of
    [_check_options] never reads. *)
Definition name_and_options (o : Opt) : Opt :=
  mkOpt None (o_name o) None None None (o_options o) None.

End Shapes.

(** *** [register_application_commands] *)

Section Registration.
Context {py : PyBuiltins}.

(** An entry of [command_data]: the dictionary of a slash command, or the
    short one of a user or message command.  [type_] is the member of
    [CommandType] whose [value] is sent. *)
Inductive CommandData : Type :=
  | SlashCommand (name description : string) (options : list Opt)
                 (type_ : CommandType)
  | MenuCommand (name : string) (type_ : CommandType).

(** [for type_ in command.type: ...]. *)
Definition type_entries (command : Command) (options : list Opt)
    : list CommandData :=
  flat_map (fun type_ =>
              match type_ with
              | ct_default => []
              | ct_chat_input =>
                  [SlashCommand (cmd_name command)
                                (brief_or_default (cmd_brief command))
                                options type_]
              | ct_user | ct_message => [MenuCommand (cmd_name command) type_]
              end)
           (cmd_type command).

(** The loop that fills [command_data], over [self.commands] in iteration
    order. *)
Fixpoint command_data (commands : list Command) : res (list CommandData) :=
  match commands with
  | [] => Ok []
  | command :: commands' =>
      let* app := is_application_command (cmd_type command) in
      if app then
        let* options := _convert_options command 0 in
        let* data := command_data commands' in
        Ok (type_entries command options ++ data)%list
      else command_data commands'
  end.

(** The attributes of the bot that [register_application_commands]
    reads. *)
Record Bot : Type := mkBot {
  commands : list Command;
  debug : bool;
  debug_guild_id : option Z;
  application_id : option Z;
}.

(** The request handed to the HTTP client. *)
Inductive Request : Type :=
  | bulk_upsert_guild_commands (application_id guild_id : option Z)
                               (payload : list CommandData)
  | bulk_upsert_global_commands (application_id : option Z)
                                (payload : list CommandData).

(** A [StopIteration] that leaves the body of a coroutine reaches the
    caller as a [RuntimeError]. *)
Definition leave_coroutine {A : Type} (r : res A) : res A :=
  match r with
  | Raise StopIteration => Raise (OtherError "RuntimeError")
  | _ => r
  end.

(** [register_application_commands], up to the request it makes. *)
Definition register_application_commands (bot : Bot) : res Request :=
  leave_coroutine
    (let* data := command_data (commands bot) in
     Ok (if debug bot
         then bulk_upsert_guild_commands (application_id bot) (debug_guild_id bot) data
         else bulk_upsert_global_commands (application_id bot) data)).

Definition entry_name (d : CommandData) : string :=
  match d with SlashCommand name _ _ _ | MenuCommand name _ => name end.

Definition entry_type (d : CommandData) : CommandType :=
  match d with SlashCommand _ _ _ type_ | MenuCommand _ type_ => type_ end.

Definition is_default (type_ : CommandType) : bool :=
  match type_ with ct_default => true | _ => false end.

End Registration.

(** *** An instance of the builtins, to run the definitions

    Floats are restricted to those of integral value below [2^53], where
    every conversion is exact; [int()] and [float()] read an optional sign
    followed by ASCII digits.  Conversions outside this range raise. *)

Fixpoint digits_value (acc : Z) (s : string) : option Z :=
  match s with
  | EmptyString => Some acc
  | String c s' =>
      let n := nat_of_ascii c in
      if ((48 <=? n) && (n <=? 57))%nat
      then digits_value (10 * acc + Z.of_nat (n - 48)) s'
      else None
  end.

Definition decimal_of_str (s : string) : option Z :=
  match s with
  | EmptyString => None
  | String "-" (String c r) => option_map Z.opp (digits_value 0 (String c r))
  | String "+" (String c r) => digits_value 0 (String c r)
  | _ => digits_value 0 s
  end.

Definition exact_float (z : Z) : res Z :=
  if (Z.abs z <=? 2 ^ 53)%Z then Ok z else Raise (OtherError "inexact").

Definition integral_floats : PyBuiltins := {|
  float := Z;
  float_eqb := Z.eqb;
  float_eqb_int := Z.eqb;
  str_of_int := pretty;
  str_of_float := fun z => pretty z ++ ".0";
  int_of_str := decimal_of_str;
  int_of_float := Ok;
  float_of_int := exact_float;
  float_of_str := fun s => match decimal_of_str s with
                           | Some z => match exact_float z with
                                       | Ok f => Some f
                                       | Raise _ => None
                                       end
                           | None => None
                           end;
|}.

(** *** Example option trees *)

Section Examples.
Context {py : PyBuiltins}.

Definition leaf_opt (name : string) : Opt :=
  mkOpt (Some 3%Z) (Some name) (Some "d") None None None None.

Definition group_opt (name : string) (options : list Opt) : Opt :=
  mkOpt (Some 1%Z) (Some name) (Some "d") None None (Some options) None.

Definition tree_A : list Opt := [group_opt "a" [leaf_opt "x"]].
Definition tree_B : list Opt :=
  [group_opt "a" [leaf_opt "x"]; group_opt "c" [leaf_opt "y"]].

(** A command taking the context and one parameter [pick] annotated
    [Literal["a", "b", "c"]]. *)
Definition abc : Annotation := ALiteral [LStr "a"; LStr "b"; LStr "c"].

Definition abc_choices : list Choice :=
  [mkChoice (Some "a") (Some (VStr "a"));
   mkChoice (Some "b") (Some (VStr "b"));
   mkChoice (Some "c") (Some (VStr "c"))].

Definition pick_command (has_default : bool) : Command :=
  mkCommand "choose" None [ct_chat_input] false []
    [("ctx", mkParam AEmpty true); ("pick", mkParam abc (negb has_default))]
    false ∅.

(** The slash commands of a group [admin]: the sub-command group [roles]
    with the sub-command [add], and the sub-command [ban]. *)
Definition ctx_param : string * Param := ("ctx", mkParam AEmpty true).

Definition role_add : Command :=
  mkCommand "add" (Some "Give a role") [ct_chat_input] false []
    [ctx_param; ("member", mkParam (AClass TMember) true);
     ("role", mkParam (AClass TRole) true)]
    false ∅.

Definition roles : Command :=
  mkCommand "roles" None [ct_chat_input] true [role_add] [ctx_param] false ∅.

Definition ban : Command :=
  mkCommand "ban" None [ct_chat_input; ct_user] false []
    [ctx_param; ("user", mkParam (AClass TUser) true);
     ("reason", mkParam (AClass TStr) false)]
    false {["reason" := "Why"]}.

Definition admin : Command :=
  mkCommand "admin" None [ct_chat_input] true [roles; ban] [ctx_param] false ∅.

(** A slash command whose callback takes no parameter at all. *)
Definition bare : Command :=
  mkCommand "bare" None [ct_chat_input] false [] [] false ∅.

(** No option of the list has a non-empty nested ["options"] list. *)
Definition no_nested (l : list Opt) : Prop :=
  Forall (fun o => get_options o = []) l.

End Examples.

End Schema.

(** ** Prefix resolution and the invocation context of a message *)

Module Prefix.

(** *** [StringView] *)

(** Modelled from the spec: [view.StringView] is not among the sources.  The
    view is a cursor into the message content; [skip_string] advances over
    a string the rest of the buffer starts with verbatim, [skip_ws] over
    leading whitespace, and [get_word] reads the next whitespace-delimited
    word. *)
Record StringView : Type := mkView {
  buffer : string;
  index : nat;
}.

Definition new_view (content : string) : StringView := mkView content 0.

(** [s[start:stop]] for [0 <= start <= stop]. *)
Definition slice (s : string) (start stop : nat) : string :=
  substring start (stop - start) s.

(** [c.isspace()] on the ASCII range. *)
Definition isspace (c : ascii) : bool :=
  let n := nat_of_ascii c in
  ((9 <=? n) && (n <=? 13) || (28 <=? n) && (n <=? 32))%nat.

Fixpoint count_while (f : ascii -> bool) (s : string) : nat :=
  match s with
  | EmptyString => 0
  | String c s' => if f c then S (count_while f s') else 0
  end.

Definition rest (view : StringView) : string :=
  slice (buffer view) (index view) (String.length (buffer view)).

Definition skip_string (view : StringView) (s : string) : bool * StringView :=
  let strlen := String.length s in
  if String.eqb (slice (buffer view) (index view) (index view + strlen)) s
  then (true, mkView (buffer view) (index view + strlen))
  else (false, view).

Definition skip_ws (view : StringView) : StringView :=
  let pos := count_while isspace (rest view) in
  mkView (buffer view) (index view + pos).

Definition get_word (view : StringView) : string * StringView :=
  let pos := count_while (fun c => negb (isspace c)) (rest view) in
  (slice (buffer view) (index view) (index view + pos),
   mkView (buffer view) (index view + pos)).

(** *** Prefix sources *)

(** An element of a prefix collection: a [str], or an object of another
    class. *)
Inductive Element : Type :=
  | EStr (s : string)
  | ENotStr (class_name : string).

(** What [command_prefix] holds or returns.  For an iterable, [items] is
    the outcome of [list(ret)]: the elements, or the exception raised while
    iterating. *)
Inductive PyVal : Type :=
  | PStr (s : string)
  | PIterable (items : res (list Element))
  | PNotIterable (class_name : string).

Record Message : Type := mkMessage {
  content : string;
  author_id : Z;
}.

(** [command_prefix]: a value, or a callable of the bot and the message
    (awaited when it is a coroutine) that may raise. *)
Inductive PrefixSource : Type :=
  | Fixed (v : PyVal)
  | Callable (f : Message -> res PyVal).

(** What [get_prefix] returns: a [str] or a [list]. *)
Inductive Prefixes : Type :=
  | OneStr (s : string)
  | Many (l : list Element).

Section WithCommand.
Context {Command : Type}.

(** The attributes of the bot that [get_prefix] and [get_context] read. *)
Record Bot : Type := mkBot {
  command_prefix : PrefixSource;
  user_id : Z;
  strip_after_prefix : bool;
  all_commands : gmap string Command;
}.

Record Context : Type := mkContext {
  ctx_prefix : option string;
  ctx_view : StringView;
  ctx_invoked_with : option string;
  ctx_command : option Command;
}.

(** [ret] after [if callable(prefix): ret = await maybe_coroutine(...)]. *)
Definition resolved_source (bot : Bot) (message : Message) : res PyVal :=
  match command_prefix bot with
  | Fixed v => Ok v
  | Callable f => f message
  end.

(** [get_prefix]. *)
Definition get_prefix (bot : Bot) (message : Message) : res Prefixes :=
  let* ret := resolved_source bot message in
  match ret with
  | PStr s => Ok (OneStr s)
  | PIterable (Raise e) =>
      (* a [TypeError] of an iterable is re-raised, any other exception
         is not caught *)
      Raise e
  | PNotIterable _ => Raise TypeError
  | PIterable (Ok l) =>
      match l with
      | [] => Raise ValueError
      | _ => Ok (Many l)
      end
  end.

(** [message.content.startswith(tuple(prefix))]: the elements are tried in
    order; one that is not a [str] raises [TypeError] when it is reached. *)
Fixpoint startswith_any (content : string) (prefix : list Element) : res bool :=
  match prefix with
  | [] => Ok false
  | ENotStr _ :: _ => Raise TypeError
  | EStr s :: prefix' =>
      if String.prefix s content then Ok true else startswith_any content prefix'
  end.

(** Modelled from the spec: [discord.utils.find] is not among the sources.
    [find(view.skip_string, prefix)] is the first element, in the order of
    the list, for which [skip_string] answers true, the view being advanced
    over it; [len()] of an element that is not a [str] raises
    [TypeError]. *)
Fixpoint find_skip_string (view : StringView) (prefix : list Element)
    : res (option string * StringView) :=
  match prefix with
  | [] => Ok (None, view)
  | ENotStr _ :: _ => Raise TypeError
  | EStr s :: prefix' =>
      let (found, view') := skip_string view s in
      if found then Ok (Some s, view') else find_skip_string view' prefix'
  end.

(** [get_context]. *)
Definition get_context (bot : Bot) (message : Message) : res Context :=
  let view := new_view (content message) in
  let ctx := mkContext None view None None in
  if (author_id message =? user_id bot)%Z then Ok ctx
  else
    let* prefix := get_prefix bot message in
    let finish (invoked_prefix : option string) (view : StringView) :=
      let view := if strip_after_prefix bot then skip_ws view else view in
      let (invoker, view) := get_word view in
      Ok (mkContext invoked_prefix view (Some invoker)
                    (all_commands bot !! invoker)) in
    match prefix with
    | OneStr s =>
        let (found, view') := skip_string view s in
        if found then finish (Some s) view' else Ok ctx
    | Many l =>
        (* every path through the [except TypeError] handler ends in a
           [TypeError] *)
        let* starts := startswith_any (content message) l in
        if starts then
          let* r := find_skip_string view l in
          finish (fst r) (snd r)
        else Ok ctx
    end.

End WithCommand.

Arguments Bot Command : clear implicits.
Arguments Context Command : clear implicits.

(** *** [when_mentioned] and [when_mentioned_or] *)

Section Mentions.
Context {Command : Type}.

(** [[f"<@{bot.user.id}> ", f"<@!{bot.user.id}> "]]. *)
Definition when_mentioned (bot : Bot Command) (msg : Message) : list string :=
  ["<@" ++ pretty (user_id bot) ++ "> "; "<@!" ++ pretty (user_id bot) ++ "> "].

(** The callable [inner] that [when_mentioned_or] returns for the given
    prefixes. *)
Definition when_mentioned_or (prefixes : list Element)
    : Bot Command -> Message -> list Element :=
  fun bot msg =>
    let r := prefixes in
    (map EStr (when_mentioned bot msg) ++ r)%list.

(** The context of a message that no command can be looked up for: the
    one [get_context] starts from. *)
Definition blank_context (message : Message) : Context Command :=
  mkContext None (new_view (content message)) None None.

End Mentions.

(** [p] is the prefix that [get_context] settles on: the string that
    [get_prefix] returns, or the first element of the list it returns that
    the content starts with, whatever follows it in the list. *)
Definition selects (prefixes : Prefixes) (content p : string) : Prop :=
  String.prefix p content = true
  /\ match prefixes with
     | OneStr s => s = p
     | Many l =>
         exists before after,
           l = (map EStr before ++ EStr p :: after)%list
           /\ Forall (fun q => String.prefix q content = false) before
     end.

(** The content starts with none of the prefixes, all of them strings. *)
Definition matches_none (prefixes : Prefixes) (content : string) : Prop :=
  match prefixes with
  | OneStr s => String.prefix s content = false
  | Many l =>
      exists strs, l = map EStr strs
                   /\ Forall (fun q => String.prefix q content = false) strs
  end.

(** The two forms of a mention of the user [id], the second one with the
    nickname mark. *)
Definition mention (id : Z) (nickname : bool) : string :=
  (if nickname then "<@!" else "<@") ++ pretty id ++ "> ".

(** A word: no whitespace in it. *)
Definition is_word (w : string) : Prop :=
  Forall (fun c => isspace c = false) (list_ascii_of_string w).

(** Whitespace only. *)
Definition is_blank (w : string) : Prop :=
  Forall (fun c => isspace c = true) (list_ascii_of_string w).

(** The text ends here or goes on with whitespace. *)
Definition ends_word (tail : string) : Prop :=
  match tail with
  | EmptyString => True
  | String c _ => isspace c = true
  end.

(** Prefixes ["!"] and ["!!"], in this order, and the message ["!!ping"]
    of another user. *)
Definition shadow_bot : Bot nat :=
  mkBot (Fixed (PIterable (Ok [EStr "!"; EStr "!!"]))) 1 false ∅.
Definition shadow_message : Message := mkMessage "!!ping" 2.

(** A bot with the prefix ["!"] that strips blanks after it and has a
    command [ping], and a message of another user. *)
Definition ping_bot : Bot nat :=
  mkBot (Fixed (PStr "!")) 1 true {["ping" := 7]}.
Definition ping_message : Message := mkMessage "!  ping now" 2.

(** A prefix list whose second element is an [int]. *)
Definition mixed_bot : Bot nat :=
  mkBot (Fixed (PIterable (Ok [EStr "!"; ENotStr "int"]))) 1 false ∅.
Definition other_message : Message := mkMessage "?ping" 2.

(** The bot 42 with [when_mentioned_or("!")] as prefix source, and a
    message that mentions it by nickname. *)
Definition mention_bot : Bot nat :=
  mkBot (Callable (fun _ =>
           Ok (PIterable (Ok [EStr "<@42> "; EStr "<@!42> "; EStr "!"]))))
        42 false ∅.
Definition mention_message : Message := mkMessage "<@!42> ping" 2.

End Prefix.

(** ** Invocation *)

Module Invoke.

(** [isinstance(e, errors.CommandError)]. *)
Definition is_command_error (e : Exn) : bool :=
  match e with CommandError _ => true | _ => false end.

(** What [invoke] does, in order: an event handed to [self.dispatch], the
    call of [ctx.command.invoke(ctx)], the call of
    [ctx.command.dispatch_error(ctx, exc)]. *)
Inductive Effect : Type :=
  | Dispatch (event_name : string)
  | Invoked
  | ErrorRouted (exc : Exn).

(** The resolved command, as [invoke] and [can_run] use it for the context
    at hand: the set [command.type], what [command.invoke(ctx)] does and
    what [command.dispatch_error(ctx, exc)] does (both return nothing or
    raise). *)
Record Command : Type := mkCommand {
  cmd_type : list CommandType;
  cmd_invoke : res unit;
  cmd_dispatch_error : Exn -> res unit;
}.

Record Context : Type := mkContext {
  ctx_command : option Command;
  ctx_command_type : CommandType;
  ctx_invoked_with : option string;
}.

(** A global check: returns a truth value or raises. *)
Definition Check : Type := Context -> res bool.

Record Bot : Type := mkBot {
  _checks : list Check;
  _check_once : list Check;
}.

(** Modelled from the spec: [discord.utils.async_all] is not among the
    sources.  The checks are combined by logical AND, all of them being
    evaluated in order; a check that raises ends the evaluation. *)
Fixpoint async_all (data : list Check) (ctx : Context) : res bool :=
  match data with
  | [] => Ok true
  | f :: data' =>
      let* elem := f ctx in
      let* others := async_all data' ctx in
      Ok (elem && others)
  end.

(** [can_run]. *)
Definition can_run (bot : Bot) (ctx : Context) (call_once : bool) : res bool :=
  match ctx_command ctx with
  | None => Raise (OtherError "AttributeError")
  | Some command =>
      if negb (existsb (CommandType_eqb (ctx_command_type ctx)) (cmd_type command))
      then Raise TypeError
      else
        let data := if call_once then _check_once bot else _checks bot in
        if (length data =? 0)%nat then Ok true
        else async_all data ctx
  end.

Definition check_failure : Exn :=
  CommandError "The global check once functions failed.".

(** The body of the [try] in [invoke]. *)
Definition invoke_try (bot : Bot) (ctx : Context) (command : Command)
    : list Effect * res unit :=
  match can_run bot ctx true with
  | Raise e => ([], Raise e)
  | Ok true => ([Dispatch "command"; Invoked], cmd_invoke command)
  | Ok false => ([Dispatch "command"], Raise check_failure)
  end.

(** [invoke]: the actions performed, and how the call ends. *)
Definition invoke (bot : Bot) (ctx : Context) : list Effect * res unit :=
  match ctx_command ctx with
  | Some command =>
      let (actions, outcome) := invoke_try bot ctx command in
      match outcome with
      | Raise exc =>
          if is_command_error exc then
            ((actions ++ [Dispatch "command"; ErrorRouted exc])%list,
             cmd_dispatch_error command exc)
          else match exc with
               | TypeError => (actions, Ok tt)
               | _ => (actions, Raise exc)
               end
      | Ok _ => ((actions ++ [Dispatch "command_completion"])%list, Ok tt)
      end
  | None =>
      match ctx_invoked_with ctx with
      | Some (String _ _) => ([Dispatch "command_error"], Ok tt)
      | _ => ([], Ok tt)
      end
  end.

(** How many times the ["command"] event is dispatched. *)
Definition is_command_event (a : Effect) : bool :=
  match a with Dispatch name => String.eqb name "command" | _ => false end.

Definition command_events (actions : list Effect) : nat :=
  length (List.filter is_command_event actions).

(** The command's own pipeline ended in a domain error. *)
Definition raises_command_error (r : res unit) : bool :=
  match r with Raise e => is_command_error e | Ok _ => false end.

(** *** Example invocations *)

Definition silent_command (type_ : list CommandType) : Command :=
  mkCommand type_ (Ok tt) (fun _ => Ok tt).

Definition text_context (command : Command) : Context :=
  mkContext (Some command) ct_default (Some "ping").

(** A bot whose only call-once check answers [False]. *)
Definition refusing_bot : Bot := mkBot [] [fun _ => Ok false].
(** A bot whose only call-once check raises [TypeError]. *)
Definition faulty_bot : Bot := mkBot [] [fun _ => Raise TypeError].
(** A bot whose only call-once check raises an unexpected fault. *)
Definition crashing_bot : Bot := mkBot [] [fun _ => Raise (OtherError "RuntimeError")].
Definition plain_bot : Bot := mkBot [] [].

End Invoke.

(** ** Global checks *)

Module Checks.

Section WithCheck.
(** A check is a function object: [list.remove] finds it by identity. *)
Context {Check : Type} `{EqDecision Check}.

Record Bot : Type := mkBot {
  _checks : list Check;
  _check_once : list Check;
}.

(** [self._check_once if call_once else self._checks]. *)
Definition chosen (b : Bot) (call_once : bool) : list Check :=
  if call_once then _check_once b else _checks b.

(** [add_check]. *)
Definition add_check (b : Bot) (func : Check) (call_once : bool) : Bot :=
  if call_once
  then mkBot (_checks b) (_check_once b ++ [func])%list
  else mkBot (_checks b ++ [func])%list (_check_once b).

(** [l.remove(func)] with its [ValueError] swallowed. *)
Fixpoint list_remove (func : Check) (l : list Check) : list Check :=
  match l with
  | [] => []
  | f :: l' => if decide (func = f) then l' else f :: list_remove func l'
  end.

(** [remove_check]. *)
Definition remove_check (b : Bot) (func : Check) (call_once : bool) : Bot :=
  if call_once
  then mkBot (_checks b) (list_remove func (_check_once b))
  else mkBot (list_remove func (_checks b)) (_check_once b).

(** The decorators [check] and [check_once]: the bot after the call, and
    the function handed back. *)
Definition check (b : Bot) (func : Check) : Bot * Check :=
  (add_check b func false, func).

Definition check_once (b : Bot) (func : Check) : Bot * Check :=
  (add_check b func true, func).


End WithCheck.

Arguments Bot Check : clear implicits.

End Checks.

(** ** Ownership *)

Module Owner.

(** What [application_info()] answers: the ids of the members of
    [app.team] ([None] for an application without a team) and
    [app.owner.id]. *)
Record AppInfo : Type := mkAppInfo {
  team : option (list Z);
  owner : Z;
}.

(** [owner_id] is an [int] or [None]; [owner_ids] is a collection of
    ids. *)
Record Bot : Type := mkBot {
  owner_id : option Z;
  owner_ids : list Z;
}.

(** The truth value of [self.owner_id]. *)
Definition is_set (owner_id : option Z) : bool :=
  match owner_id with
  | Some id => negb (id =? 0)%Z
  | None => false
  end.

(** The truth value of [self.owner_ids]. *)
Definition non_empty (ids : list Z) : bool :=
  match ids with
  | [] => false
  | _ :: _ => true
  end.

(** [user.id in ids]. *)
Definition mem (id : Z) (ids : list Z) : bool := existsb (Z.eqb id) ids.

(** The outcome of [is_owner]: the bot afterwards, whether
    [application_info()] was awaited, and the answer. *)
Record Answer : Type := mkAnswer {
  bot_after : Bot;
  fetched : bool;
  result : res bool;
}.

(** [is_owner]; [application_info] is the outcome of the request in case it
    is made. *)
Definition is_owner (application_info : res AppInfo) (b : Bot) (user_id : Z)
    : Answer :=
  if is_set (owner_id b) then
    mkAnswer b false
             (Ok (match owner_id b with Some id => (user_id =? id)%Z | None => false end))
  else if non_empty (owner_ids b) then
    mkAnswer b false (Ok (mem user_id (owner_ids b)))
  else
    match application_info with
    | Raise e => mkAnswer b true (Raise e)
    | Ok app =>
        match team app with
        | Some ids =>
            mkAnswer (mkBot (owner_id b) ids) true (Ok (mem user_id ids))
        | None =>
            mkAnswer (mkBot (Some (owner app)) (owner_ids b)) true
                     (Ok (user_id =? owner app)%Z)
        end
    end.

(** The owners an application names. *)
Definition names_owner (app : AppInfo) (user_id : Z) : bool :=
  match team app with
  | Some ids => mem user_id ids
  | None => (user_id =? owner app)%Z
  end.

(** The answer can be kept: a team with a member, or an owner whose id is
    not zero. *)
Definition cacheable (app : AppInfo) : bool :=
  match team app with
  | Some ids => non_empty ids
  | None => negb (owner app =? 0)%Z
  end.

End Owner.

(** ** The invocation context of an interaction *)

Module Interaction.

(** A dictionary of an interaction payload: [interaction.data] and the
    option records nested in it.  [get_interaction_context] reads the keys
    ["name"], ["type"] and ["options"]; a key that is absent is [None]. *)
Inductive Payload : Type := mkPayload {
  p_name : option string;
  p_type : option Z;
  p_options : option (list Payload);
}.

Definition KeyError : Exn := OtherError "KeyError".
Definition AttributeError : Exn := OtherError "AttributeError".

Section WithCommand.
(** [sub_commands command] is [command.all_commands] for a [GroupMixin];
    another command has no such attribute. *)
Context {Command : Type} (sub_commands : Command -> option (gmap string Command)).

(** The keyword arguments the context is built from. *)
Record Context : Type := mkContext {
  ctx_command : Command;
  ctx_prefix : string;
  ctx_invoked_with : string;
  ctx_invoked_parents : list string;
  ctx_options : list Payload;
}.

(** The local variables when the [while] loop is left. *)
Record Cursor : Type := mkCursor {
  invoked_parents : list string;
  invoked_with : string;
  command : Command;
  data : Payload;
}.

(** The [while] loop inside its [try]: a [KeyError] or an [IndexError]
    ends the loop with the assignments made so far; the [AttributeError]
    of [command.all_commands] on a command that is no group is not
    caught. *)
Fixpoint descend (data : Payload) (invoked_parents : list string)
    (invoked_with : string) (command : Command) {struct data} : res Cursor :=
  match data with
  | mkPayload name _ (Some (first :: _)) =>
      match p_type first with
      | Some type_ =>
          if (type_ =? 1)%Z || (type_ =? 2)%Z then
            let invoked_parents := (invoked_parents ++ [invoked_with])%list in
            match name with
            | None => Ok (mkCursor invoked_parents invoked_with command data)
            | Some invoked_with =>
                match sub_commands command with
                | None => Raise AttributeError
                | Some all_commands =>
                    match all_commands !! invoked_with with
                    | None => Ok (mkCursor invoked_parents invoked_with command data)
                    | Some command => descend first invoked_parents invoked_with command
                    end
                end
            end
          else Ok (mkCursor invoked_parents invoked_with command data)
      | None => Ok (mkCursor invoked_parents invoked_with command data)
      end
  | _ => Ok (mkCursor invoked_parents invoked_with command data)
  end.

(** [get_interaction_context], for the table [self.all_commands] and the
    dictionary [interaction.data]. *)
Definition get_interaction_context (all_commands : gmap string Command)
    (interaction_data : Payload) : res Context :=
  match p_name interaction_data with
  | None => Raise KeyError
  | Some invoked_with =>
      match all_commands !! invoked_with with
      | None => Raise KeyError
      | Some command =>
          match p_options interaction_data with
          | None => Ok (mkContext command "/" invoked_with [] [])
          | Some [] => Raise IndexError
          | Some (data :: _) =>
              let* cur := descend data [] invoked_with command in
              let '(mkCursor invoked_parents invoked_with command data) := cur in
              match sub_commands command with
              | Some all_commands =>
                  let invoked_parents := (invoked_parents ++ [invoked_with])%list in
                  match p_name data with
                  | None => Raise KeyError
                  | Some invoked_with =>
                      let invoked_parents := (invoked_parents ++ [invoked_with])%list in
                      match all_commands !! invoked_with with
                      | None => Raise KeyError
                      | Some command =>
                          Ok (mkContext command "/" invoked_with invoked_parents
                                        (default [] (p_options data)))
                      end
                  end
              | None =>
                  Ok (mkContext command "/" invoked_with invoked_parents
                                (default [] (p_options interaction_data)))
              end
          end
      end
  end.

(** The command reached from [command] by the names of [path]. *)
Fixpoint resolve (command : Command) (path : list string) : option Command :=
  match path with
  | [] => Some command
  | name :: path' =>
      match sub_commands command with
      | Some all_commands =>
          match all_commands !! name with
          | Some sub => resolve sub path'
          | None => None
          end
      | None => None
      end
  end.

End WithCommand.

Arguments Context Command : clear implicits.
Arguments Cursor Command : clear implicits.

(** The option record for a sub-command [last] reached through the
    sub-command groups [groups], with the argument records [args] when the
    key ["options"] is present. *)
Fixpoint nested (groups : list string) (last : string)
    (args : option (list Payload)) : Payload :=
  match groups with
  | [] => mkPayload (Some last) (Some 1%Z) args
  | group :: groups' =>
      mkPayload (Some group) (Some 2%Z) (Some [nested groups' last args])
  end.

(** An argument record: its type is none of the markers 1 and 2. *)
Definition is_argument (p : Payload) : Prop :=
  match p_type p with
  | Some type_ => type_ <> 1%Z /\ type_ <> 2%Z
  | None => True
  end.

(** The records of [args] begin with an argument, if there is any. *)
Definition starts_with_argument (args : option (list Payload)) : Prop :=
  match args with
  | Some (first :: _) => is_argument first
  | _ => True
  end.

(** The first record of [args], if there is one, has no ["options"] of its
    own. *)
Definition starts_flat (args : option (list Payload)) : Prop :=
  match args with
  | Some (first :: _) => p_options first = None
  | _ => True
  end.

(** *** An example tree

    Commands are numbered: the group [admin] (0) holds the group [roles]
    (1), which holds the command [add] (2); [ping] (3) is a command of its
    own. *)
Definition example_sub_commands (command : nat) : option (gmap string nat) :=
  match command with
  | 0 => Some {["roles" := 1]}
  | 1 => Some {["add" := 2]}
  | _ => None
  end.

Definition example_commands : gmap string nat :=
  <["admin" := 0]> {["ping" := 3]}.

(** The argument record of a member (type 6). *)
Definition member_argument : Payload := mkPayload (Some "member") (Some 6%Z) None.

End Interaction.

(** ** Processing a message or an interaction *)

Module Process.

(** An interaction: whether [argument.type] is
    [InteractionType.application_command], and [argument.data]. *)
Record Interaction : Type := mkInteraction {
  i_is_command : bool;
  i_data : Interaction.Payload;
}.

(** The argument of [process_commands]: a message, with
    [message.author.bot], or an interaction. *)
Inductive Argument : Type :=
  | OfMessage (message : Prefix.Message) (author_bot : bool)
  | OfInteraction (interaction : Interaction).

Section WithCommand.
(** The commands of the tree; [sub_commands] as in [Interaction].  The
    class [Context] is outside this file: [for_message ctx command] and
    [for_interaction ctx command] are the resolved command as [can_run] and
    [invoke] use it for the context built, and [message_type] and
    [interaction_type] are that context's [command_type]. *)
Context {Command : Type}
        (sub_commands : Command -> option (gmap string Command))
        (for_message : Prefix.Context Command -> Command -> Invoke.Command)
        (for_interaction : Interaction.Context Command -> Command -> Invoke.Command)
        (message_type : Prefix.Context Command -> CommandType)
        (interaction_type : Interaction.Context Command -> CommandType).

(** The attributes of the bot that [get_context], [get_interaction_context]
    and [invoke] read. *)
Record Bot : Type := mkBot {
  router : Prefix.Bot Command;
  checks : Invoke.Bot;
}.

Definition message_context (ctx : Prefix.Context Command) : Invoke.Context :=
  Invoke.mkContext (option_map (for_message ctx) (Prefix.ctx_command ctx))
                   (message_type ctx) (Prefix.ctx_invoked_with ctx).

Definition interaction_context (ctx : Interaction.Context Command)
    : Invoke.Context :=
  Invoke.mkContext (Some (for_interaction ctx (Interaction.ctx_command ctx)))
                   (interaction_type ctx)
                   (Some (Interaction.ctx_invoked_with ctx)).

(** [process_commands]: what [invoke] does, when it is reached. *)
Definition process_commands (bot : Bot) (argument : Argument)
    : list Invoke.Effect * res unit :=
  match argument with
  | OfMessage message author_bot =>
      if author_bot then ([], Ok tt)
      else
        match Prefix.get_context (router bot) message with
        | Raise e => ([], Raise e)
        | Ok ctx => Invoke.invoke (checks bot) (message_context ctx)
        end
  | OfInteraction interaction =>
      if negb (i_is_command interaction) then ([], Ok tt)
      else
        match Interaction.get_interaction_context
                sub_commands (Prefix.all_commands (router bot))
                (i_data interaction) with
        | Raise e => ([], Raise e)
        | Ok ctx => Invoke.invoke (checks bot) (interaction_context ctx)
        end
  end.

(** [on_message] and [on_interaction]. *)
Definition on_message (bot : Bot) (message : Prefix.Message) (author_bot : bool)
    : list Invoke.Effect * res unit :=
  process_commands bot (OfMessage message author_bot).

Definition on_interaction (bot : Bot) (interaction : Interaction)
    : list Invoke.Effect * res unit :=
  process_commands bot (OfInteraction interaction).

End WithCommand.

Arguments Bot Command : clear implicits.

(** A bot with the prefix ["!"] and the example tree, whose commands do
    nothing, and the message ["!pong"] of another user. *)
Definition example_bot : Bot nat :=
  mkBot (Prefix.mkBot (Prefix.Fixed (Prefix.PStr "!")) 1 false
                      Interaction.example_commands)
        Invoke.plain_bot.

Definition example_behaviour {Ctx : Type} (ctx : Ctx) (command : nat) : Invoke.Command :=
  Invoke.silent_command [ct_default; ct_chat_input].

Definition pong_message : Prefix.Message := Prefix.mkMessage "!pong" 2.

End Process.

(** ** Extensions: loading, unloading, reloading *)

Module Extensions.
Import Submodule.

(** *** Artifacts *)

(** A listener: the function's [__name__] and [__module__], and whether
    [asyncio.iscoroutinefunction] accepts it.  Two listeners with the same
    attributes are the same function. *)
Record Listener : Type := mkListener {
  l_name : string;
  l_module : option string;
  l_coroutine : bool;
}.

#[global] Instance Listener_eq_dec : EqDecision Listener.
Proof. solve_decision. Defined.

(** A top-level command: its name, the module that declares its callback
    ([cmd.module]) and whether it is a [GroupMixin].  The sub-commands of a
    group are held by the group object, not by the bot; aliases are not
    modelled. *)
Record Cmd : Type := mkCmd {
  c_name : string;
  c_module : option string;
  c_is_group : bool;
}.

(** A cog: [__cog_name__], the module of its class, its top-level commands
    and its listeners, each with the event it listens to. *)
Record Cog : Type := mkCog {
  cog_name : string;
  cog_module : string;
  cog_commands : list Cmd;
  cog_listeners : list (string * Listener);
}.

(** *** Entry points

    What [setup(bot)] and [teardown(bot)] do with the bot: a sequence of
    calls of the registration methods of this file, ended by the first
    call that raises. *)
Inductive Action : Type :=
  | AddCog (cog : Cog) (override : bool)
  | RemoveCog (name : string)
  | AddCommand (command : Cmd)
  | RemoveCommand (name : string)
  | AddListener (func : Listener) (name : option string)
  | RemoveListener (func : Listener) (name : option string)
  | Fail (e : Exn).

(** A module object: [__name__] and the attributes [setup] and [teardown]
    when it defines them. *)
Record PyModule : Type := mkModule {
  mod_name : string;
  mod_setup : option (list Action);
  mod_teardown : option (list Action);
}.

(** What importing does for the name a spec was found for:
    [exec_module] caches [exec_imports] in [sys.modules] (the modules its
    body imports), ends normally or raises [exec_outcome], and leaves the
    attributes [exec_setup] and [exec_teardown] on the module. *)
Record ModuleSpec : Type := mkSpec {
  exec_imports : gmap string PyModule;
  exec_outcome : option Exn;
  exec_setup : option (list Action);
  exec_teardown : option (list Action);
}.

(** [importlib.util]: [resolve_name] on a relative name ([None] when it
    raises [ImportError]) and [find_spec]. *)
Record Importer : Type := mkImporter {
  resolve_relative : string -> option string -> option string;
  find_spec : string -> res (option ModuleSpec);
}.

(** *** State *)

(** The registries of [BotBase] and [sys.modules]. [extra_events] maps an
    event name to its listeners in registration order. *)
Record Bot : Type := mkBot {
  cogs : gmap string Cog;
  all_commands : gmap string Cmd;
  extra_events : gmap string (list Listener);
  extensions : gmap string PyModule;
  sys_modules : gmap string PyModule;
}.

Definition set_cogs (b : Bot) (v : gmap string Cog) : Bot :=
  mkBot v (all_commands b) (extra_events b) (extensions b) (sys_modules b).
Definition set_all_commands (b : Bot) (v : gmap string Cmd) : Bot :=
  mkBot (cogs b) v (extra_events b) (extensions b) (sys_modules b).
Definition set_extra_events (b : Bot) (v : gmap string (list Listener)) : Bot :=
  mkBot (cogs b) (all_commands b) v (extensions b) (sys_modules b).
Definition set_extensions (b : Bot) (v : gmap string PyModule) : Bot :=
  mkBot (cogs b) (all_commands b) (extra_events b) v (sys_modules b).
Definition set_sys_modules (b : Bot) (v : gmap string PyModule) : Bot :=
  mkBot (cogs b) (all_commands b) (extra_events b) (extensions b) v.

(** [self.extra_events.get(ev, [])], the way [dispatch] reads the table. *)
Definition listeners (b : Bot) (ev : string) : list Listener :=
  default [] (extra_events b !! ev).

(** A call that may raise after changing the bot. *)
Definition Outcome : Type := Bot * option Exn.

(** *** Listeners *)

(** [add_listener]. *)
Definition add_listener (b : Bot) (func : Listener) (name : option string)
    : Outcome :=
  let name := default (l_name func) name in
  if negb (l_coroutine func) then (b, Some TypeError)
  else
    match extra_events b !! name with
    | Some event_list =>
        (set_extra_events b (<[name := (event_list ++ [func])%list]> (extra_events b)), None)
    | None =>
        (set_extra_events b (<[name := [func]]> (extra_events b)), None)
    end.

(** [list.remove(x)] with its [ValueError] swallowed: the first occurrence
    goes. *)
Fixpoint list_remove_first (x : Listener) (l : list Listener) : list Listener :=
  match l with
  | [] => []
  | y :: l' => if decide (x = y) then l' else y :: list_remove_first x l'
  end.

(** [remove_listener]. *)
Definition remove_listener (b : Bot) (func : Listener) (name : option string)
    : Bot :=
  let name := default (l_name func) name in
  match extra_events b !! name with
  | Some event_list =>
      set_extra_events b (<[name := list_remove_first func event_list]> (extra_events b))
  | None => b
  end.

(** *** Commands *)

(** Modelled from the spec: [GroupMixin.add_command] and [remove_command]
    are in [core.py], which is not among the sources.  Within one parent
    sibling names are unique: adding under a taken name fails with a
    registration error; removing an absent name does nothing. *)
Definition add_command (b : Bot) (command : Cmd) : Outcome :=
  match all_commands b !! c_name command with
  | Some _ => (b, Some (CommandRegistrationError (c_name command)))
  | None =>
      (set_all_commands b (<[c_name command := command]> (all_commands b)), None)
  end.

Definition remove_command (b : Bot) (name : string) : Bot :=
  set_all_commands b (delete name (all_commands b)).

(** *** Cogs *)

Fixpoint add_commands (b : Bot) (commands : list Cmd) : Outcome :=
  match commands with
  | [] => (b, None)
  | command :: commands' =>
      match add_command b command with
      | (b', None) => add_commands b' commands'
      | (b', Some e) => (b', Some e)
      end
  end.

Fixpoint add_listeners (b : Bot) (ls : list (string * Listener)) : Outcome :=
  match ls with
  | [] => (b, None)
  | (name, func) :: ls' =>
      match add_listener b func (Some name) with
      | (b', None) => add_listeners b' ls'
      | (b', Some e) => (b', Some e)
      end
  end.

(** Modelled from the spec: [Cog._inject] and [Cog._eject] are in [cog.py],
    which is not among the sources.  Injection merges the cog's commands
    into the command table and its listeners into the listener table;
    when a command cannot be added none of the cog's commands stays.
    Ejection is symmetric. *)
Definition _inject (b : Bot) (cog : Cog) : Outcome :=
  match add_commands b (cog_commands cog) with
  | (_, Some e) => (b, Some e)
  | (b', None) => add_listeners b' (cog_listeners cog)
  end.

Definition _eject (b : Bot) (cog : Cog) : Bot :=
  let b' := foldl (fun b command => remove_command b (c_name command))
                  b (cog_commands cog) in
  foldl (fun b '(name, func) => remove_listener b func (Some name))
        b' (cog_listeners cog).

(** [remove_cog]; the help command is not part of the state. *)
Definition remove_cog (b : Bot) (name : string) : Bot :=
  match cogs b !! name with
  | None => b
  | Some cog => _eject (set_cogs b (delete name (cogs b))) cog
  end.

(** The last two statements of [add_cog]:
    [cog = cog._inject(self); self.__cogs[cog_name] = cog]. *)
Definition inject_and_store (b : Bot) (cog : Cog) : Outcome :=
  match _inject b cog with
  | (b', None) => (set_cogs b' (<[cog_name cog := cog]> (cogs b')), None)
  | (b', Some e) => (b', Some e)
  end.

(** [add_cog]. *)
Definition add_cog (b : Bot) (cog : Cog) (override : bool) : Outcome :=
  let cog_name := cog_name cog in
  match cogs b !! cog_name with
  | Some _ =>
      if negb override
      then (b, Some (ClientException ("Cog named '" ++ cog_name ++ "' already loaded")))
      else inject_and_store (remove_cog b cog_name) cog
  | None => inject_and_store b cog
  end.

(** *** Running an entry point *)

Definition run_action (a : Action) (b : Bot) : Outcome :=
  match a with
  | AddCog cog override => add_cog b cog override
  | RemoveCog name => (remove_cog b name, None)
  | AddCommand command => add_command b command
  | RemoveCommand name => (remove_command b name, None)
  | AddListener func name => add_listener b func name
  | RemoveListener func name => (remove_listener b func name, None)
  | Fail e => (b, Some e)
  end.

Fixpoint run_script (script : list Action) (b : Bot) : Outcome :=
  match script with
  | [] => (b, None)
  | a :: script' =>
      match run_action a b with
      | (b', None) => run_script script' b'
      | (b', Some e) => (b', Some e)
      end
  end.

(** *** [_remove_module_references] *)

(** [event.__module__ is not None and _is_submodule(name, event.__module__)],
    and the same test on [cmd.module]. *)
Definition declared_under (name : string) (module : option string) : bool :=
  match module with
  | Some m => _is_submodule name m
  | None => false
  end.

(** [[index for index, event in enumerate(event_list) if ...]], counting
    from [start]. *)
Fixpoint indices_to_remove (name : string) (start : nat)
    (event_list : list Listener) : list nat :=
  match event_list with
  | [] => []
  | event :: event_list' =>
      if declared_under name (l_module event)
      then start :: indices_to_remove name (S start) event_list'
      else indices_to_remove name (S start) event_list'
  end.

(** The body of the loop over the listener lists:
    [for index in reversed(remove): del event_list[index]]. *)
Definition strip_event_list (name : string) (event_list : list Listener)
    : list Listener :=
  foldl (fun l index => delete index l) event_list
        (rev (indices_to_remove name 0 event_list)).

(** The three loops of [_remove_module_references], each over a copy of
    the table it empties; the copy of a dictionary is traversed in the
    order of [map_to_list]. *)

(** [if _is_submodule(name, cog.__module__): self.remove_cog(cogname)]. *)
Definition remove_cog_step (name : string) (b : Bot) (item : string * Cog) : Bot :=
  let (cogname, cog) := item in
  if _is_submodule name (cog_module cog) then remove_cog b cogname else b.

Definition remove_cogs_of (name : string) (b : Bot) : Bot :=
  foldl (remove_cog_step name) b (map_to_list (cogs b)).

(** [if cmd.module is not None and _is_submodule(name, cmd.module):
    ...; self.remove_command(cmd.name)].  The call
    [cmd.recursively_remove_all_commands()] for a group empties the group
    object itself and leaves the bot's table alone. *)
Definition remove_command_step (name : string) (b : Bot) (item : string * Cmd) : Bot :=
  let (_, cmd) := item in
  if declared_under name (c_module cmd) then remove_command b (c_name cmd) else b.

Definition remove_commands_of (name : string) (b : Bot) : Bot :=
  foldl (remove_command_step name) b (map_to_list (all_commands b)).

Definition remove_listeners_of (name : string) (b : Bot) : Bot :=
  set_extra_events b (strip_event_list name <$> extra_events b).

Definition _remove_module_references (b : Bot) (name : string) : Bot :=
  remove_listeners_of name (remove_commands_of name (remove_cogs_of name b)).

(** *** [_call_module_finalizers] *)

Definition _call_module_finalizers (b : Bot) (lib : PyModule) (key : string)
    : Bot :=
  let b1 :=
    match mod_teardown lib with
    | None => b
    | Some teardown => fst (run_script teardown b)   (* [except Exception: pass] *)
    end in
  let b2 := set_extensions b1 (delete key (extensions b1)) in
  let b3 := set_sys_modules b2 (delete key (sys_modules b2)) in
  let name := mod_name lib in
  foldl (fun b module =>
           if _is_submodule name module
           then set_sys_modules b (delete module (sys_modules b)) else b)
        b3 (map fst (map_to_list (sys_modules b3))).

(** *** Loading *)

(** [importlib.util.module_from_spec] followed by [exec_module]: the module
    object as its body leaves it. *)
Definition module_from_spec (spec : ModuleSpec) (key : string) : PyModule :=
  mkModule key (exec_setup spec) (exec_teardown spec).

Definition _load_from_module_spec (b : Bot) (spec : ModuleSpec) (key : string)
    : Outcome :=
  let lib := module_from_spec spec key in
  let b := set_sys_modules b (<[key := lib]> (sys_modules b)) in
  (* [exec_module]: the imports of the body are cached unless they
     already are *)
  let b := set_sys_modules b (sys_modules b ∪ exec_imports spec) in
  match exec_outcome spec with
  | Some e =>
      (set_sys_modules b (delete key (sys_modules b)), Some (ExtensionFailed key e))
  | None =>
      match mod_setup lib with
      | None =>
          (set_sys_modules b (delete key (sys_modules b)), Some (NoEntryPointError key))
      | Some setup =>
          match run_script setup b with
          | (b, Some e) =>
              let b := set_sys_modules b (delete key (sys_modules b)) in
              let b := _remove_module_references b (mod_name lib) in
              let b := _call_module_finalizers b lib key in
              (b, Some (ExtensionFailed key e))
          | (b, None) =>
              (set_extensions b (<[key := lib]> (extensions b)), None)
          end
      end
  end.

(** [importlib.util.resolve_name]: a name that does not start with a dot
    is returned as it is. *)
Definition starts_with_dot (name : string) : bool :=
  match name with
  | String "." _ => true
  | _ => false
  end.

Definition _resolve_name (imp : Importer) (name : string) (package : option string)
    : res string :=
  if starts_with_dot name then
    match resolve_relative imp name package with
    | Some resolved => Ok resolved
    | None => Raise (ExtensionNotFound name)
    end
  else Ok name.

Definition load_extension (imp : Importer) (b : Bot) (name : string)
    (package : option string) : Outcome :=
  match _resolve_name imp name package with
  | Raise e => (b, Some e)
  | Ok name =>
      match extensions b !! name with
      | Some _ => (b, Some (ExtensionAlreadyLoaded name))
      | None =>
          match find_spec imp name with
          | Raise e => (b, Some e)
          | Ok None => (b, Some (ExtensionNotFound name))
          | Ok (Some spec) => _load_from_module_spec b spec name
          end
      end
  end.

Definition unload_extension (imp : Importer) (b : Bot) (name : string)
    (package : option string) : Outcome :=
  match _resolve_name imp name package with
  | Raise e => (b, Some e)
  | Ok name =>
      match extensions b !! name with
      | None => (b, Some (ExtensionNotLoaded name))
      | Some lib =>
          let b := _remove_module_references b (mod_name lib) in
          (_call_module_finalizers b lib name, None)
      end
  end.

Definition reload_extension (imp : Importer) (b : Bot) (name : string)
    (package : option string) : Outcome :=
  match _resolve_name imp name package with
  | Raise e => (b, Some e)
  | Ok name =>
      match extensions b !! name with
      | None => (b, Some (ExtensionNotLoaded name))
      | Some lib =>
          (* get the previous module states from sys modules *)
          let modules :=
            filter (fun '(module_name, _) => _is_submodule (mod_name lib) module_name)
                   (sys_modules b) in
          (* Unload and then load the module... *)
          let b := _remove_module_references b (mod_name lib) in
          let b := _call_module_finalizers b lib name in
          match load_extension imp b name None with
          | (b, None) => (b, None)
          | (b, Some e) =>
              (* [lib.setup(self)]: an exception of the old [setup] leaves
                 the handler at once *)
              match mod_setup lib with
              | None => (b, Some (OtherError "AttributeError"))
              | Some setup =>
                  match run_script setup b with
                  | (b, Some e') => (b, Some e')
                  | (b, None) =>
                      let b := set_extensions b (<[name := lib]> (extensions b)) in
                      (* revert sys.modules back to normal and raise back to caller *)
                      let b := set_sys_modules b (modules ∪ sys_modules b) in
                      (b, Some e)
                  end
              end
          end
      end
  end.

(** *** Cog lookup, dispatch and shutdown *)

(** [get_cog]. *)
Definition get_cog (b : Bot) (name : string) : option Cog := cogs b !! name.

(** [dispatch], after the call of [Client.dispatch]: the listeners handed
    to [_schedule_event], in order, each with the name [ev] it is scheduled
    under. *)
Definition dispatch (b : Bot) (event_name : string) : list (Listener * string) :=
  let ev := "on_" ++ event_name in
  map (fun event => (event, ev)) (listeners b ev).

(** [close], up to the call of [Client.close]: every extension of
    [tuple(self.__extensions)] is unloaded and every cog of
    [tuple(self.__cogs)] removed, exceptions being swallowed. *)
Definition close (imp : Importer) (b : Bot) : Bot :=
  let b := foldl (fun b extension => fst (unload_extension imp b extension None))
                 b (map fst (map_to_list (extensions b))) in
  foldl (fun b cog => remove_cog b cog) b (map fst (map_to_list (cogs b))).

(** *** Observations *)

(** No cog, no top-level command and no listener of the bot is declared in
    [name] or one of its sub-modules. *)
Definition no_artifacts_of (name : string) (b : Bot) : Prop :=
  (forall n cog, cogs b !! n = Some cog -> _is_submodule name (cog_module cog) = false)
  /\ (forall n cmd, all_commands b !! n = Some cmd ->
       declared_under name (c_module cmd) = false)
  /\ (forall ev func, In func (listeners b ev) ->
       declared_under name (l_module func) = false).

(** Every command is filed under its own name. *)
Definition commands_by_name (b : Bot) : Prop :=
  forall n cmd, all_commands b !! n = Some cmd -> c_name cmd = n.

(** The cached modules named [name] or below. *)
Definition cached_under (name : string) (b : Bot) : gmap string PyModule :=
  filter (fun '(module_name, _) => _is_submodule name module_name) (sys_modules b).

(** The two states cannot be told apart through the extension registry,
    the cog set, the command table, the listeners of any event and the
    cached modules of [name] and its sub-modules. *)
Definition same_state (name : string) (b b' : Bot) : Prop :=
  extensions b = extensions b'
  /\ cogs b = cogs b'
  /\ all_commands b = all_commands b'
  /\ (forall ev, listeners b ev = listeners b' ev)
  /\ cached_under name b = cached_under name b'.

(** The two states have the same cogs, the same top-level commands and,
    for every event, the same listeners in the same order. *)
Definition similar (b b' : Bot) : Prop :=
  cogs b = cogs b'
  /\ all_commands b = all_commands b'
  /\ (forall ev, listeners b ev = listeners b' ev).

(** [l'] is [l] without some of its elements, each of which satisfies
    [owned]. *)
Inductive thinned (owned : Listener -> Prop)
    : list Listener -> list Listener -> Prop :=
  | thinned_nil : thinned owned [] []
  | thinned_keep x l l' :
      thinned owned l l' -> thinned owned (x :: l) (x :: l')
  | thinned_drop x l l' :
      owned x -> thinned owned l l' -> thinned owned (x :: l) l'.

(** A cog of [b] declared in [name] or below has a command named [k], or
    has the listener [f] for the event [ev]. *)
Definition owns_command (name : string) (b : Bot) (k : string) : Prop :=
  exists n cog, cogs b !! n = Some cog
                /\ _is_submodule name (cog_module cog) = true
                /\ In k (map c_name (cog_commands cog)).

Definition owns_listener (name : string) (b : Bot) (ev : string) (f : Listener)
    : Prop :=
  exists n cog, cogs b !! n = Some cog
                /\ _is_submodule name (cog_module cog) = true
                /\ In (ev, f) (cog_listeners cog).

(** *** Provisos on entry points *)

(** The cog, its commands and its listeners are all declared in [name] or
    below. *)
Definition cog_declared_under (name : string) (cog : Cog) : bool :=
  _is_submodule name (cog_module cog)
  && forallb (fun c => declared_under name (c_module c)) (cog_commands cog)
  && forallb (fun '(_, f) => declared_under name (l_module f)) (cog_listeners cog).

(** Nothing of the cog is declared in [name] or below. *)
Definition cog_foreign_to (name : string) (cog : Cog) : bool :=
  negb (_is_submodule name (cog_module cog))
  && forallb (fun c => negb (declared_under name (c_module c))) (cog_commands cog)
  && forallb (fun '(_, f) => negb (declared_under name (l_module f))) (cog_listeners cog).

(** The entry point only registers, without overriding, artifacts declared
    in [name] or below (and may raise). *)
Definition own_action (name : string) (a : Action) : bool :=
  match a with
  | AddCog cog override => negb override && cog_declared_under name cog
  | AddCommand command => declared_under name (c_module command)
  | AddListener func _ => declared_under name (l_module func)
  | Fail _ => true
  | RemoveCog _ | RemoveCommand _ | RemoveListener _ _ => false
  end.

Definition own_registrations (name : string) (script : list Action) : bool :=
  forallb (own_action name) script.

(** The entry point registers nothing declared in [name] or below. *)
Definition foreign_action (name : string) (a : Action) : bool :=
  match a with
  | AddCog cog _ => cog_foreign_to name cog
  | AddCommand command => negb (declared_under name (c_module command))
  | AddListener func _ => negb (declared_under name (l_module func))
  | RemoveCog _ | RemoveCommand _ | RemoveListener _ _ | Fail _ => true
  end.

Definition registers_nothing_of (name : string) (entry : option (list Action))
    : bool :=
  match entry with
  | None => true
  | Some script => forallb (foreign_action name) script
  end.

(** The entry point, when there is one, leaves cogs, commands and
    listeners as they are. *)
Definition inert (entry : option (list Action)) : Prop :=
  match entry with
  | None => True
  | Some script => forall b, similar (fst (run_script script b)) b
  end.

(** [b'] is [b] with, in addition, artifacts declared in [name] or below:
    cogs under names free in [b] whose commands have names free in [b],
    commands under names free in [b], and listeners after those of [b]. *)
Definition extends_with_own (name : string) (b b' : Bot) : Prop :=
  (forall n, cogs b' !! n = cogs b !! n
             \/ (cogs b !! n = None
                 /\ exists cog, cogs b' !! n = Some cog
                                /\ cog_declared_under name cog = true
                                /\ forall c, In c (cog_commands cog) ->
                                             all_commands b !! c_name c = None))
  /\ (forall k, all_commands b' !! k = all_commands b !! k
                \/ (all_commands b !! k = None
                    /\ exists c, all_commands b' !! k = Some c
                                 /\ declared_under name (c_module c) = true
                                 /\ c_name c = k))
  /\ (forall ev, exists extra,
         listeners b' ev = (listeners b ev ++ extra)%list
         /\ Forall (fun f => declared_under name (l_module f) = true) extra).

(** What the amended reload atomicity asks of the module found when the
    extension [key] is imported again from the state [b]: its [setup] only
    registers artifacts of its own, its [teardown] is inert, and when its
    body raises or defines no [setup], the sub-modules it imported were
    already cached in [b]. *)
Definition reimport_is_clean (imp : Importer) (key : string) (b : Bot) : Prop :=
  match find_spec imp key with
  | Ok (Some spec) =>
      own_registrations key (default [] (exec_setup spec)) = true
      /\ inert (exec_teardown spec)
      /\ (exec_outcome spec <> None \/ exec_setup spec = None ->
          forall k, _is_submodule key k = true ->
                    exec_imports spec !! k = None \/ is_Some (sys_modules b !! k))
  | _ => True
  end.

(** *** Example extensions *)

Definition empty_bot : Bot := mkBot ∅ ∅ ∅ ∅ ∅.

Definition boom : Exn := OtherError "RuntimeError".

(** A listener of the extension [ext] and one of another module. *)
Definition ext_listener : Listener := mkListener "on_message" (Some "ext") true.
Definition other_listener : Listener := mkListener "log_message" (Some "other") true.

(** [ext] as first imported: [setup] registers [ext_listener]. *)
Definition ext_v1 : ModuleSpec :=
  mkSpec ∅ None (Some [AddListener ext_listener None]) None.
(** [ext] after an edit: [setup] raises. *)
Definition ext_v2 : ModuleSpec :=
  mkSpec ∅ None (Some [Fail boom]) None.

Definition importer (spec : ModuleSpec) : Importer :=
  mkImporter (fun _ _ => None)
             (fun name => if String.eqb name "ext" then Ok (Some spec) else Ok None).

(** [ext] is loaded, then another module adds a listener for the same
    event. *)
Definition ext_loaded : Bot :=
  fst (load_extension (importer ext_v1) empty_bot "ext" None).
Definition ext_then_other : Bot :=
  fst (add_listener ext_loaded other_listener (Some "on_message")).

(** An extension whose [setup] registers a listener and raises, and whose
    [teardown] registers another listener. *)
Definition late_listener : Listener := mkListener "on_ready" (Some "ext") true.
Definition ext_teardown_registers : ModuleSpec :=
  mkSpec ∅ None (Some [AddListener ext_listener None; Fail boom])
         (Some [AddListener late_listener None]).

(** An extension whose [setup] registers a cog, a command and a listener
    and raises. *)
Definition ext_cog : Cog :=
  mkCog "Tools" "ext.cogs" [mkCmd "ping" (Some "ext.cogs") false]
        [("on_message", mkListener "watch" (Some "ext.cogs") true)].
Definition ext_partial : ModuleSpec :=
  mkSpec ∅ None
         (Some [AddCog ext_cog false; AddCommand (mkCmd "pong" (Some "ext") false);
                AddListener ext_listener None; Fail boom])
         None.

(** A bot with artifacts of the modules [foo] and [foobar]. *)
Definition foobar_cog : Cog := mkCog "Bar" "foobar" [] [].
Definition foo_command : Cmd := mkCmd "foo" (Some "foo") false.
Definition foobar_command : Cmd := mkCmd "bar" (Some "foobar") false.
Definition foo_listener : Listener := mkListener "on_message" (Some "foo") true.
Definition foobar_listener : Listener := mkListener "on_message" (Some "foobar") true.
Definition foo_module : PyModule := mkModule "foo" (Some []) None.
Definition foobar_module : PyModule := mkModule "foobar" (Some []) None.

Definition foobar_bot : Bot :=
  mkBot {["Bar" := foobar_cog]}
        (<["foo" := foo_command]> {["bar" := foobar_command]})
        {["on_message" := [foo_listener; foobar_listener]]}
        (<["foo" := foo_module]> {["foobar" := foobar_module]})
        (<["foo" := foo_module]> (<["foo.sub" := foo_module]> {["foobar" := foobar_module]})).

End Extensions.

(** * Results *)

(** ** Lists *)

Section ListFacts.
Context {A : Type}.

Lemma forallb_ext_in (f g : A -> bool) (l : list A) :
  (forall x, In x l -> f x = g x) -> forallb f l = forallb g l.
Proof.
  induction l as [|x l IH]; intros H; [reflexivity|]; cbn.
  rewrite (H x) by (left; reflexivity).
  rewrite IH; [reflexivity|]. intros y Hy. apply H. right. exact Hy.
Qed.

Lemma existsb_ext_in (f g : A -> bool) (l : list A) :
  (forall x, In x l -> f x = g x) -> existsb f l = existsb g l.
Proof.
  induction l as [|x l IH]; intros H; [reflexivity|]; cbn.
  rewrite (H x) by (left; reflexivity).
  rewrite IH; [reflexivity|]. intros y Hy. apply H. right. exact Hy.
Qed.

End ListFacts.

(** ** The schema converter and differ *)

Module SchemaFacts.
Import Schema.

Section Facts.
Context {py : PyBuiltins}.

Lemma check_nested_eq (i : Opt) (current : list Opt) :
  check_nested i current = _check_options current (get_options i).
Proof.
  destruct i as [t n d r c [options|] p]; cbn [check_nested]; [reflexivity|].
  unfold _check_options, check_options_body, get_options; cbn.
  destruct current; reflexivity.
Qed.

(** The recursion of the source, as an equation. *)
Lemma _check_options_unfold (current new : list Opt) :
  _check_options current new =
  check_options_body (fun i cur => _check_options cur (get_options i)) current new.
Proof.
  unfold _check_options at 1, check_options_body.
  destruct (_ || _); [reflexivity|].
  destruct (is_empty new && is_empty current); [reflexivity|].
  destruct (existsb _ new).
  - apply forallb_ext_in. intros i _. apply check_nested_eq.
  - f_equal; apply forallb_ext_in; intros x _; apply existsb_ext_in; intros y _;
      rewrite check_nested_eq; reflexivity.
Qed.

(** *** Conversion of literal and union annotations *)

(** C9. A parameter annotated [Literal["a", "b", "c"]] converts to wire
    type 3 with exactly the three choices a/a, b/b, c/c, and the option
    that [_convert_options] emits for it carries that type and that choice
    list (with ["required": True] exactly when it has no default). *)
Theorem literal_abc_schema :
  _convert_param abc = Ok (WithChoices 3 abc_choices)
  /\ forall has_default group,
       _convert_options (pick_command has_default) group =
       Ok [mkOpt (Some 3%Z) (Some "pick") (Some no_description)
                 (if has_default then None else Some true)
                 (Some abc_choices) None None].
Proof.
  split; [reflexivity|].
  intros [|] group; reflexivity.
Qed.

Lemma no_literal_among_classes (members : list PyType) :
  existsb is_literal (map AClass members) = false.
Proof. induction members; [reflexivity|exact IHmembers]. Qed.

Lemma class_member_types (members : list PyType) :
  map convert_object
      (List.filter (fun i => negb (is_none_type i)) (map AClass members))
  = member_wire_types members.
Proof.
  unfold member_wire_types.
  induction members as [|t members IH]; [reflexivity|]; cbn.
  destruct t; cbn; rewrite ?IH; reflexivity.
Qed.

Lemma forallb_Forall {A : Type} (f : A -> bool) (P : A -> Prop) (l : list A) :
  (forall x, f x = true <-> P x) -> forallb f l = true <-> Forall P l.
Proof.
  intros H. rewrite forallb_forall, List.Forall_forall.
  split; intros G x Hx; apply H, G, Hx.
Qed.

Lemma mem_Z_In (x : Z) (s : list Z) : mem_Z x s = true <-> In x s.
Proof.
  unfold mem_Z. rewrite existsb_exists. split.
  - intros (y & Hy & E). apply Z.eqb_eq in E. subst. exact Hy.
  - intros H. exists x. split; [exact H|apply Z.eqb_refl].
Qed.

Lemma merge_types_spec (ts : list Z) :
  ts <> [] -> exists w, merge_types ts = Ok w /\ spec_union_type ts w.
Proof.
  destruct ts as [|t0 ts]; [congruence|]; intros _.
  unfold merge_types.
  set (l := t0 :: ts).
  assert (Hsame : forall t, forallb (fun i => (i =? t)%Z) l = true <-> all_same l t).
  { intros t. apply forallb_Forall. intros x. apply Z.eqb_eq. }
  assert (Hin : forall s, forallb (fun i => mem_Z i s) l = true <-> all_among l s).
  { intros s. apply forallb_Forall. intros x. apply mem_Z_In. }
  destruct (forallb (fun i => (i =? t0)%Z) l) eqn:E0.
  { exists t0. split; [reflexivity|]. apply union_same, Hsame, E0. }
  assert (Hno : forall t, ~ all_same l t).
  { intros t Ht. assert (t0 = t) by (inversion Ht; assumption). subst t.
    apply Hsame in Ht. congruence. }
  destruct (forallb (fun i => mem_Z i [6; 7; 8]%Z) l) eqn:E1.
  { exists 9%Z. split; [reflexivity|]. apply union_mentionable; [exact Hno|].
    apply Hin, E1. }
  assert (Hn1 : ~ all_among l [6; 7; 8]%Z).
  { intros H. apply Hin in H. congruence. }
  destruct (forallb (fun i => mem_Z i [4; 10]%Z) l) eqn:E2.
  { exists 10%Z. split; [reflexivity|]. apply union_numeric; auto.
    apply Hin, E2. }
  exists 3%Z. split; [reflexivity|]. apply union_string; auto.
  intros H. apply Hin in H. congruence.
Qed.

(** On the wire types of an actual union, which has a member other than
    [None], the rule of the specification names one type. *)
Lemma spec_union_type_unique (ts : list Z) (w w' : Z) :
  ts <> [] -> spec_union_type ts w -> spec_union_type ts w' -> w = w'.
Proof.
  intros Hne H H'.
  assert (Hsame : forall t t', all_same ts t -> all_same ts t' -> t = t').
  { destruct ts as [|x ts]; [congruence|]. intros t t' Ht Ht'.
    inversion Ht; inversion Ht'; congruence. }
  destruct H as [t Ht|Hno Hm|Hno Hm Hn|Hno Hm Hn];
    destruct H' as [t' Ht'|Hno' Hm'|Hno' Hm' Hn'|Hno' Hm' Hn'];
    try reflexivity; try (exfalso; eauto; fail).
  - apply Hsame; assumption.
  - exfalso. apply (Hno' t Ht).
  - exfalso. apply (Hno' t Ht).
  - exfalso. apply (Hno' t Ht).
  - exfalso. apply (Hno t' Ht').
  - exfalso. apply (Hno t' Ht').
  - exfalso. apply (Hno t' Ht').
Qed.

Example union_user_role :
  _convert_param (AUnion [AClass TUser; AClass TRole]) = Ok (Plain 9).
Proof. reflexivity. Qed.

Example union_member_user_none :
  _convert_param (AUnion [AClass TMember; AClass TUser; AClass TNone]) = Ok (Plain 6).
Proof. reflexivity. Qed.

Example union_int_float :
  _convert_param (AUnion [AClass TInt; AClass TFloat]) = Ok (Plain 10).
Proof. reflexivity. Qed.

Example union_int_str :
  _convert_param (AUnion [AClass TInt; AClass TStr]) = Ok (Plain 3).
Proof. reflexivity. Qed.

(** C8. For a parameter annotated as a union of classes with at least one
    member other than [None], [_convert_param] returns the wire type that
    the merging rule of the specification assigns to the members' wire
    types. *)
Theorem union_merges_member_types (members : list PyType) :
  (exists t, In t members /\ t <> TNone) ->
  exists w,
    _convert_param (AUnion (map AClass members)) = Ok (Plain w)
    /\ spec_union_type (member_wire_types members) w.
Proof.
  intros (t & Hin & Hne).
  assert (Hnonempty : member_wire_types members <> []).
  { unfold member_wire_types. intros E. apply map_eq_nil in E.
    assert (Hf : In t (List.filter (fun t => negb (is_none_class t)) members)).
    { apply filter_In. split; [exact Hin|]. destruct t; try reflexivity. congruence. }
    rewrite E in Hf. destruct Hf. }
  destruct (merge_types_spec _ Hnonempty) as (w & Hw & Hspec).
  exists w. split; [|exact Hspec].
  unfold _convert_param.
  rewrite no_literal_among_classes, andb_false_r, class_member_types, Hw.
  reflexivity.
Qed.

(** *** Symmetry of the comparison *)

Lemma get_eqb_sym {A : Type} (eqb : A -> A -> bool) :
  (forall x y, eqb x y = eqb y x) ->
  forall a b, get_eqb eqb a b = get_eqb eqb b a.
Proof. intros H [x|] [y|]; cbn; auto. Qed.

Lemma value_eqb_sym :
  (forall x y : float, float_eqb x y = float_eqb y x) ->
  forall a b, value_eqb a b = value_eqb b a.
Proof.
  intros H [x|x|x] [y|y|y]; cbn; auto using String.eqb_sym, Z.eqb_sym.
Qed.

Lemma same_choice_sym :
  (forall x y : float, float_eqb x y = float_eqb y x) ->
  forall i j, same_choice i j = same_choice j i.
Proof.
  intros H i j. unfold same_choice.
  rewrite (get_eqb_sym String.eqb String.eqb_sym (choice_name i)).
  rewrite (get_eqb_sym value_eqb (value_eqb_sym H) (choice_value i)).
  reflexivity.
Qed.

Lemma _check_choices_sym :
  (forall x y : float, float_eqb x y = float_eqb y x) ->
  forall current new, _check_choices current new = _check_choices new current.
Proof.
  intros H current new. unfold _check_choices.
  rewrite (orb_comm (negb (is_empty current) && is_empty new)).
  rewrite (andb_comm (is_empty new) (is_empty current)).
  destruct (_ || _); [reflexivity|].
  destruct (is_empty current && is_empty new); [reflexivity|].
  rewrite andb_comm. f_equal; apply forallb_ext_in; intros x _;
    apply existsb_ext_in; intros y _; apply same_choice_sym, H.
Qed.

Lemma check_nested_flat (i : Opt) :
  get_options i = [] -> check_nested i [] = true.
Proof. intros H. rewrite check_nested_eq, H. reflexivity. Qed.

Lemma no_nested_existsb (l : list Opt) :
  no_nested l -> existsb (fun i => negb (is_empty (get_options i))) l = false.
Proof.
  induction 1 as [|o l Ho _ IH]; [reflexivity|]; cbn.
  rewrite Ho, IH. reflexivity.
Qed.

(** X1. On option lists none of whose options has nested options, the
    comparison goes through its last, two-way branch and is symmetric
    (given that [==] on floats is). *)
Theorem check_options_flat_symmetric (A B : list Opt) :
  (forall x y : float, float_eqb x y = float_eqb y x) ->
  no_nested A -> no_nested B ->
  _check_options A B = _check_options B A.
Proof.
  intros Hf HA HB. unfold _check_options, check_options_body.
  rewrite (orb_comm (negb (is_empty A) && is_empty B)).
  rewrite (andb_comm (is_empty B) (is_empty A)).
  destruct (_ || _); [reflexivity|].
  destruct (is_empty A && is_empty B); [reflexivity|].
  rewrite (no_nested_existsb A HA), (no_nested_existsb B HB).
  unfold no_nested in HA, HB. rewrite List.Forall_forall in HA, HB.
  rewrite andb_comm.
  f_equal; apply forallb_ext_in; intros x Hx;
    apply existsb_ext_in; intros y Hy.
  - rewrite (HA y Hy), (HB x Hx), !check_nested_flat by auto.
    rewrite (get_eqb_sym String.eqb String.eqb_sym (o_name y)).
    rewrite (get_eqb_sym String.eqb String.eqb_sym (o_description y)).
    rewrite (_check_choices_sym Hf (get_choices x)).
    destruct (get_default_permissions y), (get_default_permissions x); reflexivity.
  - rewrite (HA x Hx), (HB y Hy), !check_nested_flat by auto.
    rewrite (get_eqb_sym String.eqb String.eqb_sym (o_name y)).
    rewrite (get_eqb_sym String.eqb String.eqb_sym (o_description y)).
    rewrite (_check_choices_sym Hf (get_choices x)).
    destruct (get_default_permissions y), (get_default_permissions x); reflexivity.
Qed.

End Facts.

Lemma union_merges_member_types_witness :
  exists w,
    _convert_param (py:=integral_floats) (AUnion (map AClass [TUser; TRole; TNone]))
      = Ok (Plain w)
    /\ spec_union_type (member_wire_types [TUser; TRole; TNone]) w.
Proof.
  apply (union_merges_member_types (py:=integral_floats) [TUser; TRole; TNone]).
  exists TUser. split; [left; reflexivity|discriminate].
Defined.

(** C5. The comparison is not symmetric: with nested options only the
    options of [new] are looked up in [current], so a group that [current]
    has and [new] lacks goes unnoticed in one direction. *)
Lemma check_options_not_symmetric :
  _check_options (py:=integral_floats) tree_A tree_B = false
  /\ _check_options (py:=integral_floats) tree_B tree_A = true.
Proof. split; reflexivity. Qed.

Lemma check_options_flat_symmetric_witness :
  _check_options (py:=integral_floats) [leaf_opt "x"] [leaf_opt "y"; leaf_opt "x"]
  = _check_options (py:=integral_floats) [leaf_opt "y"; leaf_opt "x"] [leaf_opt "x"].
Proof.
  apply (check_options_flat_symmetric (py:=integral_floats)).
  - intros x y. apply Z.eqb_sym.
  - repeat constructor.
  - repeat constructor.
Defined.

End SchemaFacts.

(** ** Prefix resolution *)

Module PrefixFacts.
Import Prefix.

Lemma skip_string_start (content s : string) :
  skip_string (new_view content) s =
  if String.prefix s content
  then (true, mkView content (String.length s))
  else (false, new_view content).
Proof.
  unfold skip_string, new_view, slice; cbn [buffer index].
  rewrite Nat.add_0_l, Nat.sub_0_r.
  destruct (String.prefix s content) eqn:E.
  - apply prefix_correct in E. rewrite E, String.eqb_refl. reflexivity.
  - destruct (String.eqb_spec (substring 0 (String.length s) content) s) as [H|H];
      [|reflexivity].
    apply prefix_correct in H. congruence.
Qed.

Section WithCommand.
Context {Command : Type}.

Lemma startswith_any_first (content p : string) (before after : list string) :
  String.prefix p content = true ->
  startswith_any content (map EStr (before ++ p :: after)) = Ok true.
Proof.
  intros Hp. induction before as [|q before IH]; cbn.
  - rewrite Hp. reflexivity.
  - destruct (String.prefix q content); [reflexivity|exact IH].
Qed.

Lemma find_skip_string_first (content p : string) (before after : list string) :
  Forall (fun q => String.prefix q content = false) before ->
  String.prefix p content = true ->
  find_skip_string (new_view content) (map EStr (before ++ p :: after))
  = Ok (Some p, mkView content (String.length p)).
Proof.
  intros Hb Hp. induction Hb as [|q before Hq _ IH]; cbn [app map find_skip_string].
  - rewrite skip_string_start, Hp. reflexivity.
  - rewrite skip_string_start, Hq. exact IH.
Qed.

(** C6. When [get_prefix] yields several strings and the content starts
    with one of them, the prefix recorded on the context is the first
    entry, in the order of the list, that the content starts with. *)
Theorem first_matching_prefix_wins
    (bot : Bot Command) (message : Message)
    (before after : list string) (p : string) :
  author_id message <> user_id bot ->
  get_prefix bot message = Ok (Many (map EStr (before ++ p :: after))) ->
  Forall (fun q => String.prefix q (content message) = false) before ->
  String.prefix p (content message) = true ->
  exists ctx, get_context bot message = Ok ctx /\ ctx_prefix ctx = Some p.
Proof.
  intros Hauthor Hprefix Hbefore Hp.
  unfold get_context.
  destruct (Z.eqb_spec (author_id message) (user_id bot)) as [E|_]; [contradiction|].
  rewrite Hprefix; cbn [bind].
  rewrite (startswith_any_first _ _ _ _ Hp); cbn [bind].
  rewrite (find_skip_string_first _ _ _ _ Hbefore Hp); cbn [bind fst snd].
  destruct (get_word _) as [invoker view].
  eexists. split; reflexivity.
Qed.

(** C7. A prefix source that resolves to an empty collection makes
    [get_prefix] raise [ValueError]; one that resolves to a string is
    returned as it is. *)
Theorem get_prefix_empty_or_str (bot : Bot Command) (message : Message) :
  (resolved_source bot message = Ok (PIterable (Ok [])) ->
   get_prefix bot message = Raise ValueError)
  /\ (forall s, resolved_source bot message = Ok (PStr s) ->
      get_prefix bot message = Ok (OneStr s)).
Proof.
  unfold get_prefix. split.
  - intros ->. reflexivity.
  - intros s ->. reflexivity.
Qed.

End WithCommand.

(** Prefixes ["!"], ["!!"] and the message ["!!ping"]: the prefix is ["!"]. *)
Lemma first_matching_prefix_wins_witness :
  exists ctx, get_context shadow_bot shadow_message = Ok ctx
              /\ ctx_prefix ctx = Some "!".
Proof.
  apply (first_matching_prefix_wins shadow_bot shadow_message [] ["!!"] "!").
  - discriminate.
  - reflexivity.
  - constructor.
  - reflexivity.
Defined.

Lemma get_prefix_empty_or_str_witness :
  get_prefix (mkBot (Command:=nat) (Callable (fun _ => Ok (PIterable (Ok []))))
                    1 false ∅) shadow_message
    = Raise ValueError
  /\ get_prefix (mkBot (Command:=nat) (Fixed (PStr EmptyString)) 1 false ∅) shadow_message
     = Ok (OneStr EmptyString).
Proof.
  split.
  - apply (proj1 (get_prefix_empty_or_str _ shadow_message)). reflexivity.
  - apply (proj2 (get_prefix_empty_or_str _ shadow_message)). reflexivity.
Defined.

End PrefixFacts.

(** ** Invocation *)

Module InvokeFacts.
Import Invoke.
#[local] Open Scope list_scope.

Lemma command_events_app (l1 l2 : list Effect) :
  command_events (l1 ++ l2) = command_events l1 + command_events l2.
Proof. unfold command_events. rewrite List.filter_app, length_app. reflexivity. Qed.

Lemma invoke_resolved (bot : Bot) (ctx : Context) (command : Command) :
  ctx_command ctx = Some command ->
  invoke bot ctx =
  let (actions, outcome) := invoke_try bot ctx command in
  match outcome with
  | Raise exc =>
      if is_command_error exc then
        (actions ++ [Dispatch "command"; ErrorRouted exc],
         cmd_dispatch_error command exc)
      else match exc with
           | TypeError => (actions, Ok tt)
           | _ => (actions, Raise exc)
           end
  | Ok _ => (actions ++ [Dispatch "command_completion"], Ok tt)
  end.
Proof. intros H. unfold invoke. rewrite H. reflexivity. Qed.

(** C3, as stated, fails: a resolved command that is not of the context's
    command type gets no ["command"] event, and failing call-once checks
    get two. *)
Lemma command_event_not_exactly_once :
  command_events
    (fst (invoke plain_bot (text_context (silent_command [ct_chat_input])))) = 0
  /\ command_events
       (fst (invoke refusing_bot (text_context (silent_command [ct_default])))) = 2.
Proof. split; reflexivity. Qed.

(** C3, amended. For a resolved command: when [can_run] returns, the
    ["command"] event is the first action of [invoke], ahead of the
    command's invocation, of error routing and of completion, and it is
    dispatched exactly once if the checks passed and the command's pipeline
    raised no domain error; when [can_run] raises a domain error the event
    is dispatched exactly once, ahead of error routing; when [can_run]
    raises anything else (the [TypeError] of a command of the wrong type, an
    unexpected fault) the event is not dispatched. *)
Theorem command_event_dispatch (bot : Bot) (ctx : Context) (command : Command) :
  ctx_command ctx = Some command ->
  match can_run bot ctx true with
  | Ok passed =>
      (exists others, fst (invoke bot ctx) = Dispatch "command" :: others)
      /\ (passed = true -> raises_command_error (cmd_invoke command) = false ->
          command_events (fst (invoke bot ctx)) = 1)
  | Raise exc =>
      fst (invoke bot ctx) =
      if is_command_error exc then [Dispatch "command"; ErrorRouted exc] else []
  end.
Proof.
  intros Hcmd. rewrite (invoke_resolved _ _ _ Hcmd). unfold invoke_try.
  destruct (can_run bot ctx true) as [[|]|exc].
  - split.
    + destruct (cmd_invoke command) as [[]|e]; [eexists; reflexivity|].
      destruct (is_command_error e); [eexists; reflexivity|].
      destruct e; eexists; reflexivity.
    + intros _ Hno. destruct (cmd_invoke command) as [[]|e]; [reflexivity|].
      cbn in Hno. rewrite Hno. destruct e; reflexivity.
  - split; [eexists; reflexivity|discriminate].
  - destruct (is_command_error exc) eqn:E; [reflexivity|].
    destruct exc; reflexivity.
Qed.

Lemma command_event_dispatch_witness :
  (exists others,
     fst (invoke plain_bot (text_context (silent_command [ct_default])))
     = Dispatch "command" :: others)
  /\ (true = true -> raises_command_error (cmd_invoke (silent_command [ct_default])) = false ->
      command_events
        (fst (invoke plain_bot (text_context (silent_command [ct_default])))) = 1).
Proof.
  exact (command_event_dispatch plain_bot
           (text_context (silent_command [ct_default]))
           (silent_command [ct_default]) eq_refl).
Defined.

(** C4, as stated, fails: a [TypeError] raised by a call-once check is not
    a domain error, and [invoke] returns normally without any routing. *)
Lemma type_error_is_swallowed :
  is_command_error TypeError = false
  /\ can_run faulty_bot (text_context (silent_command [ct_default])) true
     = Raise TypeError
  /\ invoke faulty_bot (text_context (silent_command [ct_default])) = ([], Ok tt).
Proof. repeat split; reflexivity. Qed.

(** The [except TypeError: pass] clause: a [TypeError] of [can_run] or of
    the command's invocation ends [invoke] normally, with neither error
    routing nor completion. *)
Lemma type_errors_end_normally (bot : Bot) (ctx : Context) (command : Command) :
  ctx_command ctx = Some command ->
  (can_run bot ctx true = Raise TypeError -> invoke bot ctx = ([], Ok tt))
  /\ (can_run bot ctx true = Ok true -> cmd_invoke command = Raise TypeError ->
      invoke bot ctx = ([Dispatch "command"; Invoked], Ok tt)).
Proof.
  intros Hcmd. rewrite (invoke_resolved _ _ _ Hcmd). unfold invoke_try. split.
  - intros ->. reflexivity.
  - intros -> ->. reflexivity.
Qed.

Lemma async_all_raises (before after : list Check) (f : Check)
    (ctx : Context) (e : Exn) :
  Forall (fun g => g ctx = Ok true) before ->
  f ctx = Raise e ->
  async_all (before ++ f :: after) ctx = Raise e.
Proof.
  intros Hb Hf. induction Hb as [|g before Hg _ IH]; cbn.
  - rewrite Hf. reflexivity.
  - rewrite Hg; cbn. rewrite IH. reflexivity.
Qed.

(** C4, amended. A fault that is neither a domain error nor a [TypeError]
    leaves [invoke] as it was raised, whether [can_run] raised it (in
    particular when a call-once check raised it after the checks before it
    passed) or the command's invocation did; nothing is routed to the error
    path. *)
Theorem unexpected_faults_propagate
    (bot : Bot) (ctx : Context) (command : Command) (e : Exn) :
  ctx_command ctx = Some command ->
  is_command_error e = false ->
  e <> TypeError ->
  (can_run bot ctx true = Raise e -> invoke bot ctx = ([], Raise e))
  /\ (can_run bot ctx true = Ok true -> cmd_invoke command = Raise e ->
      invoke bot ctx = ([Dispatch "command"; Invoked], Raise e))
  /\ (forall before f after,
        existsb (CommandType_eqb (ctx_command_type ctx)) (cmd_type command) = true ->
        _check_once bot = before ++ f :: after ->
        Forall (fun g => g ctx = Ok true) before ->
        f ctx = Raise e ->
        invoke bot ctx = ([], Raise e)).
Proof.
  intros Hcmd Hdom Hte.
  assert (Hcan : can_run bot ctx true = Raise e -> invoke bot ctx = ([], Raise e)).
  { intros H. rewrite (invoke_resolved _ _ _ Hcmd). unfold invoke_try.
    rewrite H, Hdom. destruct e; try reflexivity. congruence. }
  split; [exact Hcan|]. split.
  - intros Hrun Hinv. rewrite (invoke_resolved _ _ _ Hcmd). unfold invoke_try.
    rewrite Hrun, Hinv, Hdom. destruct e; try reflexivity. congruence.
  - intros before f after Htype Hchecks Hbefore Hf. apply Hcan.
    unfold can_run. rewrite Hcmd, Htype, Hchecks; cbn [negb].
    destruct (length (before ++ f :: after) =? 0)%nat eqn:El.
    + apply Nat.eqb_eq in El. rewrite length_app in El. cbn in El. lia.
    + apply async_all_raises; assumption.
Qed.

Lemma unexpected_faults_propagate_witness :
  invoke crashing_bot (text_context (silent_command [ct_default]))
  = ([], Raise (OtherError "RuntimeError")).
Proof.
  refine (proj2 (proj2 (unexpected_faults_propagate crashing_bot
            (text_context (silent_command [ct_default]))
            (silent_command [ct_default]) (OtherError "RuntimeError")
            eq_refl eq_refl _)) [] _ [] eq_refl eq_refl _ eq_refl).
  - discriminate.
  - constructor.
Defined.

End InvokeFacts.

(** ** Extensions *)

Module ExtensionFacts.
Import Submodule Extensions.
#[local] Open Scope list_scope.

(** *** The sub-module test *)

Lemma prefix_true_iff (p s : string) :
  String.prefix p s = true <-> exists rest, s = (p ++ rest)%string.
Proof.
  revert s. induction p as [|a p IH]; intros s; cbn.
  - split; [intros _; exists s; reflexivity|intros _; destruct s; reflexivity].
  - destruct s as [|b s]; cbn.
    + split; [discriminate|intros [rest H]].
      change (EmptyString = String a (p ++ rest)%string) in H. discriminate.
    + destruct (ascii_dec a b) as [->|Hne].
      * rewrite IH. split; intros [rest H]; exists rest.
        -- rewrite H. reflexivity.
        -- change (String b s = String b (p ++ rest)%string) in H. congruence.
      * split; [discriminate|]. intros [rest H].
        change (String b s = String a (p ++ rest)%string) in H. congruence.
Qed.

Lemma string_app_assoc (a b c : string) :
  ((a ++ b) ++ c = a ++ (b ++ c))%string.
Proof.
  induction a as [|x a IH]; [reflexivity|].
  change (String x ((a ++ b) ++ c)%string = String x (a ++ (b ++ c))%string).
  rewrite IH. reflexivity.
Qed.

Lemma _is_submodule_iff (parent child : string) :
  _is_submodule parent child = true <->
  child = parent \/ exists rest, child = (parent ++ "." ++ rest)%string.
Proof.
  unfold _is_submodule. rewrite orb_true_iff, String.eqb_eq, prefix_true_iff.
  split.
  - intros [H|[rest H]]; [left; congruence|right; exists rest].
    rewrite string_app_assoc in H. exact H.
  - intros [H|[rest H]]; [left; congruence|right; exists rest].
    rewrite string_app_assoc. exact H.
Qed.


(** *** Listener lists *)

Lemma thinned_refl (owned : Listener -> Prop) (l : list Listener) :
  thinned owned l l.
Proof. induction l; constructor; assumption. Qed.

Lemma thinned_trans (owned : Listener -> Prop) (l1 l2 l3 : list Listener) :
  thinned owned l1 l2 -> thinned owned l2 l3 -> thinned owned l1 l3.
Proof.
  intros H12. revert l3. induction H12 as [|x l l' _ IH|x l l' Hx _ IH]; intros l3 H23.
  - exact H23.
  - inversion H23; subst.
    + apply thinned_keep, IH. assumption.
    + apply thinned_drop; [assumption|]. apply IH. assumption.
  - apply thinned_drop; [assumption|]. apply IH, H23.
Qed.

Lemma thinned_mono (owned owned' : Listener -> Prop) (l l' : list Listener) :
  (forall x, owned x -> owned' x) -> thinned owned l l' -> thinned owned' l l'.
Proof. intros H. induction 1; constructor; auto. Qed.

Lemma thinned_In (owned : Listener -> Prop) (l l' : list Listener) (x : Listener) :
  thinned owned l l' -> In x l' -> In x l.
Proof.
  induction 1 as [|y l l' _ IH|y l l' _ _ IH]; cbn; intros Hx; auto.
  destruct Hx; auto.
Qed.

Lemma thinned_kept (owned : Listener -> Prop) (l l' : list Listener) (x : Listener) :
  thinned owned l l' -> In x l -> ~ owned x -> In x l'.
Proof.
  induction 1 as [|y l l' _ IH|y l l' Hy _ IH]; cbn; intros Hx Hn; auto.
  - destruct Hx; auto.
  - destruct Hx as [->|Hx]; [contradiction|auto].
Qed.

Lemma thinned_filter (owned : Listener -> Prop) (keep : Listener -> bool)
    (l l' : list Listener) :
  (forall x, owned x -> keep x = false) ->
  thinned owned l l' -> List.filter keep l' = List.filter keep l.
Proof.
  intros Hk. induction 1 as [|y l l' _ IH|y l l' Hy _ IH]; cbn.
  - reflexivity.
  - rewrite IH. reflexivity.
  - rewrite (Hk y Hy). exact IH.
Qed.

Lemma thinned_remove_first (x : Listener) (l : list Listener) :
  thinned (fun y => y = x) l (list_remove_first x l).
Proof.
  induction l as [|y l IH]; cbn; [constructor|].
  destruct (decide (x = y)) as [->|Hne].
  - apply thinned_drop; [reflexivity|apply thinned_refl].
  - apply thinned_keep, IH.
Qed.

(** Deleting the collected indices from the back is filtering. *)
Lemma indices_to_remove_app (name : string) (start : nat) (l : list Listener)
    (x : Listener) :
  indices_to_remove name start (l ++ [x]) =
  indices_to_remove name start l
  ++ (if declared_under name (l_module x) then [start + length l] else []).
Proof.
  revert start. induction l as [|y l IH]; intros start; cbn.
  - rewrite Nat.add_0_r. destruct (declared_under name (l_module x)); reflexivity.
  - rewrite IH, Nat.add_succ_r. cbn.
    destruct (declared_under name (l_module y)); reflexivity.
Qed.

Lemma strip_event_list_filter (name : string) (event_list : list Listener) :
  strip_event_list name event_list =
  List.filter (fun event => negb (declared_under name (l_module event))) event_list.
Proof.
  unfold strip_event_list.
  enough (H : forall tail,
             foldl (fun l index => delete index l) (event_list ++ tail)
                   (rev (indices_to_remove name 0 event_list))
             = List.filter (fun event => negb (declared_under name (l_module event)))
                           event_list ++ tail).
  { specialize (H []). rewrite !app_nil_r in H. exact H. }
  induction event_list as [|x l IH] using rev_ind; intros tail; [reflexivity|].
  rewrite indices_to_remove_app, rev_app_distr, List.filter_app; cbn.
  destruct (declared_under name (l_module x)); cbn.
  - rewrite <- app_assoc. cbn.
    replace (delete (length l) (l ++ x :: tail)) with (l ++ tail).
    + rewrite IH, app_nil_r. reflexivity.
    + clear. induction l; cbn; [reflexivity|]. f_equal. assumption.
  - rewrite <- !app_assoc. cbn. apply IH.
Qed.

(** *** The registration methods, field by field *)

Lemma listeners_insert (b : Bot) (name ev : string) (l : list Listener) :
  listeners (set_extra_events b (<[name := l]> (extra_events b))) ev =
  if decide (name = ev) then l else listeners b ev.
Proof.
  unfold listeners; cbn. rewrite lookup_insert.
  destruct (decide (name = ev)); reflexivity.
Qed.

Lemma add_listener_snd (b : Bot) (func : Listener) (name : option string) :
  snd (add_listener b func name) =
  if l_coroutine func then None else Some TypeError.
Proof.
  unfold add_listener. destruct (l_coroutine func); cbn; [|reflexivity].
  destruct (extra_events b !! _); reflexivity.
Qed.

Lemma add_listener_listeners (b : Bot) (func : Listener) (name : option string)
    (ev : string) :
  listeners (fst (add_listener b func name)) ev =
  if l_coroutine func && bool_decide (default (l_name func) name = ev)
  then listeners b ev ++ [func] else listeners b ev.
Proof.
  unfold add_listener. destruct (l_coroutine func); cbn [negb andb fst]; [|reflexivity].
  destruct (extra_events b !! default (l_name func) name) as [l|] eqn:E;
    cbn [fst]; rewrite listeners_insert;
    destruct (decide (default (l_name func) name = ev)) as [<-|Hne];
    try rewrite bool_decide_eq_true_2 by reflexivity;
    try rewrite bool_decide_eq_false_2 by assumption;
    try reflexivity; unfold listeners; rewrite E; reflexivity.
Qed.

Lemma add_listener_frame (b : Bot) (func : Listener) (name : option string) :
  let b' := fst (add_listener b func name) in
  cogs b' = cogs b /\ all_commands b' = all_commands b
  /\ extensions b' = extensions b /\ sys_modules b' = sys_modules b.
Proof.
  unfold add_listener. destruct (negb _); [repeat split|].
  destruct (extra_events b !! _); repeat split.
Qed.

Lemma remove_listener_listeners (b : Bot) (func : Listener) (name : option string)
    (ev : string) :
  listeners (remove_listener b func name) ev =
  if decide (default (l_name func) name = ev)
  then list_remove_first func (listeners b ev) else listeners b ev.
Proof.
  unfold remove_listener.
  destruct (extra_events b !! default (l_name func) name) as [l|] eqn:E.
  - rewrite listeners_insert.
    destruct (decide (default (l_name func) name = ev)) as [<-|Hne]; [|reflexivity].
    unfold listeners. rewrite E. reflexivity.
  - destruct (decide (default (l_name func) name = ev)) as [<-|Hne]; [|reflexivity].
    unfold listeners. rewrite E. reflexivity.
Qed.

Lemma remove_listener_frame (b : Bot) (func : Listener) (name : option string) :
  let b' := remove_listener b func name in
  cogs b' = cogs b /\ all_commands b' = all_commands b
  /\ extensions b' = extensions b /\ sys_modules b' = sys_modules b.
Proof.
  unfold remove_listener. destruct (extra_events b !! _); repeat split.
Qed.

Lemma add_command_frame (b : Bot) (command : Cmd) :
  let b' := fst (add_command b command) in
  cogs b' = cogs b /\ extra_events b' = extra_events b
  /\ extensions b' = extensions b /\ sys_modules b' = sys_modules b.
Proof.
  unfold add_command. destruct (all_commands b !! _); repeat split.
Qed.

Lemma add_commands_frame (commands : list Cmd) (b : Bot) :
  let b' := fst (add_commands b commands) in
  cogs b' = cogs b /\ extra_events b' = extra_events b
  /\ extensions b' = extensions b /\ sys_modules b' = sys_modules b.
Proof.
  revert b. induction commands as [|c commands IH]; intros b; cbn; [repeat split|].
  pose proof (add_command_frame b c) as Hc.
  destruct (add_command b c) as [b1 [e|]]; cbn in *; [exact Hc|].
  specialize (IH b1). cbn in IH.
  destruct Hc as (H1 & H2 & H3 & H4). rewrite <- H1, <- H2, <- H3, <- H4. exact IH.
Qed.

Lemma add_listeners_frame (ls : list (string * Listener)) (b : Bot) :
  let b' := fst (add_listeners b ls) in
  cogs b' = cogs b /\ all_commands b' = all_commands b
  /\ extensions b' = extensions b /\ sys_modules b' = sys_modules b.
Proof.
  revert b. induction ls as [|[name func] ls IH]; intros b; cbn; [repeat split|].
  pose proof (add_listener_frame b func (Some name)) as Hc.
  destruct (add_listener b func (Some name)) as [b1 [e|]]; cbn in *; [exact Hc|].
  specialize (IH b1). cbn in IH.
  destruct Hc as (H1 & H2 & H3 & H4). rewrite <- H1, <- H2, <- H3, <- H4. exact IH.
Qed.

(** The commands of a state after [remove_command] was folded over the
    commands of a cog. *)
Lemma eject_commands_frame (commands : list Cmd) (b : Bot) :
  let b' := foldl (fun b command => remove_command b (c_name command)) b commands in
  cogs b' = cogs b /\ extra_events b' = extra_events b
  /\ extensions b' = extensions b /\ sys_modules b' = sys_modules b.
Proof.
  revert b. induction commands as [|c commands IH]; intros b; cbn; [repeat split|].
  apply (IH (remove_command b (c_name c))).
Qed.

Lemma eject_commands_removed (commands : list Cmd) (b : Bot) (k : string) :
  In k (map c_name commands) ->
  all_commands (foldl (fun b command => remove_command b (c_name command)) b commands)
    !! k = None.
Proof.
  revert b. induction commands as [|c commands IH]; intros b; cbn [foldl map].
  - intros [].
  - intros [E|H]; [|apply IH, H].
    clear IH. subst k.
    assert (G : all_commands (remove_command b (c_name c)) !! c_name c = None)
      by apply lookup_delete_eq.
    revert G. generalize (remove_command b (c_name c)). clear b.
    induction commands as [|c' commands IH]; intros b G; [exact G|].
    cbn [foldl]. apply IH. cbn. rewrite lookup_delete.
    destruct (decide _); [reflexivity|exact G].
Qed.

Lemma eject_commands_kept (commands : list Cmd) (b : Bot) (k : string) :
  ~ In k (map c_name commands) ->
  all_commands (foldl (fun b command => remove_command b (c_name command)) b commands)
    !! k = all_commands b !! k.
Proof.
  revert b. induction commands as [|c commands IH]; intros b; cbn [foldl map];
    [reflexivity|].
  intros H. rewrite IH by (intros G; apply H; right; exact G).
  cbn. apply lookup_delete_ne. intros E. apply H. left. exact E.
Qed.

Lemma eject_commands_sub (commands : list Cmd) (b : Bot) (k : string) (c : Cmd) :
  all_commands (foldl (fun b command => remove_command b (c_name command)) b commands)
    !! k = Some c ->
  all_commands b !! k = Some c.
Proof.
  revert b. induction commands as [|c' commands IH]; intros b; cbn [foldl];
    [auto|].
  intros H. apply IH in H. cbn in H. rewrite lookup_delete in H.
  destruct (decide _); [discriminate|exact H].
Qed.

Lemma eject_listeners_frame (ls : list (string * Listener)) (b : Bot) :
  let b' := foldl (fun b '(name, func) => remove_listener b func (Some name)) b ls in
  cogs b' = cogs b /\ all_commands b' = all_commands b
  /\ extensions b' = extensions b /\ sys_modules b' = sys_modules b.
Proof.
  revert b. induction ls as [|[name func] ls IH]; intros b; cbn; [repeat split|].
  destruct (remove_listener_frame b func (Some name)) as (<- & <- & <- & <-).
  apply IH.
Qed.

Lemma eject_listeners_thinned (ls : list (string * Listener)) (b : Bot) (ev : string) :
  thinned (fun f => In (ev, f) ls) (listeners b ev)
    (listeners (foldl (fun b '(name, func) => remove_listener b func (Some name)) b ls) ev).
Proof.
  revert b. induction ls as [|[name func] ls IH]; intros b; cbn [foldl].
  - apply thinned_refl.
  - eapply thinned_trans.
    2:{ eapply thinned_mono; [|apply IH]. intros x Hx. right. exact Hx. }
    rewrite remove_listener_listeners.
    change (default (l_name func) (Some name)) with name.
    destruct (decide (name = ev)) as [->|Hne]; [|apply thinned_refl].
    eapply thinned_mono; [|apply thinned_remove_first].
    intros x ->. left. reflexivity.
Qed.

(** *** [remove_cog] *)

Lemma remove_cog_cogs (b : Bot) (n : string) :
  cogs (remove_cog b n) = delete n (cogs b).
Proof.
  unfold remove_cog, _eject. destruct (cogs b !! n) as [cog|] eqn:E.
  - destruct (eject_listeners_frame (cog_listeners cog)
                (foldl (fun b command => remove_command b (c_name command))
                       (set_cogs b (delete n (cogs b))) (cog_commands cog)))
      as (-> & _).
    destruct (eject_commands_frame (cog_commands cog)
                (set_cogs b (delete n (cogs b)))) as (-> & _).
    reflexivity.
  - symmetry. apply delete_id. exact E.
Qed.

Lemma remove_cog_modules (b : Bot) (n : string) :
  extensions (remove_cog b n) = extensions b
  /\ sys_modules (remove_cog b n) = sys_modules b.
Proof.
  unfold remove_cog, _eject. destruct (cogs b !! n) as [cog|]; [|split; reflexivity].
  destruct (eject_listeners_frame (cog_listeners cog)
              (foldl (fun b command => remove_command b (c_name command))
                     (set_cogs b (delete n (cogs b))) (cog_commands cog)))
    as (_ & _ & -> & ->).
  destruct (eject_commands_frame (cog_commands cog)
              (set_cogs b (delete n (cogs b)))) as (_ & _ & -> & ->).
  split; reflexivity.
Qed.

Lemma remove_cog_commands_sub (b : Bot) (n k : string) (c : Cmd) :
  all_commands (remove_cog b n) !! k = Some c -> all_commands b !! k = Some c.
Proof.
  unfold remove_cog, _eject. destruct (cogs b !! n) as [cog|]; [|auto].
  destruct (eject_listeners_frame (cog_listeners cog)
              (foldl (fun b command => remove_command b (c_name command))
                     (set_cogs b (delete n (cogs b))) (cog_commands cog)))
    as (_ & -> & _).
  intros H. apply eject_commands_sub in H. exact H.
Qed.

Lemma remove_cog_commands_kept (b : Bot) (n k : string) :
  (forall cog, cogs b !! n = Some cog -> ~ In k (map c_name (cog_commands cog))) ->
  all_commands (remove_cog b n) !! k = all_commands b !! k.
Proof.
  unfold remove_cog, _eject. destruct (cogs b !! n) as [cog|]; [|auto].
  intros H.
  destruct (eject_listeners_frame (cog_listeners cog)
              (foldl (fun b command => remove_command b (c_name command))
                     (set_cogs b (delete n (cogs b))) (cog_commands cog)))
    as (_ & -> & _).
  rewrite eject_commands_kept by (apply H; reflexivity). reflexivity.
Qed.

Lemma remove_cog_thinned (b : Bot) (n ev : string) :
  thinned (fun f => exists cog, cogs b !! n = Some cog /\ In (ev, f) (cog_listeners cog))
          (listeners b ev) (listeners (remove_cog b n) ev).
Proof.
  unfold remove_cog, _eject. destruct (cogs b !! n) as [cog|]; [|apply thinned_refl].
  eapply thinned_mono; [|eapply thinned_trans; [|apply eject_listeners_thinned]].
  - intros f Hf. exists cog. split; [reflexivity|exact Hf].
  - unfold listeners.
    destruct (eject_commands_frame (cog_commands cog)
                (set_cogs b (delete n (cogs b)))) as (_ & -> & _).
    apply thinned_refl.
Qed.

(** *** The three loops of [_remove_module_references] *)

Lemma remove_cogs_loop (name : string) (b0 : Bot) (items : list (string * Cog))
    (b : Bot) :
  (forall n cog, cogs b !! n = Some cog -> cogs b0 !! n = Some cog) ->
  (forall n cog, In (n, cog) items -> cogs b0 !! n = Some cog) ->
  let b' := foldl (remove_cog_step name) b items in
  (forall n cog, cogs b' !! n = Some cog -> cogs b !! n = Some cog)
  /\ (forall n cog, In (n, cog) items -> _is_submodule name (cog_module cog) = true ->
      cogs b' !! n = None)
  /\ (forall n, (forall cog, In (n, cog) items ->
                 _is_submodule name (cog_module cog) = false) ->
      cogs b' !! n = cogs b !! n)
  /\ (forall k c, all_commands b' !! k = Some c -> all_commands b !! k = Some c)
  /\ (forall k, ~ owns_command name b0 k -> all_commands b' !! k = all_commands b !! k)
  /\ (forall ev, thinned (owns_listener name b0 ev) (listeners b ev) (listeners b' ev))
  /\ extensions b' = extensions b /\ sys_modules b' = sys_modules b.
Proof.
  revert b. induction items as [|[n0 cog0] items IH]; intros b Hsub Hitems; cbn zeta.
  { cbn. repeat split; auto; try (intros ev; apply thinned_refl).
    intros n cog []. }
  cbn [foldl]. set (b1 := remove_cog_step name b (n0, cog0)).
  assert (Hcog0 : cogs b0 !! n0 = Some cog0) by (apply Hitems; left; reflexivity).
  assert (Hsub1 : forall n cog, cogs b1 !! n = Some cog -> cogs b !! n = Some cog).
  { intros n cog. unfold b1, remove_cog_step.
    destruct (_is_submodule name (cog_module cog0)); [|auto].
    rewrite remove_cog_cogs, lookup_delete. destruct (decide _); [discriminate|auto]. }
  destruct (IH b1) as (I1 & I2 & I3 & I4 & I5 & I6 & I7 & I8).
  { intros n cog H. apply Hsub, Hsub1, H. }
  { intros n cog H. apply Hitems. right. exact H. }
  assert (Hnone : forall n, cogs b1 !! n = None -> 
                  cogs (foldl (remove_cog_step name) b1 items) !! n = None).
  { intros n H. destruct (cogs (foldl _ b1 items) !! n) as [cog|] eqn:E; [|reflexivity].
    apply I1 in E. congruence. }
  repeat split.
  - intros n cog H. apply Hsub1, I1, H.
  - intros n cog [E|Hin] Hattr.
    + injection E as -> ->. apply Hnone. unfold b1, remove_cog_step.
      rewrite Hattr, remove_cog_cogs. apply lookup_delete_eq.
    + apply (I2 n cog Hin Hattr).
  - intros n Hn. rewrite I3 by (intros cog H; apply (Hn cog); right; exact H).
    unfold b1, remove_cog_step.
    destruct (_is_submodule name (cog_module cog0)) eqn:Hattr; [|reflexivity].
    rewrite remove_cog_cogs. apply lookup_delete_ne. intros ->.
    specialize (Hn cog0 (or_introl eq_refl)). congruence.
  - intros k c H. apply I4 in H. unfold b1, remove_cog_step in H.
    destruct (_is_submodule name (cog_module cog0)); [|exact H].
    apply remove_cog_commands_sub in H. exact H.
  - intros k Hk. rewrite (I5 k Hk). unfold b1, remove_cog_step.
    destruct (_is_submodule name (cog_module cog0)) eqn:Hattr; [|reflexivity].
    apply remove_cog_commands_kept. intros cog Hc Hin. apply Hk.
    exists n0, cog. apply Hsub in Hc. split; [exact Hc|].
    assert (cog = cog0) by congruence. subst cog. split; assumption.
  - intros ev. eapply thinned_trans; [|apply I6].
    unfold b1, remove_cog_step.
    destruct (_is_submodule name (cog_module cog0)) eqn:Hattr; [|apply thinned_refl].
    eapply thinned_mono; [|apply remove_cog_thinned].
    intros f (cog & Hc & Hin). exists n0, cog. apply Hsub in Hc.
    assert (cog = cog0) by congruence. subst cog. repeat split; assumption.
  - rewrite I7. unfold b1, remove_cog_step.
    destruct (_is_submodule name (cog_module cog0)); [|reflexivity].
    apply remove_cog_modules.
  - rewrite I8. unfold b1, remove_cog_step.
    destruct (_is_submodule name (cog_module cog0)); [|reflexivity].
    apply remove_cog_modules.
Qed.

Lemma In_map_to_list {A : Type} (m : gmap string A) (k : string) (x : A) :
  In (k, x) (map_to_list m) <-> m !! k = Some x.
Proof. rewrite <- list_elem_of_In. apply elem_of_map_to_list. Qed.

Lemma remove_commands_frame (name : string) (items : list (string * Cmd)) (b : Bot) :
  let b' := foldl (remove_command_step name) b items in
  (forall k c, all_commands b' !! k = Some c -> all_commands b !! k = Some c)
  /\ cogs b' = cogs b /\ extra_events b' = extra_events b
  /\ extensions b' = extensions b /\ sys_modules b' = sys_modules b.
Proof.
  revert b. induction items as [|[k0 c0] items IH]; intros b; cbn zeta.
  { cbn. repeat split; auto. }
  cbn [foldl]. set (b1 := remove_command_step name b (k0, c0)).
  destruct (IH b1) as (I1 & I4 & I5 & I6 & I7).
  assert (Hframe : cogs b1 = cogs b /\ extra_events b1 = extra_events b
                   /\ extensions b1 = extensions b /\ sys_modules b1 = sys_modules b).
  { unfold b1, remove_command_step.
    destruct (declared_under name (c_module c0)); repeat split. }
  destruct Hframe as (F1 & F2 & F3 & F4).
  repeat split; try congruence.
  intros k c H. apply I1 in H. unfold b1, remove_command_step in H.
  destruct (declared_under name (c_module c0)); [|exact H].
  cbn in H. rewrite lookup_delete in H. destruct (decide _); [discriminate|exact H].
Qed.

Lemma remove_commands_loop (name : string) (items : list (string * Cmd)) (b : Bot) :
  (forall k c, In (k, c) items -> c_name c = k) ->
  let b' := foldl (remove_command_step name) b items in
  (forall k c, all_commands b' !! k = Some c -> all_commands b !! k = Some c)
  /\ (forall k c, In (k, c) items -> declared_under name (c_module c) = true ->
      all_commands b' !! k = None)
  /\ (forall k, (forall c, In (k, c) items -> declared_under name (c_module c) = false) ->
      all_commands b' !! k = all_commands b !! k)
  /\ cogs b' = cogs b /\ extra_events b' = extra_events b
  /\ extensions b' = extensions b /\ sys_modules b' = sys_modules b.
Proof.
  revert b. induction items as [|[k0 c0] items IH]; intros b Hwf; cbn zeta.
  { cbn. repeat split; auto. intros k c []. }
  cbn [foldl]. set (b1 := remove_command_step name b (k0, c0)).
  assert (Hk0 : c_name c0 = k0) by (apply Hwf; left; reflexivity).
  destruct (IH b1) as (I1 & I2 & I3 & I4 & I5 & I6 & I7).
  { intros k c H. apply Hwf. right. exact H. }
  assert (Hsub1 : forall k c, all_commands b1 !! k = Some c -> all_commands b !! k = Some c).
  { intros k c. unfold b1, remove_command_step.
    destruct (declared_under name (c_module c0)); [|auto].
    cbn. rewrite lookup_delete. destruct (decide _); [discriminate|auto]. }
  assert (Hframe : cogs b1 = cogs b /\ extra_events b1 = extra_events b
                   /\ extensions b1 = extensions b /\ sys_modules b1 = sys_modules b).
  { unfold b1, remove_command_step.
    destruct (declared_under name (c_module c0)); repeat split. }
  destruct Hframe as (F1 & F2 & F3 & F4).
  repeat split; try congruence.
  - intros k c H. apply Hsub1, I1, H.
  - intros k c [E|Hin] Hd.
    + injection E as -> ->.
      destruct (all_commands (foldl _ b1 items) !! k) as [c'|] eqn:E; [|reflexivity].
      apply I1 in E. unfold b1, remove_command_step in E. rewrite Hd in E.
      cbn in E. rewrite Hk0, lookup_delete_eq in E. discriminate.
    + apply (I2 k c Hin Hd).
  - intros k Hk. rewrite I3 by (intros c H; apply (Hk c); right; exact H).
    unfold b1, remove_command_step.
    destruct (declared_under name (c_module c0)) eqn:Hd; [|reflexivity].
    cbn. apply lookup_delete_ne. rewrite Hk0. intros ->.
    specialize (Hk c0 (or_introl eq_refl)). congruence.
Qed.

Lemma remove_cogs_of_spec (name : string) (b : Bot) :
  let b' := remove_cogs_of name b in
  (forall n cog, cogs b' !! n = Some cog <->
                 cogs b !! n = Some cog /\ _is_submodule name (cog_module cog) = false)
  /\ (forall k c, all_commands b' !! k = Some c -> all_commands b !! k = Some c)
  /\ (forall k, ~ owns_command name b k -> all_commands b' !! k = all_commands b !! k)
  /\ (forall ev, thinned (owns_listener name b ev) (listeners b ev) (listeners b' ev))
  /\ extensions b' = extensions b /\ sys_modules b' = sys_modules b.
Proof.
  unfold remove_cogs_of.
  destruct (remove_cogs_loop name b (map_to_list (cogs b)) b)
    as (I1 & I2 & I3 & I4 & I5 & I6 & I7 & I8).
  { auto. }
  { intros n cog H. apply In_map_to_list, H. }
  cbn zeta. split; [|repeat split; auto].
  intros n cog. split.
  - intros H. split; [apply I1, H|].
    destruct (_is_submodule name (cog_module cog)) eqn:E; [|reflexivity].
    rewrite (I2 n cog) in H; [discriminate| |exact E].
    apply In_map_to_list, I1, H.
  - intros [H E]. rewrite I3; [exact H|].
    intros cog' Hin. apply In_map_to_list in Hin. congruence.
Qed.

Lemma remove_commands_of_spec (name : string) (b : Bot) :
  commands_by_name b ->
  let b' := remove_commands_of name b in
  (forall k c, all_commands b' !! k = Some c <->
               all_commands b !! k = Some c /\ declared_under name (c_module c) = false)
  /\ cogs b' = cogs b /\ extra_events b' = extra_events b
  /\ extensions b' = extensions b /\ sys_modules b' = sys_modules b.
Proof.
  intros Hwf. unfold remove_commands_of.
  destruct (remove_commands_loop name (map_to_list (all_commands b)) b)
    as (I1 & I2 & I3 & I4).
  { intros k c H. apply Hwf, In_map_to_list, H. }
  cbn zeta. split; [|exact I4].
  intros k c. split.
  - intros H. split; [apply I1, H|].
    destruct (declared_under name (c_module c)) eqn:E; [|reflexivity].
    rewrite (I2 k c) in H; [discriminate| |exact E].
    apply In_map_to_list, I1, H.
  - intros [H E]. rewrite I3; [exact H|].
    intros c' Hin. apply In_map_to_list in Hin. congruence.
Qed.

Lemma remove_listeners_of_listeners (name : string) (b : Bot) (ev : string) :
  listeners (remove_listeners_of name b) ev =
  List.filter (fun f => negb (declared_under name (l_module f))) (listeners b ev).
Proof.
  unfold remove_listeners_of, listeners; cbn. rewrite lookup_fmap.
  destruct (extra_events b !! ev); cbn; [apply strip_event_list_filter|reflexivity].
Qed.

(** *** [_remove_module_references] *)

Lemma strip_cogs (name : string) (b : Bot) (n : string) (cog : Cog) :
  cogs (_remove_module_references b name) !! n = Some cog <->
  cogs b !! n = Some cog /\ _is_submodule name (cog_module cog) = false.
Proof.
  unfold _remove_module_references.
  destruct (remove_cogs_of_spec name b) as (C1 & _).
  destruct (remove_commands_frame name
              (map_to_list (all_commands (remove_cogs_of name b)))
              (remove_cogs_of name b)) as (_ & E & _).
  cbn. unfold remove_commands_of. rewrite E. apply C1.
Qed.

Lemma strip_modules (name : string) (b : Bot) :
  extensions (_remove_module_references b name) = extensions b
  /\ sys_modules (_remove_module_references b name) = sys_modules b.
Proof.
  unfold _remove_module_references.
  destruct (remove_cogs_of_spec name b) as (_ & _ & _ & _ & E1 & E2).
  destruct (remove_commands_frame name
              (map_to_list (all_commands (remove_cogs_of name b)))
              (remove_cogs_of name b)) as (_ & _ & _ & F1 & F2).
  cbn. unfold remove_commands_of. rewrite F1, F2. split; assumption.
Qed.

Lemma strip_commands_sub (name : string) (b : Bot) (k : string) (c : Cmd) :
  all_commands (_remove_module_references b name) !! k = Some c ->
  all_commands b !! k = Some c.
Proof.
  unfold _remove_module_references.
  destruct (remove_cogs_of_spec name b) as (_ & C2 & _).
  destruct (remove_commands_frame name
              (map_to_list (all_commands (remove_cogs_of name b)))
              (remove_cogs_of name b)) as (S & _).
  cbn. intros H. apply C2, S, H.
Qed.

Lemma remove_cogs_of_by_name (name : string) (b : Bot) :
  commands_by_name b -> commands_by_name (remove_cogs_of name b).
Proof.
  intros Hwf k c H. apply Hwf.
  destruct (remove_cogs_of_spec name b) as (_ & C2 & _). apply C2, H.
Qed.

Lemma strip_commands_foreign (name : string) (b : Bot) (k : string) (c : Cmd) :
  commands_by_name b ->
  all_commands (_remove_module_references b name) !! k = Some c ->
  declared_under name (c_module c) = false.
Proof.
  intros Hwf. unfold _remove_module_references. cbn.
  destruct (remove_commands_of_spec name (remove_cogs_of name b)
              (remove_cogs_of_by_name name b Hwf)) as (C & _).
  intros H. apply C in H. apply H.
Qed.

Lemma strip_commands_kept (name : string) (b : Bot) (k : string) (c : Cmd) :
  commands_by_name b ->
  all_commands b !! k = Some c ->
  declared_under name (c_module c) = false ->
  ~ owns_command name b k ->
  all_commands (_remove_module_references b name) !! k = Some c.
Proof.
  intros Hwf Hc Hd Hown. unfold _remove_module_references. cbn.
  destruct (remove_commands_of_spec name (remove_cogs_of name b)
              (remove_cogs_of_by_name name b Hwf)) as (C & _).
  apply C. split; [|exact Hd].
  destruct (remove_cogs_of_spec name b) as (_ & _ & C3 & _).
  rewrite (C3 k Hown). exact Hc.
Qed.

Lemma strip_listeners (name : string) (b : Bot) (ev : string) :
  exists l,
    thinned (owns_listener name b ev) (listeners b ev) l
    /\ listeners (_remove_module_references b name) ev =
       List.filter (fun f => negb (declared_under name (l_module f))) l.
Proof.
  unfold _remove_module_references.
  exists (listeners (remove_cogs_of name b) ev). split.
  - apply remove_cogs_of_spec.
  - rewrite remove_listeners_of_listeners. f_equal.
    unfold listeners, remove_commands_of.
    destruct (remove_commands_frame name
                (map_to_list (all_commands (remove_cogs_of name b)))
                (remove_cogs_of name b)) as (_ & _ & -> & _).
    reflexivity.
Qed.

Lemma strip_by_name (name : string) (b : Bot) :
  commands_by_name b -> commands_by_name (_remove_module_references b name).
Proof. intros Hwf k c H. apply Hwf. eapply strip_commands_sub, H. Qed.

(** After the strip nothing declared in [name] or below is left. *)
Lemma strip_no_artifacts (name : string) (b : Bot) :
  commands_by_name b -> no_artifacts_of name (_remove_module_references b name).
Proof.
  intros Hwf. repeat split.
  - intros n cog H. apply strip_cogs in H. apply H.
  - intros n cmd H. eapply strip_commands_foreign; eassumption.
  - intros ev func H. destruct (strip_listeners name b ev) as (l & _ & E).
    rewrite E in H. apply filter_In in H. destruct H as [_ H].
    apply negb_true_iff in H. exact H.
Qed.

(** *** Entry points do not touch the module tables *)

Lemma _eject_frame (b : Bot) (cog : Cog) :
  cogs (_eject b cog) = cogs b
  /\ extensions (_eject b cog) = extensions b
  /\ sys_modules (_eject b cog) = sys_modules b.
Proof.
  unfold _eject.
  destruct (eject_listeners_frame (cog_listeners cog)
              (foldl (fun b command => remove_command b (c_name command))
                     b (cog_commands cog))) as (-> & _ & -> & ->).
  destruct (eject_commands_frame (cog_commands cog) b) as (-> & _ & -> & ->).
  repeat split.
Qed.

Lemma _inject_frame (b : Bot) (cog : Cog) :
  cogs (fst (_inject b cog)) = cogs b
  /\ extensions (fst (_inject b cog)) = extensions b
  /\ sys_modules (fst (_inject b cog)) = sys_modules b.
Proof.
  unfold _inject.
  pose proof (add_commands_frame (cog_commands cog) b) as Hc.
  destruct (add_commands b (cog_commands cog)) as [b1 [e|]]; [repeat split|].
  cbn in Hc. destruct Hc as (H1 & _ & H3 & H4).
  destruct (add_listeners_frame (cog_listeners cog) b1) as (-> & _ & -> & ->).
  repeat split; assumption.
Qed.

Lemma inject_and_store_modules (b : Bot) (cog : Cog) :
  extensions (fst (inject_and_store b cog)) = extensions b
  /\ sys_modules (fst (inject_and_store b cog)) = sys_modules b.
Proof.
  unfold inject_and_store. destruct (_inject_frame b cog) as (_ & H1 & H2).
  destruct (_inject b cog) as [b1 [e|]]; cbn in *; split; assumption.
Qed.

Lemma add_cog_modules (b : Bot) (cog : Cog) (override : bool) :
  extensions (fst (add_cog b cog override)) = extensions b
  /\ sys_modules (fst (add_cog b cog override)) = sys_modules b.
Proof.
  unfold add_cog. destruct (cogs b !! cog_name cog).
  - destruct override; cbn [negb]; [|split; reflexivity].
    destruct (inject_and_store_modules (remove_cog b (cog_name cog)) cog) as [-> ->].
    apply remove_cog_modules.
  - apply inject_and_store_modules.
Qed.

Lemma run_action_modules (a : Action) (b : Bot) :
  extensions (fst (run_action a b)) = extensions b
  /\ sys_modules (fst (run_action a b)) = sys_modules b.
Proof.
  destruct a; cbn.
  - apply add_cog_modules.
  - apply remove_cog_modules.
  - destruct (add_command_frame b command) as (_ & _ & H). exact H.
  - split; reflexivity.
  - destruct (add_listener_frame b func name) as (_ & _ & H). exact H.
  - destruct (remove_listener_frame b func name) as (_ & _ & H). exact H.
  - split; reflexivity.
Qed.

Lemma run_script_modules (script : list Action) (b : Bot) :
  extensions (fst (run_script script b)) = extensions b
  /\ sys_modules (fst (run_script script b)) = sys_modules b.
Proof.
  revert b. induction script as [|a script IH]; intros b; cbn; [split; reflexivity|].
  pose proof (run_action_modules a b) as Ha.
  destruct (run_action a b) as [b1 [e|]]; cbn in *; [exact Ha|].
  destruct (IH b1) as [-> ->]. exact Ha.
Qed.

(** *** Commands stay filed under their names *)

Lemma add_command_by_name (b : Bot) (command : Cmd) :
  commands_by_name b -> commands_by_name (fst (add_command b command)).
Proof.
  intros Hwf. unfold add_command. destruct (all_commands b !! c_name command); [exact Hwf|].
  intros k c. cbn. rewrite lookup_insert. destruct (decide _) as [<-|_].
  - intros [= <-]. reflexivity.
  - apply Hwf.
Qed.

Lemma add_commands_by_name (commands : list Cmd) (b : Bot) :
  commands_by_name b -> commands_by_name (fst (add_commands b commands)).
Proof.
  revert b. induction commands as [|c commands IH]; intros b Hwf; cbn; [exact Hwf|].
  pose proof (add_command_by_name b c Hwf) as Hc.
  destruct (add_command b c) as [b1 [e|]]; cbn in *; [exact Hc|]. apply IH, Hc.
Qed.

Lemma by_name_same_commands (b b' : Bot) :
  all_commands b' = all_commands b -> commands_by_name b -> commands_by_name b'.
Proof. intros E Hwf k c. rewrite E. apply Hwf. Qed.

Lemma _inject_by_name (b : Bot) (cog : Cog) :
  commands_by_name b -> commands_by_name (fst (_inject b cog)).
Proof.
  intros Hwf. unfold _inject.
  pose proof (add_commands_by_name (cog_commands cog) b Hwf) as Hc.
  destruct (add_commands b (cog_commands cog)) as [b1 [e|]]; [exact Hwf|].
  cbn in Hc. eapply by_name_same_commands; [|exact Hc].
  apply add_listeners_frame.
Qed.

Lemma remove_cog_by_name (b : Bot) (n : string) :
  commands_by_name b -> commands_by_name (remove_cog b n).
Proof. intros Hwf k c H. apply Hwf. eapply remove_cog_commands_sub, H. Qed.

Lemma inject_and_store_by_name (b : Bot) (cog : Cog) :
  commands_by_name b -> commands_by_name (fst (inject_and_store b cog)).
Proof.
  intros Hwf. unfold inject_and_store. pose proof (_inject_by_name b cog Hwf) as Hi.
  destruct (_inject b cog) as [b1 [e|]]; exact Hi.
Qed.

Lemma add_cog_by_name (b : Bot) (cog : Cog) (override : bool) :
  commands_by_name b -> commands_by_name (fst (add_cog b cog override)).
Proof.
  intros Hwf. unfold add_cog. destruct (cogs b !! cog_name cog).
  - destruct override; cbn [negb]; [|exact Hwf].
    apply inject_and_store_by_name, remove_cog_by_name, Hwf.
  - apply inject_and_store_by_name, Hwf.
Qed.

Lemma run_action_by_name (a : Action) (b : Bot) :
  commands_by_name b -> commands_by_name (fst (run_action a b)).
Proof.
  intros Hwf. destruct a; cbn.
  - apply add_cog_by_name, Hwf.
  - apply remove_cog_by_name, Hwf.
  - apply add_command_by_name, Hwf.
  - intros k c. cbn. rewrite lookup_delete. destruct (decide _); [discriminate|apply Hwf].
  - eapply by_name_same_commands; [|exact Hwf]. apply add_listener_frame.
  - eapply by_name_same_commands; [|exact Hwf]. apply remove_listener_frame.
  - exact Hwf.
Qed.

Lemma run_script_by_name (script : list Action) (b : Bot) :
  commands_by_name b -> commands_by_name (fst (run_script script b)).
Proof.
  revert b. induction script as [|a script IH]; intros b Hwf; cbn; [exact Hwf|].
  pose proof (run_action_by_name a b Hwf) as Ha.
  destruct (run_action a b) as [b1 [e|]]; cbn in *; [exact Ha|]. apply IH, Ha.
Qed.

(** *** Entry points only read cogs, commands and listeners *)

Lemma similar_refl (b : Bot) : similar b b.
Proof. repeat split. Qed.

Lemma similar_sym (b b' : Bot) : similar b b' -> similar b' b.
Proof. intros (H1 & H2 & H3). repeat split; auto. Qed.

Lemma similar_trans (b1 b2 b3 : Bot) :
  similar b1 b2 -> similar b2 b3 -> similar b1 b3.
Proof.
  intros (H1 & H2 & H3) (G1 & G2 & G3).
  split; [congruence|]. split; [congruence|].
  intros ev. rewrite H3. apply G3.
Qed.

Lemma add_listener_similar (func : Listener) (name : option string) (b1 b2 : Bot) :
  similar b1 b2 ->
  similar (fst (add_listener b1 func name)) (fst (add_listener b2 func name))
  /\ snd (add_listener b1 func name) = snd (add_listener b2 func name).
Proof.
  intros (H1 & H2 & H3). split; [|rewrite !add_listener_snd; reflexivity].
  destruct (add_listener_frame b1 func name) as (C1 & A1 & _).
  destruct (add_listener_frame b2 func name) as (C2 & A2 & _).
  repeat split; try congruence.
  intros ev. rewrite !add_listener_listeners, H3. reflexivity.
Qed.

Lemma remove_listener_similar (func : Listener) (name : option string) (b1 b2 : Bot) :
  similar b1 b2 ->
  similar (remove_listener b1 func name) (remove_listener b2 func name).
Proof.
  intros (H1 & H2 & H3).
  destruct (remove_listener_frame b1 func name) as (C1 & A1 & _).
  destruct (remove_listener_frame b2 func name) as (C2 & A2 & _).
  repeat split; try congruence.
  intros ev. rewrite !remove_listener_listeners, H3. reflexivity.
Qed.

Lemma same_events_listeners (b b' : Bot) (ev : string) :
  extra_events b' = extra_events b -> listeners b' ev = listeners b ev.
Proof. unfold listeners. intros ->. reflexivity. Qed.

Lemma add_command_similar (command : Cmd) (b1 b2 : Bot) :
  similar b1 b2 ->
  similar (fst (add_command b1 command)) (fst (add_command b2 command))
  /\ snd (add_command b1 command) = snd (add_command b2 command).
Proof.
  intros (H1 & H2 & H3). unfold add_command. rewrite H2.
  destruct (all_commands b2 !! c_name command); [repeat split; assumption|].
  repeat split; cbn; try congruence; try exact H3.
Qed.

Lemma remove_command_similar (name : string) (b1 b2 : Bot) :
  similar b1 b2 -> similar (remove_command b1 name) (remove_command b2 name).
Proof.
  intros (H1 & H2 & H3). repeat split; cbn; try congruence; try exact H3.
Qed.

Lemma add_commands_similar (commands : list Cmd) (b1 b2 : Bot) :
  similar b1 b2 ->
  similar (fst (add_commands b1 commands)) (fst (add_commands b2 commands))
  /\ snd (add_commands b1 commands) = snd (add_commands b2 commands).
Proof.
  revert b1 b2. induction commands as [|c commands IH]; intros b1 b2 H; cbn;
    [split; [exact H|reflexivity]|].
  destruct (add_command_similar c b1 b2 H) as [Hs He].
  destruct (add_command b1 c) as [x1 [e1|]], (add_command b2 c) as [x2 [e2|]];
    cbn in *; try discriminate; [split; assumption|].
  apply IH, Hs.
Qed.

Lemma add_listeners_similar (ls : list (string * Listener)) (b1 b2 : Bot) :
  similar b1 b2 ->
  similar (fst (add_listeners b1 ls)) (fst (add_listeners b2 ls))
  /\ snd (add_listeners b1 ls) = snd (add_listeners b2 ls).
Proof.
  revert b1 b2. induction ls as [|[name func] ls IH]; intros b1 b2 H; cbn;
    [split; [exact H|reflexivity]|].
  destruct (add_listener_similar func (Some name) b1 b2 H) as [Hs He].
  destruct (add_listener b1 func (Some name)) as [x1 [e1|]],
           (add_listener b2 func (Some name)) as [x2 [e2|]];
    cbn in *; try discriminate; [split; assumption|].
  apply IH, Hs.
Qed.

Lemma _inject_similar (cog : Cog) (b1 b2 : Bot) :
  similar b1 b2 ->
  similar (fst (_inject b1 cog)) (fst (_inject b2 cog))
  /\ snd (_inject b1 cog) = snd (_inject b2 cog).
Proof.
  intros H. unfold _inject.
  destruct (add_commands_similar (cog_commands cog) b1 b2 H) as [Hs He].
  destruct (add_commands b1 (cog_commands cog)) as [x1 [e1|]],
           (add_commands b2 (cog_commands cog)) as [x2 [e2|]];
    cbn in *; try discriminate; [split; assumption|].
  apply add_listeners_similar, Hs.
Qed.

Lemma _eject_similar (cog : Cog) (b1 b2 : Bot) :
  similar b1 b2 -> similar (_eject b1 cog) (_eject b2 cog).
Proof.
  intros H. unfold _eject.
  assert (Hc : similar
            (foldl (fun b command => remove_command b (c_name command)) b1 (cog_commands cog))
            (foldl (fun b command => remove_command b (c_name command)) b2 (cog_commands cog))).
  { revert b1 b2 H. induction (cog_commands cog) as [|c cs IH]; intros b1 b2 H; cbn;
      [exact H|]. apply IH, remove_command_similar, H. }
  revert Hc. generalize (foldl (fun b command => remove_command b (c_name command)) b1 (cog_commands cog)).
  generalize (foldl (fun b command => remove_command b (c_name command)) b2 (cog_commands cog)).
  induction (cog_listeners cog) as [|[name func] ls IH]; intros x2 x1 Hx; cbn;
    [exact Hx|]. apply IH, remove_listener_similar, Hx.
Qed.

Lemma set_cogs_similar (v : gmap string Cog) (b1 b2 : Bot) :
  similar b1 b2 -> similar (set_cogs b1 v) (set_cogs b2 v).
Proof. intros (H1 & H2 & H3). repeat split; cbn; auto. Qed.

Lemma remove_cog_similar (n : string) (b1 b2 : Bot) :
  similar b1 b2 -> similar (remove_cog b1 n) (remove_cog b2 n).
Proof.
  intros H. unfold remove_cog. destruct H as (H1 & H2 & H3). rewrite H1.
  destruct (cogs b2 !! n); [|repeat split; assumption].
  apply _eject_similar, set_cogs_similar. repeat split; assumption.
Qed.

Lemma inject_and_store_similar (cog : Cog) (b1 b2 : Bot) :
  similar b1 b2 ->
  similar (fst (inject_and_store b1 cog)) (fst (inject_and_store b2 cog))
  /\ snd (inject_and_store b1 cog) = snd (inject_and_store b2 cog).
Proof.
  intros H. unfold inject_and_store.
  destruct (_inject_similar cog b1 b2 H) as [Hs He].
  destruct (_inject b1 cog) as [x1 [e1|]], (_inject b2 cog) as [x2 [e2|]];
    cbn in *; try discriminate; [split; assumption|].
  split; [|reflexivity]. destruct Hs as (S1 & S2 & S3). rewrite S1.
  repeat split; cbn; auto.
Qed.

Lemma add_cog_similar (cog : Cog) (override : bool) (b1 b2 : Bot) :
  similar b1 b2 ->
  similar (fst (add_cog b1 cog override)) (fst (add_cog b2 cog override))
  /\ snd (add_cog b1 cog override) = snd (add_cog b2 cog override).
Proof.
  intros H. unfold add_cog. destruct H as (H1 & H2 & H3). rewrite H1.
  assert (H : similar b1 b2) by (repeat split; assumption).
  destruct (cogs b2 !! cog_name cog).
  - destruct override; cbn [negb]; [|split; [exact H|reflexivity]].
    apply inject_and_store_similar, remove_cog_similar, H.
  - apply inject_and_store_similar, H.
Qed.

Lemma run_action_similar (a : Action) (b1 b2 : Bot) :
  similar b1 b2 ->
  similar (fst (run_action a b1)) (fst (run_action a b2))
  /\ snd (run_action a b1) = snd (run_action a b2).
Proof.
  intros H. destruct a; cbn.
  - apply add_cog_similar, H.
  - split; [apply remove_cog_similar, H|reflexivity].
  - apply add_command_similar, H.
  - split; [apply remove_command_similar, H|reflexivity].
  - apply add_listener_similar, H.
  - split; [apply remove_listener_similar, H|reflexivity].
  - split; [exact H|reflexivity].
Qed.

Lemma run_script_similar (script : list Action) (b1 b2 : Bot) :
  similar b1 b2 ->
  similar (fst (run_script script b1)) (fst (run_script script b2))
  /\ snd (run_script script b1) = snd (run_script script b2).
Proof.
  revert b1 b2. induction script as [|a script IH]; intros b1 b2 H; cbn;
    [split; [exact H|reflexivity]|].
  destruct (run_action_similar a b1 b2 H) as [Hs He].
  destruct (run_action a b1) as [x1 [e1|]], (run_action a b2) as [x2 [e2|]];
    cbn in *; try discriminate; [split; assumption|].
  apply IH, Hs.
Qed.

(** *** Artifacts of a module *)

Lemma no_artifacts_of_shrunk (name : string) (b b' : Bot) :
  (forall n cog, cogs b' !! n = Some cog -> cogs b !! n = Some cog) ->
  (forall k c, all_commands b' !! k = Some c -> all_commands b !! k = Some c) ->
  (forall ev f, In f (listeners b' ev) -> In f (listeners b ev)) ->
  no_artifacts_of name b -> no_artifacts_of name b'.
Proof.
  intros H1 H2 H3 (N1 & N2 & N3). repeat split.
  - intros n cog H. eapply N1, H1, H.
  - intros n cmd H. eapply N2, H2, H.
  - intros ev f H. eapply N3, H3, H.
Qed.

Lemma no_artifacts_of_similar (name : string) (b b' : Bot) :
  similar b b' -> no_artifacts_of name b -> no_artifacts_of name b'.
Proof.
  intros (H1 & H2 & H3). apply no_artifacts_of_shrunk.
  - intros n cog. rewrite H1. auto.
  - intros k c. rewrite H2. auto.
  - intros ev f. rewrite H3. auto.
Qed.

Lemma remove_cog_no_artifacts (name n : string) (b : Bot) :
  no_artifacts_of name b -> no_artifacts_of name (remove_cog b n).
Proof.
  apply no_artifacts_of_shrunk.
  - intros m cog. rewrite remove_cog_cogs, lookup_delete.
    destruct (decide _); [discriminate|auto].
  - intros k c. apply remove_cog_commands_sub.
  - intros ev f. apply thinned_In with (1 := remove_cog_thinned b n ev).
Qed.

Lemma add_command_no_artifacts (name : string) (command : Cmd) (b : Bot) :
  declared_under name (c_module command) = false ->
  no_artifacts_of name b -> no_artifacts_of name (fst (add_command b command)).
Proof.
  intros Hf (N1 & N2 & N3). unfold add_command.
  destruct (all_commands b !! c_name command); [repeat split; assumption|].
  repeat split; cbn.
  - exact N1.
  - intros n cmd. rewrite lookup_insert. destruct (decide _).
    + intros [= <-]. exact Hf.
    + apply N2.
  - exact N3.
Qed.

Lemma add_listener_no_artifacts (name : string) (func : Listener)
    (ev : option string) (b : Bot) :
  declared_under name (l_module func) = false ->
  no_artifacts_of name b -> no_artifacts_of name (fst (add_listener b func ev)).
Proof.
  intros Hf (N1 & N2 & N3).
  destruct (add_listener_frame b func ev) as (C & A & _).
  repeat split.
  - rewrite C. exact N1.
  - rewrite A. exact N2.
  - intros ev' f. rewrite add_listener_listeners.
    destruct (_ && _); [|apply N3].
    rewrite in_app_iff. intros [H|[<-|[]]]; [eapply N3, H|exact Hf].
Qed.

Lemma add_commands_no_artifacts (name : string) (commands : list Cmd) (b : Bot) :
  forallb (fun c => negb (declared_under name (c_module c))) commands = true ->
  no_artifacts_of name b -> no_artifacts_of name (fst (add_commands b commands)).
Proof.
  revert b. induction commands as [|c commands IH]; intros b Hf Hn; cbn; [exact Hn|].
  cbn in Hf. apply andb_true_iff in Hf. destruct Hf as [Hc Hf].
  apply negb_true_iff in Hc.
  pose proof (add_command_no_artifacts name c b Hc Hn) as H1.
  destruct (add_command b c) as [b1 [e|]]; cbn in *; [exact H1|]. apply IH; assumption.
Qed.

Lemma add_listeners_no_artifacts (name : string) (ls : list (string * Listener))
    (b : Bot) :
  forallb (fun '(_, f) => negb (declared_under name (l_module f))) ls = true ->
  no_artifacts_of name b -> no_artifacts_of name (fst (add_listeners b ls)).
Proof.
  revert b. induction ls as [|[ev f] ls IH]; intros b Hf Hn; cbn; [exact Hn|].
  cbn in Hf. apply andb_true_iff in Hf. destruct Hf as [Hc Hf].
  apply negb_true_iff in Hc.
  pose proof (add_listener_no_artifacts name f (Some ev) b Hc Hn) as H1.
  destruct (add_listener b f (Some ev)) as [b1 [e|]]; cbn in *; [exact H1|].
  apply IH; assumption.
Qed.

Lemma inject_and_store_no_artifacts (name : string) (cog : Cog) (b : Bot) :
  cog_foreign_to name cog = true ->
  no_artifacts_of name b -> no_artifacts_of name (fst (inject_and_store b cog)).
Proof.
  unfold cog_foreign_to. rewrite !andb_true_iff, negb_true_iff.
  intros [[Hm Hc] Hl] Hn. unfold inject_and_store, _inject.
  pose proof (add_commands_no_artifacts name (cog_commands cog) b Hc Hn) as H1.
  destruct (add_commands b (cog_commands cog)) as [b1 [e|]]; cbn in *; [exact Hn|].
  pose proof (add_listeners_no_artifacts name (cog_listeners cog) b1 Hl H1) as H2.
  destruct (add_listeners b1 (cog_listeners cog)) as [b2 [e|]]; cbn in *; [exact H2|].
  destruct H2 as (N1 & N2 & N3). repeat split; cbn; auto.
  intros n c. rewrite lookup_insert. destruct (decide _).
  - intros [= <-]. exact Hm.
  - apply N1.
Qed.

Lemma run_action_no_artifacts (name : string) (a : Action) (b : Bot) :
  foreign_action name a = true ->
  no_artifacts_of name b -> no_artifacts_of name (fst (run_action a b)).
Proof.
  intros Hf Hn. destruct a; cbn in *.
  - unfold add_cog. destruct (cogs b !! cog_name cog).
    + destruct (negb override); [exact Hn|].
      apply inject_and_store_no_artifacts; [exact Hf|].
      apply remove_cog_no_artifacts, Hn.
    + apply inject_and_store_no_artifacts; assumption.
  - apply remove_cog_no_artifacts, Hn.
  - apply add_command_no_artifacts; [apply negb_true_iff, Hf|exact Hn].
  - revert Hn. apply no_artifacts_of_shrunk; auto.
    intros k c. cbn. rewrite lookup_delete. destruct (decide _); [discriminate|auto].
  - apply add_listener_no_artifacts; [apply negb_true_iff, Hf|exact Hn].
  - revert Hn. destruct (remove_listener_frame b func name0) as (C & A & _).
    apply no_artifacts_of_shrunk.
    + rewrite C. auto.
    + rewrite A. auto.
    + intros ev f. rewrite remove_listener_listeners.
      destruct (decide _); [|auto].
      apply thinned_In with (1 := thinned_remove_first func (listeners b ev)).
  - exact Hn.
Qed.

Lemma run_script_no_artifacts (name : string) (script : list Action) (b : Bot) :
  forallb (foreign_action name) script = true ->
  no_artifacts_of name b -> no_artifacts_of name (fst (run_script script b)).
Proof.
  revert b. induction script as [|a script IH]; intros b Hf Hn; cbn; [exact Hn|].
  cbn in Hf. apply andb_true_iff in Hf. destruct Hf as [Ha Hf].
  pose proof (run_action_no_artifacts name a b Ha Hn) as H1.
  destruct (run_action a b) as [b1 [e|]]; cbn in *; [exact H1|]. apply IH; assumption.
Qed.

(** *** [_call_module_finalizers] *)

(** The state after the [teardown] step. *)
Lemma finalizers_loop (name : string) (keys : list string) (b : Bot) :
  let b' := foldl (fun b module =>
                     if _is_submodule name module
                     then set_sys_modules b (delete module (sys_modules b)) else b)
                  b keys in
  cogs b' = cogs b /\ all_commands b' = all_commands b
  /\ extra_events b' = extra_events b /\ extensions b' = extensions b
  /\ (forall k m, sys_modules b' !! k = Some m -> sys_modules b !! k = Some m)
  /\ (forall k, In k keys -> _is_submodule name k = true -> sys_modules b' !! k = None)
  /\ (forall k, _is_submodule name k = false -> sys_modules b' !! k = sys_modules b !! k).
Proof.
  revert b. induction keys as [|k0 keys IH]; intros b; cbn zeta.
  { cbn. repeat split; auto. intros k []. }
  cbn [foldl].
  set (b1 := if _is_submodule name k0
             then set_sys_modules b (delete k0 (sys_modules b)) else b).
  destruct (IH b1) as (I1 & I2 & I3 & I4 & I5 & I6 & I7).
  assert (F : cogs b1 = cogs b /\ all_commands b1 = all_commands b
              /\ extra_events b1 = extra_events b /\ extensions b1 = extensions b).
  { unfold b1. destruct (_is_submodule name k0); repeat split. }
  destruct F as (F1 & F2 & F3 & F4).
  assert (Hsub : forall k m, sys_modules b1 !! k = Some m -> sys_modules b !! k = Some m).
  { intros k m. unfold b1. destruct (_is_submodule name k0); [|auto].
    cbn. rewrite lookup_delete. destruct (decide _); [discriminate|auto]. }
  split; [congruence|]. split; [congruence|]. split; [congruence|]. split; [congruence|].
  split; [|split].
  - intros k m H. apply Hsub, I5, H.
  - intros k [<-|Hin] Hs; [|apply I6; assumption].
    destruct (sys_modules (foldl _ b1 keys) !! k0) as [m|] eqn:E; [|reflexivity].
    apply I5 in E. unfold b1 in E. rewrite Hs in E. cbn in E.
    rewrite lookup_delete_eq in E. discriminate.
  - intros k Hs. rewrite I7 by exact Hs. unfold b1.
    destruct (_is_submodule name k0) eqn:E0; [|reflexivity].
    cbn. apply lookup_delete_ne. intros ->. congruence.
Qed.

Lemma finalizers_spec (b : Bot) (lib : PyModule) (key : string) :
  let b1 := match mod_teardown lib with
            | None => b
            | Some teardown => fst (run_script teardown b)
            end in
  let b' := _call_module_finalizers b lib key in
  cogs b' = cogs b1 /\ all_commands b' = all_commands b1
  /\ extra_events b' = extra_events b1
  /\ extensions b' = delete key (extensions b)
  /\ (forall k, sys_modules b' !! k =
                if decide (key = k) then None
                else if _is_submodule (mod_name lib) k then None
                else sys_modules b !! k).
Proof.
  cbn zeta. unfold _call_module_finalizers.
  set (b1 := match mod_teardown lib with
             | None => b
             | Some teardown => fst (run_script teardown b)
             end).
  assert (Hm : extensions b1 = extensions b /\ sys_modules b1 = sys_modules b).
  { unfold b1. destruct (mod_teardown lib); [apply run_script_modules|split; reflexivity]. }
  destruct Hm as [He Hs].
  set (b3 := set_sys_modules (set_extensions b1 (delete key (extensions b1)))
               (delete key (sys_modules (set_extensions b1 (delete key (extensions b1)))))).
  destruct (finalizers_loop (mod_name lib) (map fst (map_to_list (sys_modules b3))) b3)
    as (I1 & I2 & I3 & I4 & I5 & I6 & I7).
  split; [exact I1|]. split; [exact I2|]. split; [exact I3|].
  split; [rewrite I4; cbn; rewrite He; reflexivity|].
  intros k. destruct (decide (key = k)) as [<-|Hne].
  - destruct (sys_modules (foldl _ b3 _) !! key) as [m|] eqn:E; [|reflexivity].
    apply I5 in E. cbn in E. rewrite lookup_delete_eq in E. discriminate.
  - destruct (_is_submodule (mod_name lib) k) eqn:Hsub.
    + destruct (sys_modules b3 !! k) as [m|] eqn:E.
      * apply I6; [|exact Hsub]. apply in_map_iff. exists (k, m). split; [reflexivity|].
        apply In_map_to_list, E.
      * destruct (sys_modules (foldl _ b3 _) !! k) as [m|] eqn:E'; [|reflexivity].
        apply I5 in E'. congruence.
    + rewrite (I7 k Hsub). cbn. rewrite lookup_delete_ne by exact Hne.
      rewrite Hs. reflexivity.
Qed.

(** *** A failed load *)

(** C2, as stated, fails: the failed load calls [teardown] after the strip,
    and what [teardown] registers stays. *)
Lemma failed_load_keeps_teardown_listener :
  snd (load_extension (importer ext_teardown_registers) empty_bot "ext" None)
  = Some (ExtensionFailed "ext" boom)
  /\ listeners (fst (load_extension (importer ext_teardown_registers)
                                    empty_bot "ext" None)) "on_ready"
     = [late_listener]
  /\ declared_under "ext" (l_module late_listener) = true.
Proof. repeat split; vm_compute; reflexivity. Qed.

(** C2, amended. When [setup] raises, whatever it registered before,
    [load_extension] signals [ExtensionFailed] and leaves no cog, no
    top-level command and no listener declared in the extension or one of
    its sub-modules, and the extension is not in the registry, provided
    that the [teardown] entry point, which the failed load calls after the
    strip, registers nothing declared there. *)
Theorem failed_setup_is_stripped
    (imp : Importer) (b : Bot) (name : string) (package : option string)
    (key : string) (spec : ModuleSpec) (setup : list Action) (e : Exn) :
  _resolve_name imp name package = Ok key ->
  extensions b !! key = None ->
  find_spec imp key = Ok (Some spec) ->
  exec_outcome spec = None ->
  exec_setup spec = Some setup ->
  snd (run_script setup b) = Some e ->
  commands_by_name b ->
  registers_nothing_of key (exec_teardown spec) = true ->
  snd (load_extension imp b name package) = Some (ExtensionFailed key e)
  /\ no_artifacts_of key (fst (load_extension imp b name package))
  /\ extensions (fst (load_extension imp b name package)) !! key = None.
Proof.
  intros Hres Hnew Hfind Hexec Hsetup Hraise Hwf Htd.
  unfold load_extension. rewrite Hres, Hnew, Hfind.
  unfold _load_from_module_spec.
  cbn [module_from_spec mod_setup mod_name]. rewrite Hexec, Hsetup.
  set (b0 := set_sys_modules _ (_ ∪ exec_imports spec)).
  assert (Hsim : similar b b0) by (repeat split).
  destruct (run_script_similar setup b b0 Hsim) as [_ He].
  pose proof (run_script_by_name setup b0) as Hwf1.
  destruct (run_script setup b0) as [x [e'|]]; cbn in He, Hwf1; [|congruence].
  assert (e' = e) by congruence. subst e'. cbn [fst snd].
  set (x1 := set_sys_modules x (delete key (sys_modules x))).
  assert (Hwf2 : commands_by_name x1) by (apply Hwf1; exact Hwf).
  pose proof (strip_no_artifacts key x1 Hwf2) as Hclean.
  destruct (finalizers_spec (_remove_module_references x1 key)
              (module_from_spec spec key) key) as (F1 & F2 & F3 & F4 & _).
  cbn [module_from_spec mod_teardown] in F1, F2, F3.
  split; [reflexivity|]. split.
  - eapply no_artifacts_of_similar.
    + split; [symmetry; exact F1|]. split; [symmetry; exact F2|].
      intros ev. symmetry. apply same_events_listeners, F3.
    + destruct (exec_teardown spec) as [td|]; [|exact Hclean].
      apply run_script_no_artifacts; assumption.
  - rewrite F4. apply lookup_delete_eq.
Qed.

Lemma failed_setup_is_stripped_witness :
  snd (load_extension (importer ext_partial) empty_bot "ext" None)
  = Some (ExtensionFailed "ext" boom)
  /\ no_artifacts_of "ext" (fst (load_extension (importer ext_partial) empty_bot "ext" None))
  /\ extensions (fst (load_extension (importer ext_partial) empty_bot "ext" None))
     !! "ext" = None.
Proof.
  apply (failed_setup_is_stripped (importer ext_partial) empty_bot "ext" None "ext"
           ext_partial
           [AddCog ext_cog false; AddCommand (mkCmd "pong" (Some "ext") false);
            AddListener ext_listener None; Fail boom] boom).
  - reflexivity.
  - reflexivity.
  - reflexivity.
  - reflexivity.
  - reflexivity.
  - vm_compute. reflexivity.
  - intros n cmd H. vm_compute in H. discriminate.
  - reflexivity.
Defined.

(** *** What the strip of [foo] leaves of [foobar] *)

(** C10. The sub-module test holds exactly when the child is the parent
    or starts with the parent followed by a dot, so ["foobar"] is not below
    ["foo"]; stripping the extension [foo] therefore keeps every cog
    declared in [foobar], every command and listener declared in [foobar]
    (unless a cog declared under [foo] brought it and takes it away when it
    is ejected), and the cached module [foobar]. *)
Theorem submodule_test_is_dotted_prefix :
  (forall parent child,
     _is_submodule parent child = true <->
     child = parent \/ exists rest, child = (parent ++ "." ++ rest)%string)
  /\ _is_submodule "foo" "foobar" = false
  /\ (forall b n cog,
        cogs b !! n = Some cog -> cog_module cog = "foobar" ->
        cogs (_remove_module_references b "foo") !! n = Some cog)
  /\ (forall b k c,
        commands_by_name b ->
        all_commands b !! k = Some c -> c_module c = Some "foobar" ->
        ~ owns_command "foo" b k ->
        all_commands (_remove_module_references b "foo") !! k = Some c)
  /\ (forall b ev f,
        In f (listeners b ev) -> l_module f = Some "foobar" ->
        ~ owns_listener "foo" b ev f ->
        In f (listeners (_remove_module_references b "foo") ev))
  /\ (forall b lib m,
        mod_name lib = "foo" ->
        sys_modules b !! "foobar" = Some m ->
        sys_modules (_call_module_finalizers b lib "foo") !! "foobar" = Some m).
Proof.
  split; [exact _is_submodule_iff|]. split; [reflexivity|]. split; [|split; [|split]].
  - intros b n cog H Hm. apply strip_cogs. split; [exact H|]. rewrite Hm. reflexivity.
  - intros b k c Hwf H Hm Hown. apply strip_commands_kept; auto.
    rewrite Hm. reflexivity.
  - intros b ev f H Hm Hown.
    destruct (strip_listeners "foo" b ev) as (l & Hthin & ->).
    apply filter_In. split.
    + eapply thinned_kept; eassumption.
    + rewrite Hm. reflexivity.
  - intros b lib m Hname H.
    destruct (finalizers_spec b lib "foo") as (_ & _ & _ & _ & Hs).
    rewrite Hs, Hname. cbn. exact H.
Qed.

Lemma foobar_bot_owns_nothing (k : string) :
  ~ owns_command "foo" foobar_bot k.
Proof.
  intros (n & cog & H & Hs & _). cbn in H.
  apply lookup_singleton_Some in H. destruct H as [_ <-]. discriminate.
Qed.

Lemma submodule_test_is_dotted_prefix_witness :
  cogs (_remove_module_references foobar_bot "foo") !! "Bar" = Some foobar_cog
  /\ all_commands (_remove_module_references foobar_bot "foo") !! "bar"
     = Some foobar_command
  /\ In foobar_listener (listeners (_remove_module_references foobar_bot "foo") "on_message")
  /\ sys_modules (_call_module_finalizers foobar_bot foo_module "foo") !! "foobar"
     = Some foobar_module.
Proof.
  destruct submodule_test_is_dotted_prefix as (_ & _ & Hcog & Hcmd & Hl & Hsys).
  split; [|split; [|split]].
  - apply Hcog; reflexivity.
  - apply Hcmd; [| reflexivity | reflexivity | apply foobar_bot_owns_nothing].
    intros n c H. cbn in H. rewrite lookup_insert in H.
    destruct (decide ("foo" = n)) as [<-|_].
    + injection H as <-. reflexivity.
    + apply lookup_singleton_Some in H. destruct H as [<- <-]. reflexivity.
  - apply Hl; [right; left; reflexivity | reflexivity |].
    intros (n & cog & H & Hs & _). cbn in H.
    apply lookup_singleton_Some in H. destruct H as [_ <-]. discriminate.
  - apply Hsys; reflexivity.
Defined.

(** *** Registrations of an extension's own artifacts *)

Lemma extends_with_own_refl (name : string) (b : Bot) : extends_with_own name b b.
Proof.
  repeat split; auto. intros ev. exists []. rewrite app_nil_r. split; constructor.
Qed.

Lemma extends_with_own_similar (name : string) (b x x' : Bot) :
  similar x x' -> extends_with_own name b x -> extends_with_own name b x'.
Proof.
  intros (H1 & H2 & H3) (R1 & R2 & R3). split; [|split].
  - intros n. rewrite <- H1. apply R1.
  - intros k. rewrite <- H2. apply R2.
  - intros ev. rewrite <- H3. apply R3.
Qed.

Lemma extends_free_command (name : string) (b x : Bot) (k : string) :
  extends_with_own name b x -> all_commands x !! k = None -> all_commands b !! k = None.
Proof.
  intros (_ & R2 & _) H. destruct (R2 k) as [E|(E & _)]; congruence.
Qed.

Lemma extends_free_cog (name : string) (b x : Bot) (n : string) :
  extends_with_own name b x -> cogs x !! n = None -> cogs b !! n = None.
Proof.
  intros (R1 & _) H. destruct (R1 n) as [E|(E & _)]; congruence.
Qed.

Lemma add_command_extends (name : string) (command : Cmd) (b x : Bot) :
  declared_under name (c_module command) = true ->
  extends_with_own name b x ->
  extends_with_own name b (fst (add_command x command))
  /\ (snd (add_command x command) = None -> all_commands b !! c_name command = None).
Proof.
  intros Hd R. unfold add_command.
  destruct (all_commands x !! c_name command) eqn:E; cbn [fst snd];
    [split; [exact R|discriminate]|].
  pose proof (extends_free_command name b x _ R E) as Hb.
  split; [|auto]. destruct R as (R1 & R2 & R3). split; [|split].
  - exact R1.
  - intros k. cbn. rewrite lookup_insert. destruct (decide _) as [<-|_]; [|apply R2].
    right. split; [exact Hb|]. exists command. auto.
  - exact R3.
Qed.

Lemma add_commands_extends (name : string) (commands : list Cmd) (b x : Bot) :
  forallb (fun c => declared_under name (c_module c)) commands = true ->
  extends_with_own name b x ->
  extends_with_own name b (fst (add_commands x commands))
  /\ (snd (add_commands x commands) = None ->
      forall c, In c commands -> all_commands b !! c_name c = None).
Proof.
  revert x. induction commands as [|c commands IH]; intros x Hf R; cbn.
  { split; [exact R|]. intros _ c []. }
  cbn in Hf. apply andb_true_iff in Hf. destruct Hf as [Hc Hf].
  destruct (add_command_extends name c b x Hc R) as [R1 Hfree].
  destruct (add_command x c) as [x1 [e|]]; cbn in *; [split; [exact R1|discriminate]|].
  destruct (IH x1 Hf R1) as [R2 Hfree2].
  split; [exact R2|]. intros Hok c' [<-|Hin]; auto.
Qed.

Lemma add_listener_extends (name : string) (func : Listener) (ev : option string)
    (b x : Bot) :
  declared_under name (l_module func) = true ->
  extends_with_own name b x ->
  extends_with_own name b (fst (add_listener x func ev)).
Proof.
  intros Hd (R1 & R2 & R3).
  destruct (add_listener_frame x func ev) as (C & A & _).
  split; [|split].
  - intros n. rewrite C. apply R1.
  - intros k. rewrite A. apply R2.
  - intros ev'. rewrite add_listener_listeners.
    destruct (R3 ev') as (extra & E & Hall).
    destruct (_ && _); [|exists extra; auto].
    exists (extra ++ [func]). rewrite E, app_assoc. split; [reflexivity|].
    apply Forall_app. split; [exact Hall|]. constructor; [exact Hd|constructor].
Qed.

Lemma add_listeners_extends (name : string) (ls : list (string * Listener))
    (b x : Bot) :
  forallb (fun '(_, f) => declared_under name (l_module f)) ls = true ->
  extends_with_own name b x ->
  extends_with_own name b (fst (add_listeners x ls)).
Proof.
  revert x. induction ls as [|[ev f] ls IH]; intros x Hf R; cbn; [exact R|].
  cbn in Hf. apply andb_true_iff in Hf. destruct Hf as [Hc Hf].
  pose proof (add_listener_extends name f (Some ev) b x Hc R) as R1.
  destruct (add_listener x f (Some ev)) as [x1 [e|]]; cbn in *; [exact R1|].
  apply IH; assumption.
Qed.

Lemma inject_and_store_extends (name : string) (cog : Cog) (b x : Bot) :
  cog_declared_under name cog = true ->
  cogs x !! cog_name cog = None ->
  extends_with_own name b x ->
  extends_with_own name b (fst (inject_and_store x cog)).
Proof.
  intros Hcog Hfree R. pose proof Hcog as Hcog'.
  unfold cog_declared_under in Hcog'. rewrite !andb_true_iff in Hcog'.
  destruct Hcog' as [[Hm Hc] Hl].
  unfold inject_and_store, _inject.
  destruct (add_commands_extends name (cog_commands cog) b x Hc R) as [R1 Hnames].
  pose proof (add_commands_frame (cog_commands cog) x) as Hfr.
  destruct (add_commands x (cog_commands cog)) as [x1 [e|]]; cbn in *; [exact R|].
  pose proof (add_listeners_extends name (cog_listeners cog) b x1 Hl R1) as R2.
  pose proof (add_listeners_frame (cog_listeners cog) x1) as Hfr2.
  destruct (add_listeners x1 (cog_listeners cog)) as [x2 [e|]]; cbn in *; [exact R2|].
  destruct R2 as (S1 & S2 & S3). split; [|split]; cbn; auto.
  intros n. rewrite lookup_insert. destruct (decide _) as [<-|_]; [|apply S1].
  right. split.
  - apply (extends_free_cog name b x _ R Hfree).
  - exists cog. auto.
Qed.

Lemma run_action_extends (name : string) (a : Action) (b x : Bot) :
  own_action name a = true ->
  extends_with_own name b x ->
  extends_with_own name b (fst (run_action a x)).
Proof.
  intros Ha R. destruct a; cbn in *; try discriminate.
  - apply andb_true_iff in Ha. destruct Ha as [Ho Hcog].
    apply negb_true_iff in Ho. subst override.
    unfold add_cog. destruct (cogs x !! cog_name cog) eqn:E; cbn [negb]; [exact R|].
    apply inject_and_store_extends; assumption.
  - apply add_command_extends; assumption.
  - apply add_listener_extends; assumption.
  - exact R.
Qed.

Lemma run_script_extends (name : string) (script : list Action) (b x : Bot) :
  own_registrations name script = true ->
  extends_with_own name b x ->
  extends_with_own name b (fst (run_script script x)).
Proof.
  revert x. induction script as [|a script IH]; intros x Hs R; cbn; [exact R|].
  cbn in Hs. apply andb_true_iff in Hs. destruct Hs as [Ha Hs].
  pose proof (run_action_extends name a b x Ha R) as R1.
  destruct (run_action a x) as [x1 [e|]]; cbn in *; [exact R1|]. apply IH; assumption.
Qed.

Lemma by_name_extends (name : string) (b x : Bot) :
  commands_by_name b -> extends_with_own name b x -> commands_by_name x.
Proof.
  intros Hwf (_ & R2 & _) k c H. destruct (R2 k) as [E|(_ & c' & E & _ & Hn)].
  - apply Hwf. congruence.
  - congruence.
Qed.

Lemma filter_all (A : Type) (f : A -> bool) (l : list A) :
  (forall x, In x l -> f x = true) -> List.filter f l = l.
Proof.
  induction l as [|x l IH]; intros H; cbn; [reflexivity|].
  rewrite (H x) by (left; reflexivity). rewrite IH; [reflexivity|].
  intros y Hy. apply H. right. exact Hy.
Qed.

Lemma filter_none (A : Type) (f : A -> bool) (l : list A) :
  (forall x, In x l -> f x = false) -> List.filter f l = [].
Proof.
  induction l as [|x l IH]; intros H; cbn; [reflexivity|].
  rewrite (H x) by (left; reflexivity). apply IH.
  intros y Hy. apply H. right. exact Hy.
Qed.

(** The strip takes away exactly what was registered on top of a state
    that had no artifact of the module. *)
Lemma strip_of_extension (name : string) (b x : Bot) :
  no_artifacts_of name b ->
  commands_by_name b ->
  extends_with_own name b x ->
  similar (_remove_module_references x name) b.
Proof.
  intros (N1 & N2 & N3) Hwf R.
  pose proof (by_name_extends name b x Hwf R) as Hwfx.
  destruct R as (R1 & R2 & R3).
  assert (Hcog : forall n cog, cogs x !! n = Some cog ->
            _is_submodule name (cog_module cog) = true ->
            cog_declared_under name cog = true
            /\ forall c, In c (cog_commands cog) -> all_commands b !! c_name c = None).
  { intros n cog H Hs. destruct (R1 n) as [E|(_ & cog' & E & Hd & Hc)].
    - rewrite H in E. symmetry in E. apply N1 in E. congruence.
    - assert (cog' = cog) by congruence. subst. auto. }
  split; [|split].
  - apply map_eq. intros n.
    destruct (cogs (_remove_module_references x name) !! n) as [cog|] eqn:E.
    + apply strip_cogs in E. destruct E as [E Hs].
      destruct (R1 n) as [<-|(_ & cog' & E' & Hd & _)]; [auto|].
      assert (cog' = cog) by congruence. subst.
      unfold cog_declared_under in Hd. rewrite !andb_true_iff in Hd.
      destruct Hd as [[Hd _] _]. congruence.
    + destruct (cogs b !! n) as [cog|] eqn:Eb; [|reflexivity].
      destruct (R1 n) as [Ex|(Ex & _)]; [|congruence].
      assert (G : cogs (_remove_module_references x name) !! n = Some cog).
      { apply strip_cogs. split; [congruence|]. eapply N1, Eb. }
      congruence.
  - apply map_eq. intros k.
    destruct (all_commands (_remove_module_references x name) !! k) as [c|] eqn:E.
    + pose proof (strip_commands_foreign name x k c Hwfx E) as Hf.
      apply strip_commands_sub in E.
      destruct (R2 k) as [<-|(_ & c' & E' & Hd & _)]; [auto|].
      assert (c' = c) by congruence. subst. congruence.
    + destruct (all_commands b !! k) as [c|] eqn:Eb; [|reflexivity].
      destruct (R2 k) as [Ex|(Ex & _)]; [|congruence].
      assert (G : all_commands (_remove_module_references x name) !! k = Some c).
      { apply strip_commands_kept; auto.
        - congruence.
        - eapply N2, Eb.
        - intros (n & cog & Hc & Hs & Hin).
          destruct (Hcog n cog Hc Hs) as [_ Hfree].
          apply in_map_iff in Hin. destruct Hin as (c' & <- & Hin).
          rewrite (Hfree c' Hin) in Eb. discriminate. }
      congruence.
  - intros ev. destruct (strip_listeners name x ev) as (l & Hthin & ->).
    assert (Hown : forall f, owns_listener name x ev f ->
                             negb (declared_under name (l_module f)) = false).
    { intros f (n & cog & Hc & Hs & Hin).
      destruct (Hcog n cog Hc Hs) as [Hd _].
      unfold cog_declared_under in Hd. rewrite !andb_true_iff in Hd.
      destruct Hd as [_ Hl]. rewrite forallb_forall in Hl.
      specialize (Hl (ev, f) Hin). cbn in Hl. rewrite Hl. reflexivity. }
    rewrite (thinned_filter _ _ _ _ Hown Hthin).
    destruct (R3 ev) as (extra & -> & Hall).
    rewrite List.filter_app, filter_all, filter_none, app_nil_r; [reflexivity| |].
    + intros f Hf. rewrite List.Forall_forall in Hall. rewrite (Hall f Hf). reflexivity.
    + intros f Hf. rewrite (N3 ev f Hf). reflexivity.
Qed.

(** *** A failed reload *)

Lemma inert_similar (entry : option (list Action)) (b : Bot) :
  inert entry ->
  similar match entry with
          | None => b
          | Some teardown => fst (run_script teardown b)
          end b.
Proof. destruct entry as [td|]; cbn; intros H; [apply H|apply similar_refl]. Qed.

Lemma finalizers_similar (b : Bot) (lib : PyModule) (key : string) :
  inert (mod_teardown lib) -> similar (_call_module_finalizers b lib key) b.
Proof.
  intros Hin. destruct (finalizers_spec b lib key) as (F1 & F2 & F3 & _).
  eapply similar_trans; [|apply (inert_similar _ b Hin)].
  split; [exact F1|]. split; [exact F2|].
  intros ev. apply same_events_listeners, F3.
Qed.

(** Loading from a state without artifacts of the extension: a failure
    leaves cogs, commands and listeners as they were. *)
Lemma failed_load_from_clean (imp : Importer) (key : string) (bf b b3 : Bot) (e : Exn) :
  starts_with_dot key = false ->
  no_artifacts_of key bf ->
  commands_by_name bf ->
  extensions bf !! key = None ->
  (forall k, _is_submodule key k = true -> sys_modules bf !! k = None) ->
  reimport_is_clean imp key b ->
  load_extension imp bf key None = (b3, Some e) ->
  similar b3 bf
  /\ extensions b3 = extensions bf
  /\ (forall k, _is_submodule key k = true ->
                sys_modules b3 !! k = None \/ is_Some (sys_modules b !! k)).
Proof.
  intros Hdot Hclean Hwf Hext Hsys Hnew.
  unfold load_extension, _resolve_name. rewrite Hdot, Hext.
  unfold reimport_is_clean in Hnew.
  destruct (find_spec imp key) as [[spec|]|e0].
  2:{ intros [= <- _]. split; [apply similar_refl|]. split; [reflexivity|]. auto. }
  2:{ intros [= <- _]. split; [apply similar_refl|]. split; [reflexivity|]. auto. }
  destruct Hnew as (Hown & Hinert & Himports).
  unfold _load_from_module_spec.
  set (lib := module_from_spec spec key).
  set (b0 := set_sys_modules _ (_ ∪ exec_imports spec)).
  assert (Hsim0 : similar b0 bf) by (repeat split).
  assert (Hbody : forall k, _is_submodule key k = true ->
            exec_imports spec !! k = None \/ is_Some (sys_modules b !! k) ->
            sys_modules (set_sys_modules b0 (delete key (sys_modules b0))) !! k = None
            \/ is_Some (sys_modules b !! k)).
  { intros k Hk [Hi|Hi]; [left|right; exact Hi].
    cbn. rewrite lookup_delete. destruct (decide (key = k)) as [|Hne]; [reflexivity|].
    rewrite lookup_union, lookup_insert_ne, (Hsys k Hk), Hi by exact Hne. reflexivity. }
  destruct (exec_outcome spec) as [e1|] eqn:Hout.
  { intros [= <- _]. split; [repeat split|]. split; [reflexivity|].
    intros k Hk. apply Hbody; [exact Hk|]. apply Himports; [left; discriminate|exact Hk]. }
  cbn [lib module_from_spec mod_setup mod_name].
  destruct (exec_setup spec) as [setup'|] eqn:Hsetup.
  2:{ intros [= <- _]. split; [repeat split|]. split; [reflexivity|].
      intros k Hk. apply Hbody; [exact Hk|]. apply Himports; [right; reflexivity|exact Hk]. }
  cbn [default from_option id] in Hown.
  pose proof (run_script_extends key setup' bf b0 Hown
                (extends_with_own_similar key bf bf b0 (similar_sym _ _ Hsim0)
                   (extends_with_own_refl key bf))) as Hextends.
  destruct (run_script_modules setup' b0) as [Hx1 Hx2].
  destruct (run_script setup' b0) as [x [e1|]]; [|discriminate].
  cbn [fst] in Hextends, Hx1, Hx2.
  intros [= <- _].
  set (x1 := set_sys_modules x (delete key (sys_modules x))).
  assert (Hex1 : extends_with_own key bf x1).
  { eapply extends_with_own_similar; [|exact Hextends]. repeat split. }
  pose proof (strip_of_extension key bf x1 Hclean Hwf Hex1) as Hstrip.
  destruct (finalizers_spec (_remove_module_references x1 key) lib key)
    as (_ & _ & _ & F4 & F5).
  split; [|split].
  - eapply similar_trans; [|exact Hstrip].
    apply finalizers_similar. exact Hinert.
  - rewrite F4. destruct (strip_modules key x1) as [-> _]. cbn.
    rewrite Hx1. cbn. apply delete_id, Hext.
  - intros k Hk. left. rewrite F5. destruct (decide (key = k)); [reflexivity|].
    cbn [lib module_from_spec mod_name]. rewrite Hk. reflexivity.
Qed.

(** Right after a load on a bot without artifacts of the extension, a
    second run of [setup] on the stripped bot registers again what the
    first run registered. *)
Lemma setup_registers_again (name : string) (b0 b : Bot) (setup : list Action) :
  no_artifacts_of name b0 ->
  commands_by_name b0 ->
  own_registrations name setup = true ->
  run_script setup b0 = (b, None) ->
  exists br, run_script setup (_remove_module_references b name) = (br, None)
             /\ similar br b.
Proof.
  intros Hclean Hwf Hown Hrun.
  pose proof (run_script_extends name setup b0 b0 Hown (extends_with_own_refl name b0))
    as Hext.
  rewrite Hrun in Hext. cbn [fst] in Hext.
  pose proof (strip_of_extension name b0 b Hclean Hwf Hext) as Hstrip.
  destruct (run_script_similar setup _ _ Hstrip) as [Hs He].
  rewrite Hrun in Hs, He. cbn [fst snd] in Hs, He.
  destruct (run_script setup (_remove_module_references b name)) as [br r].
  cbn [fst snd] in Hs, He. subst r. exists br. split; [reflexivity|exact Hs].
Qed.

(** C1, as stated, fails: the listeners of the extension are registered
    again behind those that other modules added in the meantime. *)
Lemma failed_reload_reorders_listeners :
  snd (reload_extension (importer ext_v2) ext_then_other "ext" None)
  = Some (ExtensionFailed "ext" boom)
  /\ listeners ext_then_other "on_message" = [ext_listener; other_listener]
  /\ listeners (fst (reload_extension (importer ext_v2) ext_then_other "ext" None))
               "on_message"
     = [other_listener; ext_listener].
Proof. repeat split; vm_compute; reflexivity. Qed.

(** C1, amended. When the load of a reload fails, [reload_extension]
    raises and the extension registry, the cogs, the top-level commands,
    the listeners of every event and the cached modules of the extension
    and its sub-modules are those of before the call, provided that
    running the original [setup] on the bot stripped of the extension's
    artifacts registers again what was there (the rollback is this second
    run, not a restored snapshot), that the [teardown] entry points are
    inert, that the [setup] of the module found on re-import only
    registers artifacts of its own, and that a module body that fails
    leaves no newly cached sub-module. *)
Theorem failed_reload_rolls_back
    (imp : Importer) (b : Bot) (name : string) (package : option string)
    (key : string) (lib : PyModule) (setup : list Action) (b' : Bot) (e : Exn) :
  _resolve_name imp name package = Ok key ->
  starts_with_dot key = false ->
  extensions b !! key = Some lib ->
  mod_name lib = key ->
  mod_setup lib = Some setup ->
  commands_by_name b ->
  inert (mod_teardown lib) ->
  reimport_is_clean imp key b ->
  (exists br, run_script setup (_remove_module_references b key) = (br, None)
              /\ similar br b) ->
  reload_extension imp b name package = (b', Some e) ->
  same_state key b' b.
Proof.
  intros Hres Hdot Hext Hname Hsetup Hwf Hinert Hnew (br & Hrun & Hbr).
  unfold reload_extension. rewrite Hres, Hext, Hname, Hsetup.
  set (bu := _remove_module_references b key).
  set (bf := _call_module_finalizers bu lib key).
  assert (Hfu : similar bf bu) by (apply finalizers_similar, Hinert).
  destruct (finalizers_spec bu lib key) as (_ & _ & _ & F4 & F5).
  fold bf in F4, F5.
  assert (Hclean : no_artifacts_of key bf).
  { eapply no_artifacts_of_similar; [apply similar_sym, Hfu|].
    apply strip_no_artifacts, Hwf. }
  assert (Hwff : commands_by_name bf).
  { eapply by_name_same_commands; [apply Hfu|]. apply strip_by_name, Hwf. }
  assert (Hextf : extensions bf !! key = None) by (rewrite F4; apply lookup_delete_eq).
  assert (Hsysf : forall k, _is_submodule key k = true -> sys_modules bf !! k = None).
  { intros k Hk. rewrite F5, Hname, Hk. destruct (decide _); reflexivity. }
  destruct (load_extension imp bf key None) as [b3 [e3|]] eqn:Hload; [|discriminate].
  destruct (failed_load_from_clean imp key bf b b3 e3 Hdot Hclean Hwff Hextf Hsysf
              Hnew Hload) as (Hsim3 & Hext3 & Hsys3).
  assert (Hsim : similar bu b3).
  { apply similar_sym. eapply similar_trans; [exact Hsim3|exact Hfu]. }
  destruct (run_script_similar setup bu b3 Hsim) as [Hs He].
  destruct (run_script_modules setup b3) as [Hm1 Hm2].
  fold bu in Hrun. rewrite Hrun in Hs, He. cbn [fst snd] in Hs, He.
  destruct (run_script setup b3) as [b4 [e4|]]; [discriminate|].
  cbn [fst] in Hs, Hm1, Hm2.
  intros [= <- _].
  assert (Hsim4 : similar b4 b).
  { eapply similar_trans; [apply similar_sym, Hs|exact Hbr]. }
  destruct Hsim4 as (S1 & S2 & S3).
  split; [|split; [|split; [|split]]]; cbn.
  - rewrite Hm1, Hext3, F4. destruct (strip_modules key b) as [Hsm _].
    fold bu in Hsm. rewrite Hsm, insert_delete_eq. apply insert_id, Hext.
  - exact S1.
  - exact S2.
  - exact S3.
  - unfold cached_under. cbn. apply map_eq. intros k.
    rewrite Hm2.
    destruct (_is_submodule key k) eqn:Hk.
    + assert (Hfilter : forall m : gmap string PyModule,
                filter (fun '(module_name, _) => _is_submodule key module_name) m !! k
                = m !! k).
      { intros m. destruct (m !! k) as [v|] eqn:E.
        - apply map_lookup_filter_Some. split; [exact E|]. cbn. rewrite Hk. exact I.
        - apply map_lookup_filter_None. left. exact E. }
      rewrite !Hfilter, lookup_union, Hfilter.
      destruct (sys_modules b !! k) as [v|] eqn:E.
      * destruct (sys_modules b3 !! k); reflexivity.
      * destruct (Hsys3 k Hk) as [->|[v Hv]]; [reflexivity|congruence].
    + assert (Hfilter : forall m : gmap string PyModule,
                filter (fun '(module_name, _) => _is_submodule key module_name) m !! k
                = None).
      { intros m. apply map_lookup_filter_None. right. intros v _. cbn. rewrite Hk.
        intros []. }
      rewrite !Hfilter. reflexivity.
Qed.

Lemma failed_reload_rolls_back_witness :
  same_state "ext"
    (fst (reload_extension (importer ext_partial) ext_loaded "ext" None))
    ext_loaded.
Proof.
  apply (failed_reload_rolls_back (importer ext_partial) ext_loaded "ext" None "ext"
           (mkModule "ext" (Some [AddListener ext_listener None]) None)
           [AddListener ext_listener None]
           (fst (reload_extension (importer ext_partial) ext_loaded "ext" None))
           (ExtensionFailed "ext" boom)).
  - reflexivity.
  - reflexivity.
  - vm_compute. reflexivity.
  - reflexivity.
  - reflexivity.
  - intros n cmd H. vm_compute in H. discriminate.
  - exact I.
  - unfold reimport_is_clean. cbn. split; [reflexivity|]. split; [exact I|].
    intros _ k _. left. apply lookup_empty.
  - eexists. split; [vm_compute; reflexivity|].
    split; [vm_compute; reflexivity|]. split; [vm_compute; reflexivity|].
    intros ev. apply same_events_listeners. vm_compute. reflexivity.
  - vm_compute. reflexivity.
Defined.

End ExtensionFacts.

(** * Further results *)

(** ** Conversion, comparison and registration of command schemas *)

Module ConversionFacts.
Import Schema SchemaFacts.
#[local] Open Scope list_scope.

Lemma existsb_map {A B : Type} (f : A -> B) (p : B -> bool) (l : list A) :
  existsb p (map f l) = existsb (fun x => p (f x)) l.
Proof. induction l as [|x l IH]; [reflexivity|]; cbn. rewrite IH. reflexivity. Qed.

Lemma forallb_map {A B : Type} (f : A -> B) (p : B -> bool) (l : list A) :
  forallb p (map f l) = forallb (fun x => p (f x)) l.
Proof. induction l as [|x l IH]; [reflexivity|]; cbn. rewrite IH. reflexivity. Qed.

Section Facts.
Context {py : PyBuiltins}.

(** *** [_check_choices] *)

(** X2. [_check_choices] holds exactly when each list has, for every choice
    of the other, a choice of the same name and value: order and
    repetitions do not count, and the two tests for emptiness change
    nothing. *)
Theorem check_choices_is_mutual_inclusion (current new : list Choice) :
  _check_choices current new = true <->
  (forall j, In j current -> exists i, In i new /\ same_choice i j = true)
  /\ (forall i, In i new -> exists j, In j current /\ same_choice i j = true).
Proof.
  assert (Hgen :
    forallb (fun j => existsb (fun i => same_choice i j) new) current
    && forallb (fun i => existsb (fun j => same_choice i j) current) new = true <->
    (forall j, In j current -> exists i, In i new /\ same_choice i j = true)
    /\ (forall i, In i new -> exists j, In j current /\ same_choice i j = true)).
  { rewrite andb_true_iff, !forallb_forall.
    split; intros [H1 H2]; (split; [intros j Hj|intros i Hi]).
    - apply H1, existsb_exists in Hj. exact Hj.
    - apply H2, existsb_exists in Hi. exact Hi.
    - apply existsb_exists, H1, Hj.
    - apply existsb_exists, H2, Hi. }
  unfold _check_choices.
  destruct current as [|j0 current], new as [|i0 new]; cbn [is_empty negb andb orb].
  - split; [intros _|reflexivity]. split; intros x [].
  - split; [discriminate|]. intros [_ H].
    destruct (H i0 (or_introl eq_refl)) as (j & [] & _).
  - split; [discriminate|]. intros [H _].
    destruct (H j0 (or_introl eq_refl)) as (i & [] & _).
  - exact Hgen.
Qed.

(** *** The branch of [_check_options] for nested options *)

Lemma check_nested_name_and_options (i : Opt) (current : list Opt) :
  check_nested (name_and_options i) current = check_nested i current.
Proof. destruct i as [t n d r c [options|] p]; reflexivity. Qed.

Lemma find_map_same {A : Type} (f : A -> A) (test : A -> bool) (l : list A) :
  (forall x, test (f x) = test x) ->
  List.find test (map f l) = option_map f (List.find test l).
Proof.
  intros H. induction l as [|x l IH]; [reflexivity|]; cbn.
  rewrite H. destruct (test x); [reflexivity|exact IH].
Qed.

Lemma options_by_name_name_and_options (current : list Opt) (name : option string) :
  options_by_name (map name_and_options current) name = options_by_name current name.
Proof.
  unfold options_by_name. rewrite <- map_rev.
  rewrite (find_map_same name_and_options) by (intros x; reflexivity).
  destruct (List.find _ (rev current)) as [c|]; reflexivity.
Qed.

Lemma is_empty_map {A B : Type} (f : A -> B) (l : list A) :
  is_empty (map f l) = is_empty l.
Proof. destruct l; reflexivity. Qed.

(** X3. When an option of [new] has nested options, the comparison reads
    nothing but the names and the nested options of the two lists:
    descriptions, types, choices and permissions at that level are not
    compared. *)
Theorem nested_comparison_reads_names_only (current new : list Opt) :
  existsb (fun i => negb (is_empty (get_options i))) new = true ->
  _check_options current new
  = _check_options (map name_and_options current) (map name_and_options new).
Proof.
  intros Hnested. unfold _check_options, check_options_body.
  rewrite !is_empty_map.
  destruct (_ || _); [reflexivity|].
  destruct (is_empty new && is_empty current); [reflexivity|].
  rewrite existsb_map.
  rewrite (existsb_ext_in
             (fun x => negb (is_empty (get_options (name_and_options x))))
             (fun i => negb (is_empty (get_options i))) new)
    by (intros x _; reflexivity).
  rewrite Hnested. rewrite forallb_map.
  apply forallb_ext_in. intros i _.
  rewrite check_nested_name_and_options, options_by_name_name_and_options.
  reflexivity.
Qed.

(** *** The range of [_convert_param] *)

Lemma mapM_Forall {A B : Type} (f : A -> res B) (P : B -> Prop) (l : list A)
    (out : list B) :
  (forall x y, f x = Ok y -> P y) ->
  mapM f l = Ok out -> Forall P out /\ length out = length l.
Proof.
  intros Hf. revert out. induction l as [|x l IH]; cbn [mapM]; intros out H.
  - injection H as <-. split; [constructor|reflexivity].
  - destruct (f x) as [y|e] eqn:Ey; cbn [bind] in H; [|discriminate].
    destruct (mapM f l) as [ys|e] eqn:Eys; cbn [bind] in H; [|discriminate].
    injection H as <-. destruct (IH ys eq_refl) as [HP Hlen].
    split; [constructor; [exact (Hf x y Ey)|exact HP]|cbn; rewrite Hlen; reflexivity].
Qed.

Lemma str_choices_typed (l : list Lit) :
  Forall (choice_of_type 3%Z)
         (map (fun i => mkChoice (Some (py_str i)) (Some (VStr (py_str i)))) l).
Proof.
  apply List.Forall_forall. intros c Hc. apply in_map_iff in Hc as (i & <- & _).
  split; [eexists; reflexivity|reflexivity].
Qed.

Lemma literal_choices_range (args : list Lit) (t : Z) (choices : list Choice) :
  literal_choices args = Ok (Some (WithChoices t choices)) ->
  In t [3; 4; 10]%Z /\ length choices = length args /\ args <> []
  /\ Forall (choice_of_type t) choices.
Proof.
  unfold literal_choices. destruct args as [|a0 args]; [discriminate|].
  set (l := a0 :: args).
  assert (Hne : l <> []) by discriminate.
  destruct (is_str a0).
  { intros H. injection H as <- <-. split; [left; reflexivity|].
    split; [exact (length_map _ l)|]. split; [exact Hne|].
    exact (str_choices_typed l). }
  destruct (is_int a0).
  { destruct (mapM _ l) as [cs|e] eqn:Ecs; cbn [bind]; [|discriminate].
    intros H. injection H as <- <-. split; [right; left; reflexivity|].
    apply mapM_Forall with (P := choice_of_type 4%Z) in Ecs as [HP Hlen].
    - repeat split; assumption.
    - intros i c Hc. destruct (py_int i) as [v|e]; cbn [bind] in Hc; [|discriminate].
      injection Hc as <-. split; [eexists; reflexivity|reflexivity]. }
  destruct (is_float a0); [|discriminate].
  destruct (mapM _ l) as [cs|e] eqn:Ecs; cbn [bind]; [|discriminate].
  intros H. injection H as <- <-. split; [right; right; left; reflexivity|].
  apply mapM_Forall with (P := choice_of_type 10%Z) in Ecs as [HP Hlen].
  - repeat split; assumption.
  - intros i c Hc. destruct (py_float i) as [v|e]; cbn [bind] in Hc; [|discriminate].
    injection Hc as <-. split; [eexists; reflexivity|reflexivity].
Qed.

Lemma literal_choices_plain (args : list Lit) (t : Z) :
  literal_choices args <> Ok (Some (Plain t)).
Proof.
  unfold literal_choices. destruct args as [|a0 args]; [discriminate|].
  destruct (is_str a0); [discriminate|].
  destruct (is_int a0); [destruct (mapM _ _); discriminate|].
  destruct (is_float a0); [destruct (mapM _ _); discriminate|discriminate].
Qed.

Lemma convert_type_range (t : PyType) :
  In (_convert_application_command_option_type t) value_types.
Proof. destruct t; cbn; tauto. Qed.

Lemma convert_object_range (a : Annotation) : In (convert_object a) value_types.
Proof. destruct a; try apply convert_type_range; cbn; tauto. Qed.

Lemma merge_types_range (types : list Z) (t : Z) :
  Forall (fun x => In x value_types) types ->
  merge_types types = Ok t -> In t value_types.
Proof.
  unfold merge_types. destruct types as [|t0 types]; [discriminate|].
  intros Hall. assert (H0 : In t0 value_types) by (inversion Hall; assumption).
  destruct (forallb _ _); [intros H; injection H as <-; exact H0|].
  destruct (forallb _ _); [intros H; injection H as <-; cbn; tauto|].
  destruct (forallb _ _); intros H; injection H as <-; cbn; tauto.
Qed.

Lemma all_threes (A : Type) (l : list A) :
  l <> [] -> merge_types (map (fun _ => 3%Z) l) = Ok 3%Z.
Proof.
  destruct l as [|x l]; [congruence|]; intros _. unfold merge_types; cbn [map].
  replace (forallb (fun i => (i =? 3)%Z) (3%Z :: map (fun _ => 3%Z) l)) with true;
    [reflexivity|].
  symmetry. apply forallb_forall. intros y [<-|Hy]; [reflexivity|].
  apply in_map_iff in Hy as (_ & <- & _). reflexivity.
Qed.

Lemma literal_result_range (args : list Lit) (r : option ParamType) (fallback : Z) :
  literal_choices args = Ok r -> In fallback value_types ->
  converted_well (match r with Some t => t | None => Plain fallback end).
Proof.
  intros H Hf. destruct r as [[t|t choices]|]; cbn.
  - destruct (literal_choices_plain _ _ H).
  - apply literal_choices_range in H as (Ht & Hlen & Hne & Hall).
    split; [exact Ht|]. split; [|exact Hall].
    intros ->. destruct args; [congruence|discriminate].
  - exact Hf.
Qed.

Lemma convert_param_well (annotation : Annotation) (r : ParamType) :
  _convert_param annotation = Ok r -> converted_well r.
Proof.
  assert (Hthree : In 3%Z value_types) by (cbn; tauto).
  assert (Hplain : forall args t,
             merge_types (map convert_object args) = Ok t -> In t value_types).
  { intros args t. apply merge_types_range. apply List.Forall_forall.
    intros x Hx. apply in_map_iff in Hx as (a & <- & _). apply convert_object_range. }
  assert (Hmerge : forall args,
             (let* t := merge_types (map convert_object args) in Ok (Plain t)) = Ok r ->
             converted_well r).
  { intros args H. destruct (merge_types _) as [t|e] eqn:Et; cbn [bind] in H; [|discriminate].
    injection H as <-. exact (Hplain _ _ Et). }
  destruct annotation as [|t|args|args|q]; cbn [_convert_param].
  - intros H. injection H as <-. exact Hthree.
  - intros H. injection H as <-. apply convert_type_range.
  - destruct ((length args =? 2)%nat && existsb is_literal args); [|apply Hmerge].
    destruct (List.find is_literal args) as [[|t|a|largs|q]|]; try apply Hmerge.
    destruct (literal_choices largs) as [[r'|]|e] eqn:El; cbn [bind]; [| |discriminate].
    + intros H. injection H as <-.
      exact (literal_result_range largs (Some r') 3%Z El Hthree).
    + intros H. destruct (merge_types _) as [t|e] eqn:Et; cbn [bind] in H; [|discriminate].
      injection H as <-. apply merge_types_range in Et; [exact Et|].
      apply List.Forall_forall. intros x Hx. apply in_map_iff in Hx as (_ & <- & _).
      exact Hthree.
  - destruct (literal_choices args) as [[r'|]|e] eqn:El; cbn [bind]; [| |discriminate].
    + intros H. injection H as <-.
      exact (literal_result_range args (Some r') 3%Z El Hthree).
    + intros H. injection H as <-. exact Hthree.
  - intros H. injection H as <-. exact Hthree.
Qed.

(** X4. A conversion that returns gives a value type between 3 and 10; when
    it gives choices, the type is 3, 4 or 10, there is at least one choice,
    and every choice has a name and a value of that type.  For a [Literal]
    there is one choice per value. *)
Theorem convert_param_range (annotation : Annotation) (r : ParamType) :
  _convert_param annotation = Ok r ->
  converted_well r
  /\ (forall args t choices,
        annotation = ALiteral args -> r = WithChoices t choices ->
        length choices = length args).
Proof.
  intros H. split; [exact (convert_param_well _ _ H)|].
  intros args t choices -> ->. cbn [_convert_param] in H.
  destruct (literal_choices args) as [[r'|]|e] eqn:El; cbn [bind] in H; try discriminate.
  injection H as ->. apply literal_choices_range in El. tauto.
Qed.

(** X5. In a union of two members one of which is a [Literal], the other
    member is not looked at: the conversion is that of the [Literal]
    alone. *)
Theorem union_with_literal_is_the_literal (largs : list Lit) (other : Annotation) :
  is_literal other = false ->
  _convert_param (AUnion [ALiteral largs; other]) = _convert_param (ALiteral largs)
  /\ _convert_param (AUnion [other; ALiteral largs]) = _convert_param (ALiteral largs).
Proof.
  intros Hother.
  assert (H : (let* r := literal_choices largs in
              match r with
              | Some t => Ok t
              | None => let* t := merge_types (map (fun _ => 3%Z) largs) in Ok (Plain t)
              end) = _convert_param (ALiteral largs)).
  { cbn [_convert_param].
    destruct (literal_choices largs) as [[r|]|e] eqn:El; cbn [bind]; try reflexivity.
    rewrite all_threes; [reflexivity|].
    intros ->. discriminate. }
  split.
  - cbn [_convert_param length Nat.eqb existsb is_literal orb andb List.find].
    exact H.
  - cbn [_convert_param length Nat.eqb existsb List.find].
    rewrite Hother. cbn [is_literal orb andb]. exact H.
Qed.

(** *** The options of a command *)

Lemma param_option_shape (descriptions : gmap string string) (entry : string * Param)
    (o : Opt) :
  param_option descriptions entry = Ok o ->
  (o_name o, o_required o) = param_signature entry
  /\ o_description o = Some (default no_description (descriptions !! fst entry))
  /\ is_value_option o.
Proof.
  destruct entry as [name param]. unfold param_option, param_signature; cbn [fst snd].
  destruct (_convert_param (annotation param)) as [type_|e] eqn:Et; cbn [bind];
    [|discriminate].
  apply convert_param_well in Et.
  intros H. injection H as <-.
  destruct (default_is_empty param), type_ as [t|t choices]; cbn in *;
    (split; [reflexivity|]; split; [reflexivity|]; split; [|split; [eexists; reflexivity|reflexivity]]);
    exists t; (split; [reflexivity|]); try exact Et;
    destruct Et as [[<-|[<-|[<-|[]]]] _]; cbn; tauto.
Qed.

Lemma leaf_options_shape (name : string) (has_cog : bool)
    (params : list (string * Param)) (descriptions : gmap string string)
    (options : list Opt) :
  leaf_options name has_cog params descriptions = Ok options ->
  let rest := skipn (if has_cog then 2 else 1) params in
  map (fun o => (o_name o, o_required o)) options = map param_signature rest
  /\ map o_description options =
     map (fun entry => Some (default no_description (descriptions !! fst entry))) rest
  /\ Forall is_value_option options.
Proof.
  assert (Hmap : forall rest options,
             mapM (param_option descriptions) rest = Ok options ->
             map (fun o => (o_name o, o_required o)) options = map param_signature rest
             /\ map o_description options =
                map (fun entry => Some (default no_description (descriptions !! fst entry)))
                    rest
             /\ Forall is_value_option options).
  { clear. intros rest. induction rest as [|entry rest IH]; cbn [mapM]; intros options H.
    - injection H as <-. repeat split. constructor.
    - destruct (param_option descriptions entry) as [o|e] eqn:Eo; cbn [bind] in H;
        [|discriminate].
      destruct (mapM _ rest) as [os|e] eqn:Eos; cbn [bind] in H; [|discriminate].
      injection H as <-.
      destruct (param_option_shape _ _ _ Eo) as (H1 & H2 & H3).
      destruct (IH os eq_refl) as (G1 & G2 & G3).
      cbn [map]. rewrite H1, H2, G1, G2. repeat split. constructor; assumption. }
  unfold leaf_options. destruct has_cog.
  - destruct params as [|self [|ctx rest]]; cbn [bind]; try discriminate.
    cbn [skipn]. apply Hmap.
  - destruct params as [|ctx rest]; cbn [bind]; try discriminate.
    cbn [skipn]. apply Hmap.
Qed.

(** The recursion of the source, as an equation. *)
Lemma _convert_options_unfold (command : Command) (group : Z) :
  _convert_options command group =
  if cmd_is_group command && negb (group =? 1)%Z
  then group_options _convert_options group (cmd_commands command)
  else leaf_options (cmd_name command) (cmd_has_cog command)
                    (cmd_params command) (cmd_descriptions command).
Proof.
  destruct command as [name brief type_ is_group commands params has_cog descriptions].
  cbn [_convert_options cmd_is_group cmd_commands cmd_name cmd_has_cog cmd_params
       cmd_descriptions].
  destruct (is_group && negb (group =? 1)%Z); [|reflexivity].
  induction commands as [|com commands IH]; [reflexivity|].
  cbn [group_options]. rewrite <- IH. reflexivity.
Qed.

Lemma leaf_at_depth_one (command : Command) :
  _convert_options command 1 =
  leaf_options (cmd_name command) (cmd_has_cog command)
               (cmd_params command) (cmd_descriptions command).
Proof. rewrite _convert_options_unfold, andb_false_r. reflexivity. Qed.

(** X6. For a command that is no group, or below a sub-command group, the
    options are the parameters that follow [ctx] (and [self] for a command
    of a cog), in order: same names, ["required": True] exactly for those
    without a default, the registered description or the placeholder. *)
Theorem options_mirror_parameters (command : Command) (group : Z)
    (options : list Opt) :
  cmd_is_group command = false \/ group = 1%Z ->
  _convert_options command group = Ok options ->
  map (fun o => (o_name o, o_required o)) options
  = map param_signature (user_params command)
  /\ map o_description options =
     map (fun entry =>
            Some (default no_description (cmd_descriptions command !! fst entry)))
         (user_params command).
Proof.
  intros Hleaf H. rewrite _convert_options_unfold in H.
  replace (cmd_is_group command && negb (group =? 1)%Z) with false in H.
  - apply leaf_options_shape in H. unfold user_params. tauto.
  - destruct Hleaf as [->| ->]; [reflexivity|]. rewrite andb_false_r. reflexivity.
Qed.

Lemma sub_commands_shape (commands : list Command) (group : Z) (options : list Opt) :
  group <> 0%Z ->
  group_options _convert_options group commands = Ok options ->
  Forall is_sub_command options.
Proof.
  intros Hg. revert options.
  induction commands as [|com commands IH]; cbn [group_options]; intros options H.
  - injection H as <-. constructor.
  - destruct (is_application_command (cmd_type com)) as [[|]|e]; cbn [bind] in H;
      [| |discriminate].
    + replace ((group =? 0)%Z && cmd_is_group com) with false in H
        by (symmetry; apply andb_false_iff; left; apply Z.eqb_neq; exact Hg).
      rewrite leaf_at_depth_one in H.
      destruct (leaf_options _ _ _ _) as [opt|e] eqn:Eopt; cbn [bind] in H; [|discriminate].
      destruct (group_options _ group commands) as [os|e] eqn:Eos; cbn [bind] in H;
        [|discriminate].
      injection H as <-. constructor; [|apply IH; reflexivity].
      split; [reflexivity|]. apply leaf_options_shape in Eopt as (_ & _ & Hall).
      unfold get_options; cbn. destruct opt; [constructor|exact Hall].
    + apply IH. exact H.
Qed.

(** X7. The options of [_convert_options command 0] nest at most two levels
    deep: for a group they are sub-commands (type 1) holding value options
    or sub-command groups (type 2) holding such sub-commands; for another
    command they are value options. *)
Theorem options_nest_two_levels (command : Command) (options : list Opt) :
  _convert_options command 0 = Ok options ->
  if cmd_is_group command
  then Forall (fun o => is_sub_command o \/ is_sub_command_group o) options
  else Forall is_value_option options.
Proof.
  rewrite _convert_options_unfold. cbn [Z.eqb negb]. rewrite andb_true_r.
  destruct (cmd_is_group command).
  - generalize (cmd_commands command). intros commands. revert options.
    induction commands as [|com commands IH]; cbn [group_options]; intros options H.
    + injection H as <-. constructor.
    + destruct (is_application_command (cmd_type com)) as [[|]|e]; cbn [bind] in H;
        [| |discriminate].
      * cbn [Z.eqb andb] in H.
        destruct (_convert_options com _) as [opt|e] eqn:Eopt; cbn [bind] in H;
          [|discriminate].
        destruct (group_options _ 0 commands) as [os|e] eqn:Eos; cbn [bind] in H;
          [|discriminate].
        injection H as <-. constructor; [|apply IH; reflexivity].
        assert (Hget : get_options
                         (mkOpt (Some (if cmd_is_group com then 2 else 1)%Z)
                                (Some (cmd_name com))
                                (Some (brief_or_default (cmd_brief com))) None None
                                (match opt with [] => None | _ => Some opt end) None)
                       = opt) by (destruct opt; reflexivity).
        destruct (cmd_is_group com) eqn:Eg.
        -- right. split; [reflexivity|]. rewrite Hget.
           rewrite _convert_options_unfold, Eg in Eopt. cbn in Eopt.
           apply sub_commands_shape in Eopt; [exact Eopt|discriminate].
        -- left. split; [reflexivity|]. rewrite Hget.
           rewrite leaf_at_depth_one in Eopt.
           apply leaf_options_shape in Eopt. tauto.
      * apply IH. exact H.
  - intros H. apply leaf_options_shape in H. tauto.
Qed.

(** *** Registration *)

Lemma type_entries_names (command : Command) (options : list Opt) :
  map (fun d => (entry_name d, entry_type d)) (type_entries command options)
  = map (pair (cmd_name command))
        (List.filter (fun t => negb (is_default t)) (cmd_type command)).
Proof.
  unfold type_entries. induction (cmd_type command) as [|t ts IH]; [reflexivity|].
  cbn [flat_map List.filter]. rewrite map_app, IH. destruct t; reflexivity.
Qed.

Lemma not_application_command (type_ : list CommandType) :
  is_application_command type_ = Ok false ->
  List.filter (fun t => negb (is_default t)) type_ = [].
Proof.
  unfold is_application_command. destruct type_ as [|t [|t' ts]]; cbn; try discriminate.
  destruct t; try discriminate. reflexivity.
Qed.

(** X8. The entries sent are, command by command in the order of
    [self.commands], one per type of the command other than the default
    type, in the order of [command.type]; a command that only has the
    default type has none; and the entry of a slash command carries the
    options that [_convert_options] gives for it. *)
Theorem command_data_lists_application_types
    (commands : list Command) (data : list CommandData) :
  command_data commands = Ok data ->
  map (fun d => (entry_name d, entry_type d)) data
  = flat_map (fun c => map (pair (cmd_name c))
                           (List.filter (fun t => negb (is_default t)) (cmd_type c)))
             commands
  /\ (forall name description options type_,
        In (SlashCommand name description options type_) data ->
        exists c, In c commands /\ name = cmd_name c
                  /\ description = brief_or_default (cmd_brief c)
                  /\ _convert_options c 0 = Ok options
                  /\ type_ = ct_chat_input).
Proof.
  revert data. induction commands as [|c commands IH]; cbn [command_data]; intros data H.
  - injection H as <-. split; [reflexivity|]. intros ? ? ? ? [].
  - destruct (is_application_command (cmd_type c)) as [[|]|e] eqn:Eapp; cbn [bind] in H;
      [| |discriminate].
    + destruct (_convert_options c 0) as [options|e] eqn:Eopt; cbn [bind] in H;
        [|discriminate].
      destruct (command_data commands) as [rest|e] eqn:Erest; cbn [bind] in H;
        [|discriminate].
      injection H as <-. destruct (IH rest eq_refl) as [IH1 IH2]. split.
      * cbn [flat_map]. rewrite map_app, type_entries_names, IH1. reflexivity.
      * intros name description options' type_ Hin. apply in_app_or in Hin as [Hin|Hin].
        -- exists c. split; [left; reflexivity|].
           unfold type_entries in Hin. apply in_flat_map in Hin as (t & _ & Hin).
           destruct t; cbn in Hin; [destruct Hin| | |];
             (destruct Hin as [Hin|[]]); try discriminate.
           injection Hin as <- <- <- <-. repeat split. exact Eopt.
        -- destruct (IH2 _ _ _ _ Hin) as (c' & Hc' & Hrest).
           exists c'. split; [right; exact Hc'|exact Hrest].
    + destruct (IH data H) as [IH1 IH2]. split.
      * cbn [flat_map]. rewrite (not_application_command _ Eapp). exact IH1.
      * intros name description options type_ Hin.
        destruct (IH2 _ _ _ _ Hin) as (c' & Hc' & Hrest).
        exists c'. split; [right; exact Hc'|exact Hrest].
Qed.

(** X9. One application command whose options cannot be derived keeps every
    command from being registered: [register_application_commands] raises
    before any request is made. *)
Theorem one_bad_command_blocks_registration
    (bot : Bot) (command : Command) (e : Exn) :
  In command (commands bot) ->
  is_application_command (cmd_type command) = Ok true ->
  _convert_options command 0 = Raise e ->
  exists e', register_application_commands bot = Raise e'.
Proof.
  intros Hin Happ Hbad. unfold register_application_commands.
  assert (H : exists e', command_data (commands bot) = Raise e').
  { revert Hin. generalize (commands bot). intros commands.
    induction commands as [|c commands IH]; intros Hin; [destruct Hin|].
    cbn [command_data]. destruct Hin as [->|Hin].
    - rewrite Happ, Hbad. cbn [bind]. eexists; reflexivity.
    - destruct (IH Hin) as [e' He'].
      destruct (is_application_command (cmd_type c)) as [[|]|e0]; cbn [bind].
      + destruct (_convert_options c 0) as [options|e1]; cbn [bind];
          [|eexists; reflexivity].
        rewrite He'. cbn [bind]. eexists; reflexivity.
      + exists e'. exact He'.
      + eexists; reflexivity. }
  destruct H as [e' He']. rewrite He'. cbn [bind leave_coroutine].
  destruct e'; eexists; reflexivity.
Qed.

End Facts.

Lemma nested_comparison_reads_names_only_witness :
  _check_options (py:=integral_floats) tree_A tree_B
  = _check_options (py:=integral_floats)
      (map name_and_options tree_A) (map name_and_options tree_B).
Proof.
  apply (nested_comparison_reads_names_only (py:=integral_floats) tree_A tree_B).
  reflexivity.
Defined.

Lemma convert_param_range_witness :
  converted_well (py:=integral_floats) (WithChoices 3 abc_choices)
  /\ (forall (args : list (@Lit integral_floats)) t
             (choices : list (@Choice integral_floats)),
        abc = ALiteral args ->
        WithChoices 3 abc_choices = WithChoices t choices ->
        length choices = length args).
Proof.
  apply (convert_param_range (py:=integral_floats) abc (WithChoices 3 abc_choices)).
  reflexivity.
Defined.

Lemma union_with_literal_is_the_literal_witness :
  _convert_param (py:=integral_floats) (AUnion [abc; AClass TInt]) = _convert_param abc
  /\ _convert_param (py:=integral_floats) (AUnion [AClass TInt; abc]) = _convert_param abc.
Proof.
  apply (union_with_literal_is_the_literal (py:=integral_floats)
           [LStr "a"; LStr "b"; LStr "c"] (AClass TInt)).
  reflexivity.
Defined.

Lemma options_mirror_parameters_witness :
  exists options,
    _convert_options (py:=integral_floats) ban 0 = Ok options
    /\ map (fun o => (o_name o, o_required o)) options
       = [(Some "user", Some true); (Some "reason", None)]
    /\ map o_description options = [Some no_description; Some "Why"].
Proof.
  eexists. split; [reflexivity|].
  apply (options_mirror_parameters (py:=integral_floats) ban 0).
  - left. reflexivity.
  - reflexivity.
Defined.

Lemma options_nest_two_levels_witness :
  exists options,
    _convert_options (py:=integral_floats) admin 0 = Ok options
    /\ Forall (fun o => is_sub_command o \/ is_sub_command_group o) options.
Proof.
  eexists. split; [reflexivity|].
  exact (options_nest_two_levels (py:=integral_floats) admin _ eq_refl).
Defined.

Lemma command_data_lists_application_types_witness :
  exists data,
    command_data (py:=integral_floats) [pick_command false; ban] = Ok data
    /\ map (fun d => (entry_name d, entry_type d)) data
       = [("choose", ct_chat_input); ("ban", ct_chat_input); ("ban", ct_user)].
Proof.
  eexists. split; [reflexivity|].
  apply (command_data_lists_application_types (py:=integral_floats)
           [pick_command false; ban]).
  reflexivity.
Defined.

Lemma one_bad_command_blocks_registration_witness :
  exists e,
    register_application_commands (py:=integral_floats)
      (mkBot [ban; bare] false None (Some 1%Z)) = Raise e.
Proof.
  eapply (one_bad_command_blocks_registration (py:=integral_floats)
            (mkBot [ban; bare] false None (Some 1%Z)) bare).
  - right. left. reflexivity.
  - reflexivity.
  - reflexivity.
Defined.

End ConversionFacts.


(** ** Contexts of messages *)

Module ContextFacts.
Import Prefix.
#[local] Open Scope list_scope.

(** *** Strings *)

Lemma prefix_app (p s : string) : String.prefix p (p ++ s)%string = true.
Proof. apply ExtensionFacts.prefix_true_iff. exists s. reflexivity. Qed.

Lemma string_length_app (a b : string) :
  String.length (a ++ b)%string = String.length a + String.length b.
Proof.
  induction a as [|x a IH]; [reflexivity|].
  change (S (String.length (a ++ b)%string) = S (String.length a + String.length b)).
  rewrite IH. reflexivity.
Qed.

Lemma substring_skip (p s : string) (n : nat) :
  substring (String.length p) n (p ++ s)%string = substring 0 n s.
Proof. induction p as [|x p IH]; [reflexivity|exact IH]. Qed.

Lemma substring_head (w tail : string) :
  substring 0 (String.length w) (w ++ tail)%string = w.
Proof.
  induction w as [|x w IH].
  - destruct tail; reflexivity.
  - change (String x (substring 0 (String.length w) (w ++ tail)%string) = String x w).
    rewrite IH. reflexivity.
Qed.

Lemma substring_whole (s : string) : substring 0 (String.length s) s = s.
Proof. induction s as [|x s IH]; [reflexivity|]; cbn. rewrite IH. reflexivity. Qed.

Lemma rest_after (p s : string) :
  rest (mkView (p ++ s)%string (String.length p)) = s.
Proof.
  unfold rest, slice; cbn [buffer index]. rewrite string_length_app.
  replace (String.length p + String.length s - String.length p) with (String.length s)
    by lia.
  rewrite substring_skip. apply substring_whole.
Qed.

Lemma count_while_run (f : ascii -> bool) (w tail : string) :
  Forall (fun c => f c = true) (list_ascii_of_string w) ->
  match tail with
  | EmptyString => True
  | String c _ => f c = false
  end ->
  count_while f (w ++ tail)%string = String.length w.
Proof.
  intros Hw Htail. induction w as [|x w IH].
  - destruct tail as [|c tail]; [reflexivity|].
    change (count_while f (String c tail) = 0). cbn. rewrite Htail. reflexivity.
  - cbn in Hw. inversion Hw as [|? ? Hx Hrest]; subst.
    change ((if f x then S (count_while f (w ++ tail)%string) else 0)
            = S (String.length w)).
    rewrite Hx, IH by exact Hrest. reflexivity.
Qed.

(** Reading a word at the cursor. *)
Lemma get_word_at (q w tail : string) :
  is_word w -> ends_word tail ->
  get_word (mkView (q ++ w ++ tail)%string (String.length q))
  = (w, mkView (q ++ w ++ tail)%string (String.length q + String.length w)).
Proof.
  intros Hw Htail. unfold get_word. rewrite rest_after.
  rewrite (count_while_run (fun c => negb (isspace c)) w tail).
  - unfold slice; cbn [buffer index].
    replace (String.length q + String.length w - String.length q) with (String.length w)
      by lia.
    rewrite substring_skip, substring_head. reflexivity.
  - unfold is_word in Hw. rewrite List.Forall_forall in *. intros c Hc.
    rewrite (Hw c Hc). reflexivity.
  - destruct tail as [|c tail]; [exact I|]. cbn in Htail. rewrite Htail. reflexivity.
Qed.

(** Skipping whitespace at the cursor. *)
Lemma skip_ws_at (q ws s : string) :
  is_blank ws ->
  match s with
  | EmptyString => True
  | String c _ => isspace c = false
  end ->
  skip_ws (mkView (q ++ ws ++ s)%string (String.length q))
  = mkView (q ++ ws ++ s)%string (String.length q + String.length ws).
Proof.
  intros Hws Hs. unfold skip_ws. rewrite rest_after.
  rewrite (count_while_run isspace ws s Hws Hs). reflexivity.
Qed.

(** *** The prefix a context is built with *)

Section WithCommand.
Context {Command : Type}.

Lemma startswith_any_selected (content p : string) (before : list string)
    (after : list Element) :
  String.prefix p content = true ->
  startswith_any content (map EStr before ++ EStr p :: after) = Ok true.
Proof.
  intros Hp. induction before as [|q before IH]; cbn.
  - rewrite Hp. reflexivity.
  - destruct (String.prefix q content); [reflexivity|exact IH].
Qed.

Lemma find_skip_string_selected (content p : string) (before : list string)
    (after : list Element) :
  Forall (fun q => String.prefix q content = false) before ->
  String.prefix p content = true ->
  find_skip_string (new_view content) (map EStr before ++ EStr p :: after)
  = Ok (Some p, mkView content (String.length p)).
Proof.
  intros Hb Hp. induction Hb as [|q before Hq _ IH]; cbn [app map find_skip_string].
  - rewrite PrefixFacts.skip_string_start, Hp. reflexivity.
  - rewrite PrefixFacts.skip_string_start, Hq. exact IH.
Qed.

Lemma startswith_any_none (content : string) (before : list string) :
  Forall (fun q => String.prefix q content = false) before ->
  forall tail result,
    startswith_any content tail = result ->
    startswith_any content (map EStr before ++ tail) = result.
Proof.
  intros Hb tail result Ht. induction Hb as [|q before Hq _ IH]; cbn; [exact Ht|].
  rewrite Hq. exact IH.
Qed.

(** What [get_context] does once the prefix is settled. *)
Lemma get_context_selected (bot : Bot Command) (message : Message)
    (prefixes : Prefixes) (p : string) :
  author_id message <> user_id bot ->
  get_prefix bot message = Ok prefixes ->
  selects prefixes (content message) p ->
  get_context bot message =
  let view := mkView (content message) (String.length p) in
  let view := if strip_after_prefix bot then skip_ws view else view in
  Ok (mkContext (Some p) (snd (get_word view)) (Some (fst (get_word view)))
                (all_commands bot !! fst (get_word view))).
Proof.
  intros Hauthor Hprefix [Hp Hsel]. unfold get_context.
  destruct (Z.eqb_spec (author_id message) (user_id bot)) as [E|_]; [contradiction|].
  rewrite Hprefix; cbn [bind].
  destruct prefixes as [s|l].
  - subst s. rewrite PrefixFacts.skip_string_start, Hp.
    destruct (get_word _) as [invoker view]. reflexivity.
  - destruct Hsel as (before & after & -> & Hbefore).
    rewrite (startswith_any_selected _ _ _ _ Hp); cbn [bind].
    rewrite (find_skip_string_selected _ _ _ _ Hbefore Hp); cbn [bind fst snd].
    destruct (get_word _) as [invoker view]. reflexivity.
Qed.

(** The word read after the prefix. *)
Lemma word_after_prefix (strip : bool) (p ws w tail : string) :
  is_blank ws -> is_word w -> ends_word tail ->
  (if strip then w <> EmptyString else ws = EmptyString) ->
  let content := (p ++ ws ++ w ++ tail)%string in
  let view := mkView content (String.length p) in
  get_word (if strip then skip_ws view else view)
  = (w, mkView content (String.length p + String.length ws + String.length w)).
Proof.
  intros Hws Hw Htail Hstrip. cbv zeta.
  assert (Hword : get_word (mkView (p ++ ws ++ w ++ tail)%string
                                   (String.length p + String.length ws))
                  = (w, mkView (p ++ ws ++ w ++ tail)%string
                               (String.length p + String.length ws + String.length w))).
  { rewrite <- (ExtensionFacts.string_app_assoc p ws), <- string_length_app.
    apply get_word_at; assumption. }
  destruct strip.
  - rewrite skip_ws_at; [exact Hword|exact Hws|].
    destruct w as [|c w]; [congruence|]. cbn. inversion Hw; assumption.
  - subst ws. cbn [String.length append] in *. rewrite Nat.add_0_r in *.
    exact Hword.
Qed.

(** X10. A message made of the prefix and a word finds the command filed
    under that word; blanks between the two are skipped when
    [strip_after_prefix] is set. *)
Theorem prefixed_word_resolves_command
    (bot : Bot Command) (message : Message) (prefixes : Prefixes)
    (p ws w tail : string) :
  author_id message <> user_id bot ->
  get_prefix bot message = Ok prefixes ->
  selects prefixes (content message) p ->
  content message = (p ++ ws ++ w ++ tail)%string ->
  is_blank ws -> is_word w -> ends_word tail ->
  (if strip_after_prefix bot then w <> EmptyString else ws = EmptyString) ->
  get_context bot message =
  Ok (mkContext (Some p)
                (mkView (content message)
                        (String.length p + String.length ws + String.length w))
                (Some w) (all_commands bot !! w)).
Proof.
  intros Hauthor Hprefix Hsel Hcontent Hws Hw Htail Hstrip.
  rewrite (get_context_selected bot message prefixes p Hauthor Hprefix Hsel).
  cbn zeta. rewrite Hcontent.
  rewrite (word_after_prefix (strip_after_prefix bot) p ws w tail Hws Hw Htail Hstrip).
  reflexivity.
Qed.

Lemma startswith_any_unmatched (content : string) (strs : list string) :
  Forall (fun q => String.prefix q content = false) strs ->
  startswith_any content (map EStr strs) = Ok false.
Proof.
  intros H. induction H as [|q strs Hq _ IH]; cbn; [reflexivity|].
  rewrite Hq. exact IH.
Qed.

(** A message that starts with none of the prefixes gets the context
    [get_context] starts from. *)
Lemma get_context_unmatched (bot : Bot Command) (message : Message)
    (prefixes : Prefixes) :
  get_prefix bot message = Ok prefixes ->
  matches_none prefixes (content message) ->
  get_context bot message = Ok (blank_context message).
Proof.
  intros Hprefix Hnone. unfold get_context, blank_context.
  destruct (author_id message =? user_id bot)%Z; [reflexivity|].
  rewrite Hprefix; cbn [bind]. destruct prefixes as [s|l]; cbn in Hnone.
  - rewrite PrefixFacts.skip_string_start, Hnone. reflexivity.
  - destruct Hnone as (strs & -> & Hstrs).
    rewrite (startswith_any_unmatched _ _ Hstrs). reflexivity.
Qed.

(** X11. An element of the prefix list that is no string makes [get_context]
    raise [TypeError] for every message that none of the strings before it
    matches, and has no effect on the messages that one of them matches. *)
Theorem non_string_prefix_raises
    (bot : Bot Command) (message : Message)
    (before : list string) (class_name : string) (after : list Element) :
  author_id message <> user_id bot ->
  get_prefix bot message
  = Ok (Many (map EStr before ++ ENotStr class_name :: after)) ->
  if forallb (fun q => negb (String.prefix q (content message))) before
  then get_context bot message = Raise TypeError
  else exists ctx p, get_context bot message = Ok ctx
                     /\ ctx_prefix ctx = Some p /\ In p before.
Proof.
  intros Hauthor Hprefix.
  destruct (forallb _ before) eqn:Hall.
  - unfold get_context.
    destruct (Z.eqb_spec (author_id message) (user_id bot)) as [E|_]; [contradiction|].
    rewrite Hprefix; cbn [bind].
    rewrite (startswith_any_none (content message) before) with (result := Raise TypeError);
      [reflexivity| |reflexivity].
    apply List.Forall_forall. intros q Hq.
    rewrite forallb_forall in Hall. apply negb_true_iff, Hall, Hq.
  - assert (Hsplit : exists b1 p b2,
               before = b1 ++ p :: b2
               /\ Forall (fun q => String.prefix q (content message) = false) b1
               /\ String.prefix p (content message) = true).
    { clear Hprefix. induction before as [|q before IH]; [discriminate|].
      cbn in Hall. destruct (String.prefix q (content message)) eqn:Eq.
      - exists [], q, before. repeat split; [constructor|exact Eq].
      - destruct (IH Hall) as (b1 & p & b2 & -> & Hb1 & Hp).
        exists (q :: b1), p, b2. repeat split; [constructor; assumption|exact Hp]. }
    destruct Hsplit as (b1 & p & b2 & -> & Hb1 & Hp).
    rewrite (get_context_selected bot message _ p Hauthor Hprefix).
    + eexists. exists p. split; [reflexivity|]. split; [reflexivity|].
      apply in_or_app. right. left. reflexivity.
    + split; [exact Hp|]. exists b1, (map EStr b2 ++ ENotStr class_name :: after).
      split; [|exact Hb1]. rewrite map_app, <- app_assoc. reflexivity.
Qed.

(** *** Mentions *)

Lemma pretty_N_go_head (x : N) (s : string) :
  (exists c r, s = String c r /\ c <> "!"%char) ->
  exists c r, pretty_N_go x s = String c r /\ c <> "!"%char.
Proof.
  revert s. induction (N.lt_wf_0 x) as [x _ IH]; intros s Hs.
  assert (x = 0 \/ 0 < x)%N as [->|Hpos] by lia.
  - rewrite pretty_N_go_0. exact Hs.
  - rewrite pretty_N_go_step by exact Hpos. apply IH.
    + apply N.div_lt; [exact Hpos|reflexivity].
    + eexists _, _. split; [reflexivity|].
      unfold pretty_N_char. repeat case_match; discriminate.
Qed.

Lemma pretty_Z_head (z : Z) :
  exists c r, pretty z = String c r /\ c <> "!"%char.
Proof.
  assert (Hpos : forall x : positive,
             exists c r, pretty (N.pos x) = String c r /\ c <> "!"%char).
  { intros x. unfold pretty, pretty_N.
    destruct (decide (N.pos x = 0%N)) as [E|_]; [discriminate|].
    rewrite pretty_N_go_step by reflexivity. apply pretty_N_go_head.
    eexists _, _. split; [reflexivity|].
    unfold pretty_N_char. repeat case_match; discriminate. }
  destruct z as [|x|x].
  - eexists _, _. split; [reflexivity|discriminate].
  - exact (Hpos x).
  - eexists _, _. split; [reflexivity|discriminate].
Qed.

Lemma mention_forms_differ (id : Z) (tail : string) :
  String.prefix (mention id false) (mention id true ++ tail)%string = false.
Proof.
  unfold mention. destruct (pretty_Z_head id) as (c & r & -> & Hc).
  cbv [append]. cbn.
  destruct (ascii_dec c "!") as [E|_]; [contradiction|reflexivity].
Qed.

(** X12. With [when_mentioned_or] as prefix source, a message that begins with
    a mention of the bot, in either form, is given that mention as its
    prefix whatever the other prefixes are. *)
Theorem mention_prefix_wins
    (bot : Bot Command) (message : Message) (prefixes : list Element)
    (nickname : bool) (tail : string) :
  author_id message <> user_id bot ->
  resolved_source bot message
  = Ok (PIterable (Ok (when_mentioned_or prefixes bot message))) ->
  content message = (mention (user_id bot) nickname ++ tail)%string ->
  exists ctx, get_context bot message = Ok ctx
              /\ ctx_prefix ctx = Some (mention (user_id bot) nickname).
Proof.
  intros Hauthor Hsource Hcontent.
  assert (Hprefix : get_prefix bot message
                    = Ok (Many (EStr (mention (user_id bot) false)
                                :: EStr (mention (user_id bot) true) :: prefixes))).
  { unfold get_prefix. rewrite Hsource. reflexivity. }
  rewrite (get_context_selected bot message _ (mention (user_id bot) nickname)
             Hauthor Hprefix).
  - eexists. split; reflexivity.
  - split; [rewrite Hcontent; apply prefix_app|].
    destruct nickname.
    + exists [mention (user_id bot) false], prefixes. split; [reflexivity|].
      constructor; [|constructor]. rewrite Hcontent. apply mention_forms_differ.
    + exists [], (EStr (mention (user_id bot) true) :: prefixes).
      split; [reflexivity|constructor].
Qed.

End WithCommand.

Lemma prefixed_word_resolves_command_witness :
  get_context ping_bot ping_message
  = Ok (mkContext (Some "!") (mkView "!  ping now" 7) (Some "ping") (Some 7)).
Proof.
  apply (prefixed_word_resolves_command ping_bot ping_message (OneStr "!")
           "!" "  " "ping" " now").
  - discriminate.
  - reflexivity.
  - split; reflexivity.
  - reflexivity.
  - repeat constructor.
  - repeat constructor.
  - reflexivity.
  - discriminate.
Defined.

Lemma non_string_prefix_raises_witness :
  get_context mixed_bot other_message = Raise TypeError.
Proof.
  apply (non_string_prefix_raises mixed_bot other_message ["!"] "int" []).
  - discriminate.
  - reflexivity.
Defined.

Lemma mention_prefix_wins_witness :
  exists ctx, get_context mention_bot mention_message = Ok ctx
              /\ ctx_prefix ctx = Some "<@!42> ".
Proof.
  apply (mention_prefix_wins mention_bot mention_message [EStr "!"] true "ping").
  - discriminate.
  - reflexivity.
  - reflexivity.
Defined.

End ContextFacts.

(** ** Invocation and global checks *)

Module InvocationFacts.
Import Invoke.
#[local] Open Scope list_scope.

Lemma async_all_true (data : list Check) (ctx : Context) :
  async_all data ctx = Ok true -> Forall (fun f => f ctx = Ok true) data.
Proof.
  induction data as [|f data IH]; cbn [async_all]; intros H; [constructor|].
  destruct (f ctx) as [elem|e] eqn:Ef; cbn [bind] in H; [|discriminate].
  destruct (async_all data ctx) as [others|e] eqn:Ea; cbn [bind] in H; [|discriminate].
  injection H as H. apply andb_true_iff in H as [-> ->].
  constructor; [exact Ef|]. apply IH. reflexivity.
Qed.

Lemma can_run_true (bot : Bot) (ctx : Context) (call_once : bool) :
  can_run bot ctx call_once = Ok true ->
  exists command,
    ctx_command ctx = Some command
    /\ existsb (CommandType_eqb (ctx_command_type ctx)) (cmd_type command) = true
    /\ Forall (fun f => f ctx = Ok true)
              (if call_once then _check_once bot else _checks bot).
Proof.
  unfold can_run. destruct (ctx_command ctx) as [command|]; [|discriminate].
  destruct (existsb _ (cmd_type command)) eqn:Et; cbn [negb]; [|discriminate].
  intros H. exists command. split; [reflexivity|]. split; [exact Et|].
  destruct call_once.
  - destruct (_check_once bot) as [|f data]; [constructor|].
    apply async_all_true. exact H.
  - destruct (_checks bot) as [|f data]; [constructor|].
    apply async_all_true. exact H.
Qed.

Lemma invoked_only_when_allowed (bot : Bot) (ctx : Context) :
  In Invoked (fst (invoke bot ctx)) -> can_run bot ctx true = Ok true.
Proof.
  unfold invoke, invoke_try.
  destruct (ctx_command ctx) as [command|].
  - destruct (can_run bot ctx true) as [[|]|e]; [reflexivity| |].
    + cbn. intros [H|[H|[H|[]]]]; discriminate.
    + destruct (is_command_error e); [cbn; intros [H|[H|[]]]; discriminate|].
      destruct e; cbn; intros [].
  - destruct (ctx_invoked_with ctx) as [[|c s]|]; cbn; intros H;
      repeat destruct H as [H|H]; try discriminate; destruct H.
Qed.

(** X13. The ["command_completion"] event is dispatched exactly when the
    context has a command, [can_run] answers true and the command's
    invocation returns; [invoke] then does these three things and nothing
    else. *)
Theorem completion_follows_invocation (bot : Bot) (ctx : Context) :
  (In (Dispatch "command_completion") (fst (invoke bot ctx)) <->
   exists command,
     ctx_command ctx = Some command
     /\ can_run bot ctx true = Ok true
     /\ cmd_invoke command = Ok tt)
  /\ (In (Dispatch "command_completion") (fst (invoke bot ctx)) ->
      invoke bot ctx =
      ([Dispatch "command"; Invoked; Dispatch "command_completion"], Ok tt)).
Proof.
  assert (Hyes : forall command,
             ctx_command ctx = Some command ->
             can_run bot ctx true = Ok true ->
             cmd_invoke command = Ok tt ->
             invoke bot ctx =
             ([Dispatch "command"; Invoked; Dispatch "command_completion"], Ok tt)).
  { intros command Hc Hr Hi. unfold invoke, invoke_try. rewrite Hc, Hr, Hi. reflexivity. }
  assert (Hno : In (Dispatch "command_completion") (fst (invoke bot ctx)) ->
                exists command,
                  ctx_command ctx = Some command
                  /\ can_run bot ctx true = Ok true
                  /\ cmd_invoke command = Ok tt).
  { unfold invoke, invoke_try.
    destruct (ctx_command ctx) as [command|].
    - destruct (can_run bot ctx true) as [[|]|e].
      + destruct (cmd_invoke command) as [[]|e] eqn:Ei.
        * intros _. exists command. repeat split. exact Ei.
        * destruct (is_command_error e).
          -- cbn. intros H. repeat destruct H as [H|H]; try discriminate; destruct H.
          -- destruct e; cbn; intros H;
               repeat destruct H as [H|H]; try discriminate; destruct H.
      + cbn. intros H. repeat destruct H as [H|H]; try discriminate; destruct H.
      + destruct (is_command_error e).
        * cbn. intros H. repeat destruct H as [H|H]; try discriminate; destruct H.
        * destruct e; cbn; intros [].
    - destruct (ctx_invoked_with ctx) as [[|c s]|]; cbn; intros H;
        repeat destruct H as [H|H]; try discriminate; destruct H. }
  split.
  - split; [exact Hno|].
    intros (command & Hc & Hr & Hi). rewrite (Hyes command Hc Hr Hi).
    cbn. right. right. left. reflexivity.
  - intros H. destruct (Hno H) as (command & Hc & Hr & Hi). exact (Hyes command Hc Hr Hi).
Qed.

(** X14. The command is invoked only if it is of the context's command type
    and every call-once check answered true. *)
Theorem invocation_needs_every_check (bot : Bot) (ctx : Context) :
  In Invoked (fst (invoke bot ctx)) ->
  exists command,
    ctx_command ctx = Some command
    /\ existsb (CommandType_eqb (ctx_command_type ctx)) (cmd_type command) = true
    /\ Forall (fun f => f ctx = Ok true) (_check_once bot).
Proof.
  intros H. apply invoked_only_when_allowed in H.
  exact (can_run_true bot ctx true H).
Qed.

Lemma invocation_needs_every_check_witness :
  exists command,
    ctx_command (text_context (silent_command [ct_default])) = Some command
    /\ existsb (CommandType_eqb (ctx_command_type (text_context (silent_command [ct_default]))))
               (cmd_type command) = true
    /\ Forall (fun f => f (text_context (silent_command [ct_default])) = Ok true)
              (_check_once plain_bot).
Proof.
  apply (invocation_needs_every_check plain_bot (text_context (silent_command [ct_default]))).
  cbn. right. left. reflexivity.
Defined.

End InvocationFacts.

Module CheckFacts.
Import Checks.
#[local] Open Scope list_scope.

Section WithCheck.
Context {Check : Type} {check_eq : EqDecision Check}.

Lemma list_remove_absent (func : Check) (l : list Check) :
  ~ In func l -> list_remove func l = l.
Proof.
  induction l as [|f l IH]; intros Hn; [reflexivity|]; cbn.
  destruct (decide (func = f)) as [->|_].
  - exfalso. apply Hn. left. reflexivity.
  - rewrite IH; [reflexivity|]. intros Hin. apply Hn. right. exact Hin.
Qed.

Lemma list_remove_appended (func : Check) (l : list Check) :
  ~ In func l -> list_remove func (l ++ [func]) = l.
Proof.
  induction l as [|f l IH]; intros Hn; cbn.
  - destruct (decide (func = func)); [reflexivity|congruence].
  - destruct (decide (func = f)) as [->|_].
    + exfalso. apply Hn. left. reflexivity.
    + rewrite IH; [reflexivity|]. intros Hin. apply Hn. right. exact Hin.
Qed.

Lemma list_remove_count (func g : Check) (l : list Check) :
  count_occ check_eq (list_remove func l) g =
  if decide (func = g) then pred (count_occ check_eq l g)
  else count_occ check_eq l g.
Proof.
  induction l as [|f l IH]; cbn.
  - destruct (decide (func = g)); reflexivity.
  - destruct (decide (func = f)) as [->|Hne].
    + destruct (check_eq f g) as [->|Hfg].
      * destruct (decide (g = g)); [reflexivity|congruence].
      * destruct (decide (f = g)); [congruence|reflexivity].
    + cbn. rewrite IH. destruct (check_eq f g) as [->|Hfg].
      * destruct (decide (func = g)); [congruence|reflexivity].
      * reflexivity.
Qed.

(** X15. Removing a check that was just added, with the same flag, gives the
    bot back, provided the check was not registered before; with the other
    flag the check stays registered. *)
Theorem remove_check_undoes_add (b : Bot Check) (func : Check) (call_once : bool) :
  ~ In func (chosen b call_once) ->
  remove_check (add_check b func call_once) func call_once = b
  /\ In func (chosen (remove_check (add_check b func call_once) func (negb call_once))
                     call_once).
Proof.
  intros Hn. destruct b as [cs os]. destruct call_once; cbn in *.
  - unfold remove_check, add_check; cbn. rewrite (list_remove_appended _ _ Hn).
    split; [reflexivity|]. apply in_or_app. right. left. reflexivity.
  - unfold remove_check, add_check; cbn. rewrite (list_remove_appended _ _ Hn).
    split; [reflexivity|]. apply in_or_app. right. left. reflexivity.
Qed.

(** [remove_check] takes one occurrence of the check out of the list it
    works on, none when the check is not there, and leaves every other
    check and the other list as they are. *)
Lemma remove_check_removes_one (b : Bot Check) (func : Check) (call_once : bool) :
  (forall g, count_occ check_eq (chosen (remove_check b func call_once) call_once) g =
             if decide (func = g)
             then pred (count_occ check_eq (chosen b call_once) g)
             else count_occ check_eq (chosen b call_once) g)
  /\ chosen (remove_check b func call_once) (negb call_once) = chosen b (negb call_once)
  /\ (~ In func (chosen b call_once) -> remove_check b func call_once = b).
Proof.
  destruct b as [cs os]. destruct call_once; cbn.
  - split; [intros g; apply list_remove_count|]. split; [reflexivity|].
    intros Hn. unfold remove_check; cbn. rewrite (list_remove_absent _ _ Hn). reflexivity.
  - split; [intros g; apply list_remove_count|]. split; [reflexivity|].
    intros Hn. unfold remove_check; cbn. rewrite (list_remove_absent _ _ Hn). reflexivity.
Qed.


End WithCheck.

Lemma remove_check_undoes_add_witness :
  remove_check (add_check (mkBot [1; 2] [3]) 4 true) 4 true = mkBot [1; 2] [3]
  /\ In 4 (chosen (remove_check (add_check (mkBot [1; 2] [3]) 4 true) 4 false) true).
Proof.
  apply (remove_check_undoes_add (mkBot [1; 2] [3]) 4 true).
  cbn. intros [H|[]]. discriminate.
Defined.

End CheckFacts.

(** ** Ownership *)

Module OwnerFacts.
Import Owner.

(** X17. When neither [owner_id] nor [owner_ids] is set, [is_owner] fetches
    the application and answers by it; the next call fetches again exactly
    when the answer could not be kept (a team without members, an owner id
    of zero), and otherwise answers by the same application without a
    request. *)
Theorem is_owner_fetches_once (app : AppInfo) (b : Bot) (user_id : Z) :
  is_set (owner_id b) = false ->
  owner_ids b = [] ->
  let first := is_owner (Ok app) b user_id in
  fetched first = true
  /\ result first = Ok (names_owner app user_id)
  /\ forall info other,
       fetched (is_owner info (bot_after first) other) = negb (cacheable app)
       /\ (cacheable app = true ->
           is_owner info (bot_after first) other
           = mkAnswer (bot_after first) false (Ok (names_owner app other))).
Proof.
  intros Hid Hids. unfold is_owner, names_owner, cacheable. rewrite Hid, Hids.
  cbn [non_empty]. destruct (team app) as [ids|]; cbn [fetched result bot_after].
  - split; [reflexivity|]. split; [reflexivity|]. intros info other.
    cbn [owner_id owner_ids]. rewrite Hid.
    destruct ids as [|id ids]; cbn [non_empty negb].
    + split; [destruct info as [a|e]; [destruct (team a)|]; reflexivity|discriminate].
    + split; reflexivity.
  - split; [reflexivity|]. split; [reflexivity|]. intros info other.
    cbn [owner_id owner_ids is_set].
    destruct (owner app =? 0)%Z; cbn [negb non_empty].
    + split; [destruct info as [a|e]; [destruct (team a)|]; reflexivity|discriminate].
    + split; reflexivity.
Qed.

Lemma is_owner_fetches_once_witness :
  let first := is_owner (Ok (mkAppInfo (Some [7; 9]%Z) 7)) (mkBot None []) 9 in
  fetched first = true
  /\ result first = Ok (names_owner (mkAppInfo (Some [7; 9]%Z) 7) 9)
  /\ forall info other,
       fetched (is_owner info (bot_after first) other)
       = negb (cacheable (mkAppInfo (Some [7; 9]%Z) 7))
       /\ (cacheable (mkAppInfo (Some [7; 9]%Z) 7) = true ->
           is_owner info (bot_after first) other
           = mkAnswer (bot_after first) false
                      (Ok (names_owner (mkAppInfo (Some [7; 9]%Z) 7) other))).
Proof.
  apply (is_owner_fetches_once (mkAppInfo (Some [7; 9]%Z) 7) (mkBot None []) 9);
    reflexivity.
Defined.

End OwnerFacts.

(** ** Contexts of interactions *)

Module InteractionFacts.
Import Interaction.
#[local] Open Scope list_scope.

Section WithCommand.
Context {Command : Type} (sub_commands : Command -> option (gmap string Command)).

Lemma nested_is_marked (groups : list string) (last : string)
    (args : option (list Payload)) :
  p_type (nested groups last args) = Some 1%Z
  \/ p_type (nested groups last args) = Some 2%Z.
Proof. destruct groups; [left|right]; reflexivity. Qed.

Lemma descend_stops_at_arguments (last : string) (args : option (list Payload))
    (parents : list string) (invoked_with : string) (command : Command) :
  starts_with_argument args ->
  descend sub_commands (nested [] last args) parents invoked_with command
  = Ok (mkCursor parents invoked_with command (nested [] last args)).
Proof.
  intros Hargs. cbn [nested descend].
  destruct args as [[|first rest]|]; try reflexivity.
  cbn in Hargs. unfold is_argument in Hargs.
  destruct (p_type first) as [t|]; [|reflexivity].
  destruct Hargs as [H1 H2].
  apply Z.eqb_neq in H1, H2. rewrite H1, H2. reflexivity.
Qed.

(** The loop follows the groups of a nested record down the tree. *)
Lemma descend_nested (groups : list string) (last : string)
    (args : option (list Payload)) :
  starts_with_argument args ->
  forall (parents : list string) (invoked_with : string) (command parent : Command),
    resolve sub_commands command groups = Some parent ->
    exists cur,
      descend sub_commands (nested groups last args) parents invoked_with command = Ok cur
      /\ invoked_parents cur ++ [Interaction.invoked_with cur]
         = parents ++ invoked_with :: groups
      /\ Interaction.command cur = parent
      /\ data cur = nested [] last args.
Proof.
  intros Hargs. induction groups as [|group groups IH];
    intros parents invoked_with command parent Hres.
  - cbn in Hres. injection Hres as <-.
    eexists. split; [apply descend_stops_at_arguments; exact Hargs|].
    repeat split.
  - cbn [resolve] in Hres.
    destruct (sub_commands command) as [all_commands|] eqn:Esub; [|discriminate].
    destruct (all_commands !! group) as [sub|] eqn:Elook; [|discriminate].
    destruct (IH (parents ++ [invoked_with]) group sub parent Hres)
      as (cur & Hcur & Hparents & Hcommand & Hdata).
    exists cur. split; [|split; [|split; assumption]].
    + cbn [nested descend].
      destruct (nested_is_marked groups last args) as [-> | ->];
        cbn [Z.eqb orb Pos.eqb]; rewrite Esub, Elook; exact Hcur.
    + rewrite Hparents, <- app_assoc. reflexivity.
Qed.

(** X18. For the payload of a sub-command reached through sub-command groups,
    the context holds the command found by following the names from the
    root command, the name of the sub-command as [invoked_with], the
    argument records as options, and as [invoked_parents] every name of
    the path, the sub-command's own included.  Only the first option
    record of the payload is read. *)
Theorem nested_payload_resolves_sub_command
    (all_commands : gmap string Command) (root : string) (type_ : option Z)
    (groups : list string) (last : string) (args : option (list Payload))
    (others : list Payload) (command leaf : Command) :
  all_commands !! root = Some command ->
  resolve sub_commands command (groups ++ [last]) = Some leaf ->
  starts_with_argument args ->
  get_interaction_context sub_commands all_commands
    (mkPayload (Some root) type_ (Some (nested groups last args :: others)))
  = Ok (mkContext leaf "/" last (root :: groups ++ [last]) (default [] args)).
Proof.
  intros Hroot Hres Hargs.
  assert (Hsplit : exists parent table,
             resolve sub_commands command groups = Some parent
             /\ sub_commands parent = Some table /\ table !! last = Some leaf).
  { clear Hroot. revert command Hres.
    induction groups as [|group groups IH]; intros command Hres; cbn [app resolve] in Hres.
    - destruct (sub_commands command) as [table|] eqn:Esub; [|discriminate].
      destruct (table !! last) as [sub|] eqn:Elook; [|discriminate].
      injection Hres as <-. exists command, table. repeat split; assumption.
    - destruct (sub_commands command) as [table|] eqn:Esub; [|discriminate].
      destruct (table !! group) as [sub|] eqn:Elook; [|discriminate].
      destruct (IH sub Hres) as (parent & table' & H1 & H2 & H3).
      exists parent, table'. cbn [resolve]. rewrite Esub, Elook. repeat split; assumption. }
  destruct Hsplit as (parent & table & Hparent & Htable & Hleaf).
  destruct (descend_nested groups last args Hargs [] root command parent Hparent)
    as ([parents invoked_with command' data'] & Hcur & Hparents & Hcommand & Hdata).
  cbn [invoked_parents Interaction.invoked_with Interaction.command data] in *.
  subst command' data'.
  unfold get_interaction_context; cbn [p_name p_options]. rewrite Hroot, Hcur.
  cbn [bind]. rewrite Htable. cbn [nested p_name p_options]. rewrite Hleaf.
  rewrite Hparents. reflexivity.
Qed.

(** X19. For a command that is no group the context holds that command, its
    name, no parent and the options of the payload as they are; an empty
    ["options"] list raises [IndexError]. *)
Theorem plain_command_keeps_its_options
    (all_commands : gmap string Command) (root : string) (type_ : option Z)
    (args : option (list Payload)) (command : Command) :
  all_commands !! root = Some command ->
  sub_commands command = None ->
  starts_flat args ->
  get_interaction_context sub_commands all_commands (mkPayload (Some root) type_ args)
  = match args with
    | Some [] => Raise IndexError
    | _ => Ok (mkContext command "/" root [] (default [] args))
    end.
Proof.
  intros Hroot Hplain Hargs.
  unfold get_interaction_context; cbn [p_name p_options]. rewrite Hroot.
  destruct args as [[|first rest]|]; try reflexivity.
  cbn in Hargs. destruct first as [name t options]. cbn in Hargs. subst options.
  cbn [descend bind]. rewrite Hplain. reflexivity.
Qed.

Lemma resolve_app (command middle : Command) (path : list string) (name : string)
    (table : gmap string Command) (sub : Command) :
  resolve sub_commands command path = Some middle ->
  sub_commands middle = Some table ->
  table !! name = Some sub ->
  resolve sub_commands command (path ++ [name]) = Some sub.
Proof.
  revert command. induction path as [|n path IH]; intros command Hres Htable Hsub.
  - cbn in Hres. injection Hres as ->. cbn. rewrite Htable, Hsub. reflexivity.
  - cbn [app resolve] in *.
    destruct (sub_commands command) as [t|]; [|discriminate].
    destruct (t !! n) as [c|]; [|discriminate].
    apply IH; assumption.
Qed.

(** The command the loop ends on is reached from the root command. *)
Lemma descend_reaches (root : Command) :
  forall (data : Payload) (parents : list string) (invoked_with : string)
         (command : Command) (cur : Cursor Command),
    (exists path, resolve sub_commands root path = Some command) ->
    descend sub_commands data parents invoked_with command = Ok cur ->
    exists path, resolve sub_commands root path = Some (Interaction.command cur).
Proof.
  fix IH 1. intros data parents invoked_with command cur Hreach.
  destruct data as [name t [[|first rest]|]]; cbn [descend];
    try (intros H; injection H as <-; exact Hreach).
  destruct (p_type first) as [type_|];
    [|intros H; injection H as <-; exact Hreach].
  destruct ((type_ =? 1)%Z || (type_ =? 2)%Z);
    [|intros H; injection H as <-; exact Hreach].
  destruct name as [n|]; [|intros H; injection H as <-; exact Hreach].
  destruct (sub_commands command) as [table|] eqn:Etable; [|discriminate].
  destruct (table !! n) as [sub|] eqn:Esub;
    [|intros H; injection H as <-; exact Hreach].
  apply IH. destruct Hreach as [path Hpath].
  exists (path ++ [n]). exact (resolve_app _ _ _ _ _ _ Hpath Etable Esub).
Qed.

(** X20. Whatever the payload, a context that is returned has the prefix ["/"]
    and a command of the tree of the command that the payload names. *)
Theorem interaction_context_stays_in_the_tree
    (all_commands : gmap string Command) (interaction_data : Payload)
    (ctx : Context Command) :
  get_interaction_context sub_commands all_commands interaction_data = Ok ctx ->
  ctx_prefix ctx = "/"
  /\ exists name root path,
       p_name interaction_data = Some name
       /\ all_commands !! name = Some root
       /\ resolve sub_commands root path = Some (ctx_command ctx).
Proof.
  unfold get_interaction_context.
  destruct (p_name interaction_data) as [name|] eqn:Ename; [|discriminate].
  destruct (all_commands !! name) as [root|] eqn:Eroot; [|discriminate].
  destruct (p_options interaction_data) as [[|first rest]|].
  - discriminate.
  - destruct (descend sub_commands first [] name root) as [cur|e] eqn:Ecur; cbn [bind];
      [|discriminate].
    destruct (descend_reaches root first [] name root cur
                (ex_intro _ [] eq_refl) Ecur) as [path Hpath].
    destruct cur as [parents invoked_with command data].
    cbn [Interaction.command] in Hpath.
    destruct (sub_commands command) as [table|] eqn:Etable.
    + destruct (p_name data) as [n|]; [|discriminate].
      destruct (table !! n) as [sub|] eqn:Esub; [|discriminate].
      intros H. injection H as <-. split; [reflexivity|].
      exists name, root, (path ++ [n]). split; [reflexivity|]. split; [exact Eroot|].
      exact (resolve_app _ _ _ _ _ _ Hpath Etable Esub).
    + intros H. injection H as <-. split; [reflexivity|].
      exists name, root, path. split; [reflexivity|]. split; [exact Eroot|exact Hpath].
  - intros H. injection H as <-. split; [reflexivity|].
    exists name, root, []. split; [reflexivity|]. split; [exact Eroot|reflexivity].
Qed.

End WithCommand.

Lemma nested_payload_resolves_sub_command_witness :
  get_interaction_context example_sub_commands example_commands
    (mkPayload (Some "admin") (Some 1%Z)
               (Some [nested ["roles"] "add" (Some [member_argument])]))
  = Ok (mkContext 2 "/" "add" ["admin"; "roles"; "add"] [member_argument]).
Proof.
  apply (nested_payload_resolves_sub_command example_sub_commands example_commands
           "admin" (Some 1%Z) ["roles"] "add" (Some [member_argument]) [] 0 2).
  - reflexivity.
  - reflexivity.
  - split; discriminate.
Defined.

Lemma plain_command_keeps_its_options_witness :
  get_interaction_context example_sub_commands example_commands
    (mkPayload (Some "ping") (Some 1%Z) (Some [member_argument]))
  = Ok (mkContext 3 "/" "ping" [] [member_argument]).
Proof.
  apply (plain_command_keeps_its_options example_sub_commands example_commands
           "ping" (Some 1%Z) (Some [member_argument]) 3).
  - reflexivity.
  - reflexivity.
  - reflexivity.
Defined.

Lemma interaction_context_stays_in_the_tree_witness :
  ctx_prefix (mkContext 2 "/" "add" ["admin"; "roles"; "add"] [member_argument]) = "/"
  /\ exists name root path,
       p_name (mkPayload (Some "admin") (Some 1%Z)
                         (Some [nested ["roles"] "add" (Some [member_argument])]))
       = Some name
       /\ example_commands !! name = Some root
       /\ resolve example_sub_commands root path
          = Some (ctx_command (mkContext 2 "/" "add" ["admin"; "roles"; "add"]
                                         [member_argument])).
Proof.
  apply (interaction_context_stays_in_the_tree example_sub_commands example_commands
           (mkPayload (Some "admin") (Some 1%Z)
                      (Some [nested ["roles"] "add" (Some [member_argument])]))).
  reflexivity.
Defined.

End InteractionFacts.

(** ** Processing *)

Module ProcessFacts.
Import Process.
#[local] Open Scope list_scope.

Section WithCommand.
Context {Command : Type}
        (sub_commands : Command -> option (gmap string Command))
        (for_message : Prefix.Context Command -> Command -> Invoke.Command)
        (for_interaction : Interaction.Context Command -> Command -> Invoke.Command)
        (message_type : Prefix.Context Command -> CommandType)
        (interaction_type : Interaction.Context Command -> CommandType).

(** X21. A message written by a bot or by the bot itself, a message that
    starts with none of the prefixes and an interaction that is no
    application command are dropped: nothing is invoked, dispatched or
    raised. *)
Theorem ignored_triggers_do_nothing (bot : Bot Command) :
  (forall message, process_commands sub_commands for_message for_interaction
    message_type interaction_type bot (OfMessage message true) = ([], Ok tt))
  /\ (forall message author_bot,
        Prefix.author_id message = Prefix.user_id (router bot) ->
        process_commands sub_commands for_message for_interaction
    message_type interaction_type bot (OfMessage message author_bot) = ([], Ok tt))
  /\ (forall message author_bot prefixes,
        Prefix.get_prefix (router bot) message = Ok prefixes ->
        Prefix.matches_none prefixes (Prefix.content message) ->
        process_commands sub_commands for_message for_interaction
    message_type interaction_type bot (OfMessage message author_bot) = ([], Ok tt))
  /\ (forall interaction,
        i_is_command interaction = false ->
        process_commands sub_commands for_message for_interaction
    message_type interaction_type bot (OfInteraction interaction) = ([], Ok tt)).
Proof.
  split; [reflexivity|]. split; [|split].
  - intros message author_bot Hself. unfold Process.process_commands.
    destruct author_bot; [reflexivity|].
    unfold Prefix.get_context. rewrite Hself, Z.eqb_refl. reflexivity.
  - intros message author_bot prefixes Hprefix Hnone. unfold Process.process_commands.
    destruct author_bot; [reflexivity|].
    rewrite (ContextFacts.get_context_unmatched _ _ _ Hprefix Hnone). reflexivity.
  - intros [is_command data] Hother. unfold Process.process_commands.
    cbn [i_is_command] in *. rewrite Hother. reflexivity.
Qed.

(** X22. A message of a user that is made of the prefix and a word under
    which no command is filed has one effect, the dispatch of
    ["command_error"], and none at all when the word is empty. *)
Theorem unknown_command_is_reported
    (bot : Bot Command) (message : Prefix.Message) (prefixes : Prefix.Prefixes)
    (p ws w tail : string) :
  Prefix.author_id message <> Prefix.user_id (router bot) ->
  Prefix.get_prefix (router bot) message = Ok prefixes ->
  Prefix.selects prefixes (Prefix.content message) p ->
  Prefix.content message = (p ++ ws ++ w ++ tail)%string ->
  Prefix.is_blank ws -> Prefix.is_word w -> Prefix.ends_word tail ->
  (if Prefix.strip_after_prefix (router bot)
   then w <> EmptyString else ws = EmptyString) ->
  Prefix.all_commands (router bot) !! w = None ->
  process_commands sub_commands for_message for_interaction
    message_type interaction_type bot (OfMessage message false)
  = (if String.eqb w EmptyString then [] else [Invoke.Dispatch "command_error"], Ok tt).
Proof.
  intros Hauthor Hprefix Hsel Hcontent Hws Hw Htail Hstrip Hunknown.
  unfold Process.process_commands.
  rewrite (ContextFacts.get_context_selected _ _ _ p Hauthor Hprefix Hsel).
  cbn zeta. rewrite Hcontent.
  rewrite (ContextFacts.word_after_prefix _ p ws w tail Hws Hw Htail Hstrip).
  cbn [fst snd]. rewrite Hunknown.
  unfold Invoke.invoke, message_context; cbn.
  destruct w; reflexivity.
Qed.

End WithCommand.

Lemma unknown_command_is_reported_witness :
  process_commands Interaction.example_sub_commands example_behaviour example_behaviour
    (fun _ => ct_default) (fun _ => ct_chat_input)
    example_bot (OfMessage pong_message false)
  = ([Invoke.Dispatch "command_error"], Ok tt).
Proof.
  apply (unknown_command_is_reported Interaction.example_sub_commands
           example_behaviour example_behaviour
           (fun _ => ct_default) (fun _ => ct_chat_input)
           example_bot pong_message (Prefix.OneStr "!") "!" EmptyString "pong" EmptyString).
  - discriminate.
  - reflexivity.
  - split; reflexivity.
  - reflexivity.
  - constructor.
  - repeat constructor.
  - exact I.
  - reflexivity.
  - reflexivity.
Defined.

End ProcessFacts.

(** ** Listeners, cogs and the life of an extension *)

Module LifecycleFacts.
Import Submodule Extensions ExtensionFacts.
#[local] Open Scope list_scope.

(** *** Listeners and dispatch *)

Lemma dispatch_add_listener (b : Bot) (func : Listener) (name event_name : string) :
  l_coroutine func = true ->
  dispatch (fst (add_listener b func (Some name))) event_name =
  if String.eqb name ("on_" ++ event_name)
  then dispatch b event_name ++ [(func, name)]
  else dispatch b event_name.
Proof.
  intros Hco. unfold dispatch.
  rewrite add_listener_listeners, Hco. cbn [andb default].
  change (default (l_name func) (Some name)) with name.
  destruct (String.eqb_spec name ("on_" ++ event_name)) as [E|Hne].
  - rewrite bool_decide_eq_true_2 by exact E.
    rewrite map_app. cbn [map]. rewrite E. reflexivity.
  - rewrite bool_decide_eq_false_2 by exact Hne. reflexivity.
Qed.

(** X23. A listener added under the name [on_] followed by an event is
    scheduled by the dispatch of that event after the listeners that were
    there, and by no other dispatch; a listener added under a name that
    does not start with [on_] is never scheduled. *)
Theorem dispatch_after_add_listener
    (b : Bot) (func : Listener) (name : string) :
  l_coroutine func = true ->
  (forall event_name,
     dispatch (fst (add_listener b func (Some name))) event_name =
     if String.eqb name ("on_" ++ event_name)
     then dispatch b event_name ++ [(func, name)]
     else dispatch b event_name)
  /\ (String.prefix "on_" name = false ->
      forall event_name,
        dispatch (fst (add_listener b func (Some name))) event_name
        = dispatch b event_name).
Proof.
  intros Hco. split.
  - intros event_name. apply dispatch_add_listener. exact Hco.
  - intros Hp event_name. rewrite dispatch_add_listener by exact Hco.
    destruct (String.eqb_spec name ("on_" ++ event_name)) as [E|_]; [|reflexivity].
    exfalso. rewrite E in Hp.
    assert (H : String.prefix "on_" ("on_" ++ event_name) = true)
      by (apply prefix_true_iff; exists event_name; reflexivity).
    congruence.
Qed.

Lemma list_remove_first_appended (func : Listener) (l : list Listener) :
  ~ In func l -> list_remove_first func (l ++ [func]) = l.
Proof.
  induction l as [|f l IH]; intros Hn; cbn.
  - destruct (decide (func = func)); [reflexivity|congruence].
  - destruct (decide (func = f)) as [->|_].
    + exfalso. apply Hn. left. reflexivity.
    + rewrite IH; [reflexivity|]. intros Hin. apply Hn. right. exact Hin.
Qed.

(** X24. Removing a listener that was just added under the same name gives
    back the cogs, the commands and, for every event, the listeners in
    their order, provided the function was not yet listening to that
    event. *)
Theorem remove_listener_undoes_add
    (b : Bot) (func : Listener) (name : option string) :
  l_coroutine func = true ->
  ~ In func (listeners b (default (l_name func) name)) ->
  similar (remove_listener (fst (add_listener b func name)) func name) b.
Proof.
  intros Hco Hnew.
  destruct (add_listener_frame b func name) as (Hc & Ha & _).
  destruct (remove_listener_frame (fst (add_listener b func name)) func name)
    as (Hc' & Ha' & _).
  split; [congruence|]. split; [congruence|].
  intros ev. rewrite remove_listener_listeners, !add_listener_listeners, Hco.
  cbn [andb]. destruct (decide (default (l_name func) name = ev)) as [E|Hne].
  - rewrite bool_decide_eq_true_2 by exact E.
    rewrite <- E. apply list_remove_first_appended. exact Hnew.
  - rewrite bool_decide_eq_false_2 by exact Hne. reflexivity.
Qed.

(** *** Cogs *)

(** X25. [add_cog] that returns has filed the cog under its name; without
    [override] a taken name raises and changes nothing; with [override] the
    cog that had the name is removed before the new one is injected, so
    that a failed injection leaves the name without a cog. *)
Theorem add_cog_files_the_cog (b : Bot) (cog : Cog) :
  (forall override b',
     add_cog b cog override = (b', None) -> get_cog b' (cog_name cog) = Some cog)
  /\ (is_Some (get_cog b (cog_name cog)) ->
      exists msg, add_cog b cog false = (b, Some (ClientException msg)))
  /\ (forall e,
        snd (add_cog b cog true) = Some e ->
        get_cog (fst (add_cog b cog true)) (cog_name cog) = None).
Proof.
  assert (Hstore : forall x b',
             inject_and_store x cog = (b', None) -> get_cog b' (cog_name cog) = Some cog).
  { intros x b'. unfold inject_and_store.
    destruct (_inject x cog) as [x' [e|]]; [discriminate|].
    intros H. injection H as <-. unfold get_cog; cbn. apply lookup_insert_eq. }
  assert (Hfail : forall x e,
             cogs x !! cog_name cog = None ->
             snd (inject_and_store x cog) = Some e ->
             get_cog (fst (inject_and_store x cog)) (cog_name cog) = None).
  { intros x e Hfree. unfold inject_and_store.
    pose proof (_inject_frame x cog) as (Hc & _).
    destruct (_inject x cog) as [x' [e'|]]; cbn [fst snd] in *; [|discriminate].
    intros _. unfold get_cog. rewrite Hc. exact Hfree. }
  split; [|split].
  - intros override b'. unfold add_cog.
    destruct (cogs b !! cog_name cog); [|apply Hstore].
    destruct override; cbn [negb]; [apply Hstore|discriminate].
  - intros [existing He]. unfold get_cog in He. unfold add_cog. rewrite He.
    cbn [negb]. eexists. reflexivity.
  - intros e. unfold add_cog.
    destruct (cogs b !! cog_name cog) as [existing|] eqn:Ec; cbn [negb].
    + apply Hfail. rewrite remove_cog_cogs. apply lookup_delete_eq.
    + apply Hfail. exact Ec.
Qed.

(** *** Loading and unloading *)

Lemma load_success (imp : Importer) (b : Bot) (name : string)
    (package : option string) (b' : Bot) :
  load_extension imp b name package = (b', None) ->
  exists key spec setup bs,
    _resolve_name imp name package = Ok key
    /\ extensions b !! key = None
    /\ find_spec imp key = Ok (Some spec)
    /\ exec_outcome spec = None
    /\ exec_setup spec = Some setup
    /\ run_script setup
         (set_sys_modules b (<[key := module_from_spec spec key]> (sys_modules b)
                             ∪ exec_imports spec))
       = (bs, None)
    /\ b' = set_extensions bs (<[key := module_from_spec spec key]> (extensions bs)).
Proof.
  unfold load_extension.
  destruct (_resolve_name imp name package) as [key|e]; [|discriminate].
  destruct (extensions b !! key) eqn:Eext; [discriminate|].
  destruct (find_spec imp key) as [[spec|]|e] eqn:Espec; try discriminate.
  unfold _load_from_module_spec. cbn [mod_setup module_from_spec sys_modules set_sys_modules].
  destruct (exec_outcome spec) eqn:Eout; [discriminate|].
  destruct (exec_setup spec) as [setup|] eqn:Esetup; [|discriminate].
  destruct (run_script setup _) as [bs [e|]] eqn:Erun; [discriminate|].
  intros H. injection H as <-.
  exists key, spec, setup, bs.
  split; [reflexivity|]. split; [exact Eext|]. split; [exact Espec|].
  split; [exact Eout|]. split; [exact Esetup|]. split; [exact Erun|reflexivity].
Qed.

(** X26. After a load that returned, the extension is in the registry under
    its resolved name and under its own module name in [sys.modules], and
    loading it again raises [ExtensionAlreadyLoaded] and changes
    nothing. *)
Theorem loaded_extension_is_registered
    (imp : Importer) (b : Bot) (name : string) (package : option string) (b' : Bot) :
  load_extension imp b name package = (b', None) ->
  exists key lib,
    _resolve_name imp name package = Ok key
    /\ extensions b' !! key = Some lib
    /\ mod_name lib = key
    /\ sys_modules b' !! key = Some lib
    /\ load_extension imp b' name package = (b', Some (ExtensionAlreadyLoaded key)).
Proof.
  intros H. destruct (load_success _ _ _ _ _ H)
    as (key & spec & setup & bs & Hres & Hfree & Hspec & Hout & Hsetup & Hrun & ->).
  exists key, (module_from_spec spec key). split; [exact Hres|].
  assert (Hext : extensions (set_extensions bs (<[key := module_from_spec spec key]>
                                                  (extensions bs))) !! key
                 = Some (module_from_spec spec key)) by apply lookup_insert_eq.
  split; [exact Hext|]. split; [reflexivity|]. split.
  - cbn [sys_modules set_extensions].
    pose proof (run_script_modules setup
                  (set_sys_modules b (<[key := module_from_spec spec key]> (sys_modules b)
                                      ∪ exec_imports spec))) as [_ Hm].
    rewrite Hrun in Hm. cbn [fst] in Hm. rewrite Hm. cbn [sys_modules set_sys_modules].
    apply lookup_union_Some_l. apply lookup_insert_eq.
  - unfold load_extension. rewrite Hres, Hext. reflexivity.
Qed.

(** X27. An unload that returned has taken the extension out of the registry
    and out of [sys.modules], together with every cached module below the
    extension's module; the other cached modules stay; and unloading again
    raises [ExtensionNotLoaded]. *)
Theorem unload_extension_unimports
    (imp : Importer) (b : Bot) (name : string) (package : option string) (b' : Bot) :
  unload_extension imp b name package = (b', None) ->
  exists key lib,
    _resolve_name imp name package = Ok key
    /\ extensions b !! key = Some lib
    /\ extensions b' = delete key (extensions b)
    /\ (forall k, k = key \/ _is_submodule (mod_name lib) k = true ->
                  sys_modules b' !! k = None)
    /\ (forall k, k <> key -> _is_submodule (mod_name lib) k = false ->
                  sys_modules b' !! k = sys_modules b !! k)
    /\ unload_extension imp b' name package = (b', Some (ExtensionNotLoaded key)).
Proof.
  unfold unload_extension.
  destruct (_resolve_name imp name package) as [key|e]; [|discriminate].
  destruct (extensions b !! key) as [lib|] eqn:Eext; [|discriminate].
  intros H. injection H as <-. exists key, lib.
  destruct (finalizers_spec (_remove_module_references b (mod_name lib)) lib key)
    as (_ & _ & _ & Hext & Hsys).
  destruct (strip_modules (mod_name lib) b) as [He Hs].
  cbv zeta in Hext, Hsys. rewrite He in Hext. rewrite Hs in Hsys.
  split; [reflexivity|]. split; [exact Eext|]. split; [exact Hext|].
  split; [|split].
  - intros k [->|Hk]; rewrite Hsys.
    + destruct (decide (key = key)); [reflexivity|congruence].
    + destruct (decide (key = k)); [reflexivity|]. rewrite Hk. reflexivity.
  - intros k Hne Hk. rewrite Hsys.
    destruct (decide (key = k)); [congruence|]. rewrite Hk. reflexivity.
  - rewrite Hext, lookup_delete_eq. reflexivity.
Qed.

(** X28. Unloading an extension right after it was loaded on a bot that had
    nothing declared in it gives back the cogs, the commands and the
    listeners of before the load and the extension registry of before,
    when its [setup] only registers artifacts declared in the extension
    and its [teardown] changes none. *)
Theorem unload_undoes_load
    (imp : Importer) (b : Bot) (name : string) (package : option string)
    (key : string) (spec : ModuleSpec) (b1 : Bot) :
  _resolve_name imp name package = Ok key ->
  find_spec imp key = Ok (Some spec) ->
  own_registrations key (default [] (exec_setup spec)) = true ->
  inert (exec_teardown spec) ->
  no_artifacts_of key b ->
  commands_by_name b ->
  load_extension imp b name package = (b1, None) ->
  exists b2,
    unload_extension imp b1 name package = (b2, None)
    /\ similar b2 b
    /\ extensions b2 = extensions b.
Proof.
  intros Hres Hspec Hown Hinert Hclean Hby Hload.
  destruct (load_success _ _ _ _ _ Hload)
    as (key' & spec' & setup & bs & Hres' & Hfree & Hspec' & Hout & Hsetup & Hrun & ->).
  rewrite Hres in Hres'. injection Hres' as <-.
  rewrite Hspec in Hspec'. injection Hspec' as <-.
  rewrite Hsetup in Hown. cbn [default] in Hown.
  set (lib := module_from_spec spec key) in *.
  set (b0 := set_sys_modules b (<[key := lib]> (sys_modules b) ∪ exec_imports spec)) in *.
  set (b1 := set_extensions bs (<[key := lib]> (extensions bs))).
  assert (Hb0 : similar b b0) by (repeat split).
  assert (Hext0 : extends_with_own key b b0)
    by (apply (extends_with_own_similar key b b b0 Hb0), extends_with_own_refl).
  pose proof (run_script_extends key setup b b0 Hown Hext0) as Hexts.
  rewrite Hrun in Hexts. cbn [fst] in Hexts.
  assert (Hb1 : similar bs b1) by (repeat split).
  pose proof (extends_with_own_similar key b bs b1 Hb1 Hexts) as Hext1.
  pose proof (strip_of_extension key b b1 Hclean Hby Hext1) as Hstrip.
  exists (_call_module_finalizers (_remove_module_references b1 key) lib key).
  split; [|split].
  - unfold unload_extension. rewrite Hres.
    replace (extensions b1 !! key) with (Some lib) by (symmetry; apply lookup_insert_eq).
    reflexivity.
  - apply (similar_trans _ (_remove_module_references b1 key)); [|exact Hstrip].
    apply finalizers_similar. exact Hinert.
  - destruct (finalizers_spec (_remove_module_references b1 key) lib key)
      as (_ & _ & _ & Hext & _).
    cbv zeta in Hext. rewrite Hext.
    destruct (strip_modules key b1) as [-> _].
    pose proof (run_script_modules setup b0) as [He _].
    rewrite Hrun in He. cbn [fst] in He.
    unfold b1. cbn [extensions set_extensions]. rewrite He.
    cbn [extensions b0 set_sys_modules].
    rewrite delete_insert_eq. apply delete_id. exact Hfree.
Qed.

(** X29. A reload returns normally exactly when the unload and then the load
    of the resolved name do, and its result is theirs. *)
Theorem reload_is_unload_then_load
    (imp : Importer) (b : Bot) (name : string) (package : option string)
    (key : string) (b' : Bot) :
  _resolve_name imp name package = Ok key ->
  starts_with_dot key = false ->
  reload_extension imp b name package = (b', None) <->
  exists b1, unload_extension imp b name package = (b1, None)
             /\ load_extension imp b1 key None = (b', None).
Proof.
  intros Hres Hdot. unfold reload_extension, unload_extension. rewrite Hres.
  destruct (extensions b !! key) as [lib|].
  - set (b1 := _call_module_finalizers (_remove_module_references b (mod_name lib)) lib key).
    split.
    + intros H. exists b1. split; [reflexivity|].
      destruct (load_extension imp b1 key None) as [b2 [e|]].
      * destruct (mod_setup lib) as [setup|]; [|discriminate].
        destruct (run_script setup b2) as [b3 [e'|]]; discriminate.
      * exact H.
    + intros (b1' & H1 & H2). injection H1 as <-. rewrite H2. reflexivity.
  - split; [discriminate|]. intros (b1 & H & _). discriminate.
Qed.

(** *** Shutdown *)

Lemma classic_In (k : string) (names : list string) : In k names \/ ~ In k names.
Proof.
  induction names as [|n names IH]; [right; intros []|].
  destruct (string_dec n k) as [->|Hne]; [left; left; reflexivity|].
  destruct IH as [H|H]; [left; right; exact H|].
  right. intros [E|Hin]; [congruence|contradiction].
Qed.

Lemma In_keys {A : Type} (m : gmap string A) (k : string) :
  In k (map fst (map_to_list m)) <-> is_Some (m !! k).
Proof.
  rewrite in_map_iff. split.
  - intros ([k' x] & <- & Hin). apply In_map_to_list in Hin. exists x. exact Hin.
  - intros [x Hx]. exists (k, x). split; [reflexivity|]. apply In_map_to_list. exact Hx.
Qed.

(** A fold of steps each of which deletes its key from a table. *)
Lemma delete_fold {A : Type} (table : Bot -> gmap string A) (step : Bot -> string -> Bot)
    (names : list string) (k : string) :
  (forall b n, In n names -> table (step b n) = delete n (table b)) ->
  forall b,
    (In k names -> table (foldl step b names) !! k = None)
    /\ (~ In k names -> table (foldl step b names) !! k = table b !! k).
Proof.
  induction names as [|n names IH]; intros Hstep b; cbn [foldl].
  - split; [intros []|reflexivity].
  - assert (Hstep' : forall b n, In n names -> table (step b n) = delete n (table b))
      by (intros b' n' Hn'; apply Hstep; right; exact Hn').
    destruct (IH Hstep' (step b n)) as [IHin IHout].
    assert (Hn : table (step b n) = delete n (table b))
      by (apply Hstep; left; reflexivity).
    destruct (classic_In k names) as [Hin|Hnin].
    + split; [intros _; exact (IHin Hin)|].
      intros Hno. exfalso. apply Hno. right. exact Hin.
    + split.
      * intros [->|Hin]; [|contradiction].
        rewrite (IHout Hnin), Hn. apply lookup_delete_eq.
      * intros Hno. rewrite (IHout Hnin), Hn. apply lookup_delete_ne.
        intros ->. apply Hno. left. reflexivity.
Qed.

Lemma unload_step_extensions (imp : Importer) (b : Bot) (key : string) :
  starts_with_dot key = false ->
  extensions (fst (unload_extension imp b key None)) = delete key (extensions b).
Proof.
  intros Hdot. unfold unload_extension, _resolve_name. rewrite Hdot.
  destruct (extensions b !! key) as [lib|] eqn:Eext; cbn [fst].
  - destruct (finalizers_spec (_remove_module_references b (mod_name lib)) lib key)
      as (_ & _ & _ & Hext & _).
    cbv zeta in Hext. rewrite Hext. destruct (strip_modules (mod_name lib) b) as [-> _].
    reflexivity.
  - symmetry. apply delete_id. exact Eext.
Qed.

(** X30. [close] leaves no cog, and no extension when the names in the
    registry are absolute (as [load_extension] files them). *)
Theorem close_leaves_nothing_loaded (imp : Importer) (b : Bot) :
  cogs (close imp b) = ∅
  /\ ((forall key, is_Some (extensions b !! key) -> starts_with_dot key = false) ->
      extensions (close imp b) = ∅).
Proof.
  unfold close. set (b1 := foldl _ b _). split.
  - apply map_eq. intros k. rewrite lookup_empty.
    destruct (delete_fold cogs (fun b cog => remove_cog b cog)
                (map fst (map_to_list (cogs b1))) k
                (fun x n _ => remove_cog_cogs x n) b1) as [Hin Hout].
    destruct (cogs b1 !! k) as [cog|] eqn:E.
    + apply Hin, In_keys. eexists; exact E.
    + destruct (classic_In k (map fst (map_to_list (cogs b1)))) as [H|H];
        [exact (Hin H)|exact (Hout H)].
  - intros Habs. apply map_eq. intros k. rewrite lookup_empty.
    assert (Hfold : forall names x,
               extensions (foldl (fun b cog => remove_cog b cog) x names) = extensions x).
    { intros names. induction names as [|n names IH]; intros x; [reflexivity|].
      cbn [foldl]. rewrite IH. apply remove_cog_modules. }
    rewrite Hfold. unfold b1.
    destruct (delete_fold extensions
                (fun b extension => fst (unload_extension imp b extension None))
                (map fst (map_to_list (extensions b))) k
                (fun x n Hn => unload_step_extensions imp x n (Habs n (proj1 (In_keys _ n) Hn)))
                b) as [Hin Hout].
    destruct (extensions b !! k) as [lib|] eqn:E.
    + apply Hin, In_keys. eexists; exact E.
    + destruct (classic_In k (map fst (map_to_list (extensions b)))) as [H|H];
        [exact (Hin H)|exact (Hout H)].
Qed.

(** *** The extension [ext] of the examples *)

Lemma dispatch_after_add_listener_witness :
  (forall event_name,
     dispatch (fst (add_listener empty_bot ext_listener (Some "on_message"))) event_name =
     if String.eqb "on_message" ("on_" ++ event_name)
     then dispatch empty_bot event_name ++ [(ext_listener, "on_message")]
     else dispatch empty_bot event_name)
  /\ (String.prefix "on_" "on_message" = false ->
      forall event_name,
        dispatch (fst (add_listener empty_bot ext_listener (Some "on_message"))) event_name
        = dispatch empty_bot event_name).
Proof.
  apply (dispatch_after_add_listener empty_bot ext_listener "on_message").
  reflexivity.
Defined.

Lemma remove_listener_undoes_add_witness :
  similar (remove_listener (fst (add_listener ext_then_other late_listener None))
                           late_listener None)
          ext_then_other.
Proof.
  apply (remove_listener_undoes_add ext_then_other late_listener None).
  - reflexivity.
  - intros H. vm_compute in H. exact H.
Defined.

Lemma loaded_extension_is_registered_witness :
  exists key lib,
    _resolve_name (importer ext_v1) "ext" None = Ok key
    /\ extensions ext_loaded !! key = Some lib
    /\ mod_name lib = key
    /\ sys_modules ext_loaded !! key = Some lib
    /\ load_extension (importer ext_v1) ext_loaded "ext" None
       = (ext_loaded, Some (ExtensionAlreadyLoaded key)).
Proof.
  apply (loaded_extension_is_registered (importer ext_v1) empty_bot "ext" None ext_loaded).
  vm_compute. reflexivity.
Defined.

Lemma unload_extension_unimports_witness :
  exists key lib,
    _resolve_name (importer ext_v1) "ext" None = Ok key
    /\ extensions ext_loaded !! key = Some lib
    /\ extensions (fst (unload_extension (importer ext_v1) ext_loaded "ext" None))
       = delete key (extensions ext_loaded)
    /\ (forall k, k = key \/ _is_submodule (mod_name lib) k = true ->
                  sys_modules (fst (unload_extension (importer ext_v1) ext_loaded "ext" None))
                  !! k = None)
    /\ (forall k, k <> key -> _is_submodule (mod_name lib) k = false ->
                  sys_modules (fst (unload_extension (importer ext_v1) ext_loaded "ext" None))
                  !! k = sys_modules ext_loaded !! k)
    /\ unload_extension (importer ext_v1)
         (fst (unload_extension (importer ext_v1) ext_loaded "ext" None)) "ext" None
       = (fst (unload_extension (importer ext_v1) ext_loaded "ext" None),
          Some (ExtensionNotLoaded key)).
Proof.
  apply (unload_extension_unimports (importer ext_v1) ext_loaded "ext" None
           (fst (unload_extension (importer ext_v1) ext_loaded "ext" None))).
  vm_compute. reflexivity.
Defined.

Lemma unload_undoes_load_witness :
  exists b2,
    unload_extension (importer ext_v1) ext_loaded "ext" None = (b2, None)
    /\ similar b2 empty_bot
    /\ extensions b2 = extensions empty_bot.
Proof.
  apply (unload_undoes_load (importer ext_v1) empty_bot "ext" None "ext" ext_v1 ext_loaded).
  - reflexivity.
  - reflexivity.
  - reflexivity.
  - exact I.
  - split; [|split].
    + intros n cog H. vm_compute in H. discriminate.
    + intros n cmd H. vm_compute in H. discriminate.
    + intros ev func H. vm_compute in H. destruct H.
  - intros n cmd H. vm_compute in H. discriminate.
  - vm_compute. reflexivity.
Defined.

Lemma reload_is_unload_then_load_witness :
  reload_extension (importer ext_v1) ext_loaded "ext" None = (ext_loaded, None) <->
  exists b1, unload_extension (importer ext_v1) ext_loaded "ext" None = (b1, None)
             /\ load_extension (importer ext_v1) b1 "ext" None = (ext_loaded, None).
Proof.
  apply (reload_is_unload_then_load (importer ext_v1) ext_loaded "ext" None "ext" ext_loaded).
  - reflexivity.
  - reflexivity.
Defined.

End LifecycleFacts.
